(** * video_sub_creator: subtitle serialisation and batch pipeline

    A shallow embedding of [video_sub_creator/main.py] and the properties of
    its timestamp formatter, subtitle writer, audio normalisation, warning
    filter handling and batch loop.

    Conventions of the embedding:
    - a Python [str] is the list of its Unicode code points;
    - a Python [float] is an IEEE-754 binary64 value, a numpy [float32] a
      binary32 value, both computed with the executable operations of
      [SpecFloat] (round to nearest, ties to even);
    - a Python [int] is a [Z];
    - a raised exception is the [Raise] outcome of a state-and-error monad
      whose state holds the process-wide objects the code touches
      ([warnings.filters], the files, standard output, live iterators);
    - the body of a pool job is a sequence of atomic steps, which the
      thread pool interleaves with the steps of the other jobs;
    - paths, line ends and files are those of a POSIX system. *)

From Stdlib Require Import ZArith NArith List Bool Lia String Ascii.
From Stdlib Require Strings.Byte.
From Stdlib Require DecimalN.
From Stdlib Require Import Floats.SpecFloat.
Import ListNotations.

Local Open Scope Z_scope.

(** ** Python strings *)

Module PyStr.

(** A [str] is a sequence of code points. *)
Definition str := list N.

(** The [str] written by an ASCII literal of the source. *)
Definition lit (s : string) : str :=
  List.map N_of_ascii (list_ascii_of_string s).

(** ["\n"] *)
Definition nl : str := [10%N].

Fixpoint eqb (a b : str) : bool :=
  match a, b with
  | [], [] => true
  | x :: a', y :: b' => N.eqb x y && eqb a' b'
  | _, _ => false
  end.

(** [s.startswith(p)] *)
Fixpoint startswith (p s : str) : bool :=
  match p, s with
  | [], _ => true
  | x :: p', y :: s' => N.eqb x y && startswith p' s'
  | _ :: _, [] => false
  end.

(** [s.endswith(p)] *)
Definition endswith (p s : str) : bool :=
  startswith (rev p) (rev s).

(** [p in s] *)
Fixpoint contains (p s : str) : bool :=
  startswith p s ||
  match s with
  | [] => false
  | _ :: s' => contains p s'
  end.

(** [c.isspace()]: the code points Python's [str.strip()] removes. *)
Definition isspace (c : N) : bool :=
  ((9 <=? c) && (c <=? 13) || (28 <=? c) && (c <=? 32)
   || (c =? 133) || (c =? 160) || (c =? 5760)
   || (8192 <=? c) && (c <=? 8202)
   || (c =? 8232) || (c =? 8233) || (c =? 8239) || (c =? 8287)
   || (c =? 12288))%N.

Fixpoint lstrip (s : str) : str :=
  match s with
  | [] => []
  | c :: s' => if isspace c then lstrip s' else s
  end.

Definition rstrip (s : str) : str := rev (lstrip (rev s)).

(** [s.strip()] *)
Definition strip (s : str) : str := rstrip (lstrip s).

(** [s.replace(old, new)] for a non-empty [old]: occurrences are found
    from the left and do not overlap.  [skip] counts the characters of
    the occurrence just replaced that are still to be passed over. *)
Fixpoint replace_from (old new : str) (skip : nat) (s : str) : str :=
  match s with
  | [] => []
  | c :: s' =>
      match skip with
      | S k => replace_from old new k s'
      | O =>
          if startswith old s
          then new ++ replace_from old new (Nat.pred (List.length old)) s'
          else c :: replace_from old new O s'
      end
  end.

Definition replace (old new s : str) : str := replace_from old new O s.

(** Decimal digits of a natural number, most significant first. *)
Fixpoint uint_codes (u : Decimal.uint) : str :=
  match u with
  | Decimal.Nil => []
  | Decimal.D0 u => 48%N :: uint_codes u
  | Decimal.D1 u => 49%N :: uint_codes u
  | Decimal.D2 u => 50%N :: uint_codes u
  | Decimal.D3 u => 51%N :: uint_codes u
  | Decimal.D4 u => 52%N :: uint_codes u
  | Decimal.D5 u => 53%N :: uint_codes u
  | Decimal.D6 u => 54%N :: uint_codes u
  | Decimal.D7 u => 55%N :: uint_codes u
  | Decimal.D8 u => 56%N :: uint_codes u
  | Decimal.D9 u => 57%N :: uint_codes u
  end.

Definition digits (n : N) : str := uint_codes (N.to_uint n).

(** [f"{z:0{width}d}"]: decimal, zero-padded to [width] characters, the
    sign (if any) counted in the width and placed before the padding. *)
Definition format_0d (width : nat) (z : Z) : str :=
  let ds := digits (Z.abs_N z) in
  if z <? 0
  then 45%N :: repeat 48%N (Nat.pred width - List.length ds) ++ ds
  else repeat 48%N (width - List.length ds) ++ ds.

(** [f"{z}"] (that is [str(z)]) for an [int]. *)
Definition str_of_int (z : Z) : str := format_0d 0 z.

End PyStr.

Import PyStr.

(** ** Exceptions and results *)

Inductive exn_class :=
  | AssertionError
  | OverflowError
  | ValueError
  | OSError
  | UnicodeEncodeError
  | OtherException.

(** An instance of a subclass of Python's [Exception] with its message
    ([str(e)]). *)
Record exn := mkExn { exn_cls : exn_class; exn_msg : str }.

Inductive result (A : Type) :=
  | Ok (a : A)
  | Raise (e : exn).
Arguments Ok {A} a.
Arguments Raise {A} e.

(** ** Writing text as UTF-8 *)

Module Utf8.

(** The code points UTF-8 cannot encode: the surrogates. *)
Definition is_surrogate (c : N) : bool := ((55296 <=? c) && (c <=? 57343))%N.

(** The number of surrogates [s] starts with. *)
Fixpoint surrogate_run (s : str) : N :=
  match s with
  | [] => 0%N
  | c :: s' => if is_surrogate c then (1 + surrogate_run s')%N else 0%N
  end.

(** The first surrogate of [s], from position [i] on: its position, the
    length of the run of surrogates it starts, and the surrogate. *)
Fixpoint find_surrogate (i : N) (s : str) : option (N * N * N) :=
  match s with
  | [] => None
  | c :: s' =>
      if is_surrogate c then Some (i, surrogate_run s, c)
      else find_surrogate (i + 1) s'
  end.

Definition hex_digit (d : N) : N := (if d <? 10 then 48 + d else 87 + d)%N.

(** [f"{c:04x}"] for a [c] below [0x10000]. *)
Definition hex4 (c : N) : str :=
  [hex_digit (c / 4096); hex_digit (c / 256 mod 16);
   hex_digit (c / 16 mod 16); hex_digit (c mod 16)]%N.

(** The [UnicodeEncodeError] that encoding [s] raises, if it raises: the
    strict handler reports the first run of surrogates. *)
Definition encode_error (s : str) : option exn :=
  match find_surrogate 0 s with
  | None => None
  | Some (i, n, c) =>
      Some (mkExn UnicodeEncodeError
              (if (n =? 1)%N
               then lit "'utf-8' codec can't encode character '\u" ++ hex4 c
                    ++ lit "' in position " ++ digits i
                    ++ lit ": surrogates not allowed"
               else lit "'utf-8' codec can't encode characters in position "
                    ++ digits i ++ lit "-" ++ digits (i + n - 1)
                    ++ lit ": surrogates not allowed"))
  end.

End Utf8.

(** ** Python floats *)

Module PyFloat.

Definition float := spec_float.

Definition prec := 53.
Definition emax := 1024.

Definition of_int (z : Z) : float := binary_normalize prec emax z 0 false.
Definition mul : float -> float -> float := SFmul prec emax.
Definition div : float -> float -> float := SFdiv prec emax.

(** The value of a decimal literal [n / 10^k] of the source or of the
    spec, for digits [n] below [2^53] and [k <= 22]: both operands are
    exact, so the correctly rounded quotient is the nearest binary64. *)
Definition decimal (n : Z) (k : Z) : float := div (of_int n) (of_int (10 ^ k)).

(** [x >= 0] *)
Definition ge0 (x : float) : bool := SFleb (S754_zero false) x.

(** [x < 0] *)
Definition lt0 (x : float) : bool := SFltb x (S754_zero false).

Definition is_finite (x : float) : bool :=
  match x with
  | S754_zero _ | S754_finite _ _ _ => true
  | _ => false
  end.

(** Nearest integer to [m * 2^e], ties to the even integer. *)
Definition round_half_even (m : positive) (e : Z) : Z :=
  match e with
  | Zneg p =>
      let d := 2 ^ Zpos p in
      let q := Zpos m / d in
      let r := Zpos m mod d in
      match 2 * r ?= d with
      | Lt => q
      | Gt => q + 1
      | Eq => if Z.even q then q else q + 1
      end
  | _ => Zpos m * 2 ^ e
  end.

(** [round(x)] with one argument: an [int], or an exception on an
    infinity or a NaN. *)
Definition round (x : float) : result Z :=
  match x with
  | S754_zero _ => Ok 0
  | S754_finite s m e =>
      Ok (if s then - round_half_even m e else round_half_even m e)
  | S754_infinity _ =>
      Raise (mkExn OverflowError (lit "cannot convert float infinity to integer"))
  | S754_nan =>
      Raise (mkExn ValueError (lit "cannot convert float NaN to integer"))
  end.

End PyFloat.

(** ** numpy float32 *)

Module Float32.

Definition float32 := spec_float.

Definition prec := 24.
Definition emax := 128.

Definition of_int (z : Z) : float32 := binary_normalize prec emax z 0 false.
Definition div : float32 -> float32 -> float32 := SFdiv prec emax.
Definition leb : float32 -> float32 -> bool := SFleb.
Definition ltb : float32 -> float32 -> bool := SFltb.
Definition mul : float32 -> float32 -> float32 := SFmul prec emax.

End Float32.

(** ** The warnings module *)

Module Warnings.

Inductive action := Ignore | Default.

(** An entry of [warnings.filters]:
    [(action, message, category, module, lineno)]. *)
Record filter := mkFilter {
  f_action : action;
  f_message : option str;
  f_category : str;
  f_module : option str;
  f_lineno : Z
}.

Definition action_eqb (a b : action) : bool :=
  match a, b with
  | Ignore, Ignore | Default, Default => true
  | _, _ => false
  end.

Definition opt_eqb (a b : option str) : bool :=
  match a, b with
  | None, None => true
  | Some x, Some y => PyStr.eqb x y
  | _, _ => false
  end.

Definition filter_eqb (a b : filter) : bool :=
  action_eqb (f_action a) (f_action b)
  && opt_eqb (f_message a) (f_message b)
  && PyStr.eqb (f_category a) (f_category b)
  && opt_eqb (f_module a) (f_module b)
  && (f_lineno a =? f_lineno b).

(** [filters.remove(item)], ignoring the [ValueError] of an absent item:
    the first equal entry is removed. *)
Fixpoint remove_first (item : filter) (filters : list filter) : list filter :=
  match filters with
  | [] => []
  | f :: rest => if filter_eqb item f then rest else f :: remove_first item rest
  end.

(** The entry built by [filterwarnings(action)] with the other arguments
    at their defaults: any message, category [Warning], any module, any
    line. *)
Definition catch_all (a : action) : filter :=
  mkFilter a None (lit "Warning") None 0.

(** [warnings.filterwarnings(action)]: the entry is moved or inserted at
    the front of the process-wide list. *)
Definition filterwarnings (a : action) (filters : list filter) : list filter :=
  catch_all a :: remove_first (catch_all a) filters.

End Warnings.

(** ** Segments, iterables and the state of the process *)

(** A record of the transcription: [segment['start']], [segment['end']],
    [segment['text']]. *)
Record segment := mkSegment {
  start : PyFloat.float;
  end_ : PyFloat.float;
  text : str
}.

(** What [SubtitleGenerator] is given as [transcript]: a list, which every
    [for] loop walks from its beginning, or a reference to a one-shot
    iterator, whose remaining items live in the store. *)
Inductive iterable :=
  | ListObj (items : list segment)
  | IterRef (id : nat).

Inductive event :=
  | EvPrint (line : str)
  | EvSubprocess (cmd : list str)
  | EvTranscribe (audio : list Float32.float32)
                 (filters_in_force : list Warnings.filter)
  | EvJobEnd (future : nat) (raised : option exn).

Record world := mkWorld {
  filters : list Warnings.filter;      (* warnings.filters *)
  files : list (str * str);            (* path and content, newest first *)
  iters : list (list segment);         (* pending items of each iterator *)
  model : bool;                        (* self.model is not None *)
  trace : list event                   (* what happened, oldest first *)
}.

(** Computations that read and change the process state and either return
    or raise. *)
Definition M (A : Type) : Type := world -> result A * world.

Definition ret {A} (a : A) : M A := fun w => (Ok a, w).

Definition raise {A} (e : exn) : M A := fun w => (Raise e, w).

Definition bind {A B} (c : M A) (k : A -> M B) : M B :=
  fun w =>
    match c w with
    | (Ok a, w') => k a w'
    | (Raise e, w') => (Raise e, w')
    end.

Definition lift {A} (r : result A) : M A :=
  match r with
  | Ok a => ret a
  | Raise e => raise e
  end.

Notation "x <- c ;; k" := (bind c (fun x => k))
  (at level 61, c at next level, right associativity).
Notation "c ;; k" := (bind c (fun _ => k))
  (at level 61, right associativity).

Definition emit (e : event) : M unit :=
  fun w => (Ok tt, mkWorld (filters w) (files w) (iters w) (model w) (trace w ++ [e])).

(** [print(line)] *)
Definition print (line : str) : M unit := emit (EvPrint line).

Definition set_filters (fs : list Warnings.filter) : M unit :=
  fun w => (Ok tt, mkWorld fs (files w) (iters w) (model w) (trace w)).

Definition set_files (fs : list (str * str)) : M unit :=
  fun w => (Ok tt, mkWorld (filters w) fs (iters w) (model w) (trace w)).

Definition set_iters (its : list (list segment)) : M unit :=
  fun w => (Ok tt, mkWorld (filters w) (files w) its (model w) (trace w)).

Definition set_model (b : bool) : M unit :=
  fun w => (Ok tt, mkWorld (filters w) (files w) (iters w) b (trace w)).

Definition get {A} (f : world -> A) : M A := fun w => (Ok (f w), w).

(** [warnings.filterwarnings(action)] on the process state. *)
Definition filterwarnings (a : Warnings.action) : M unit :=
  fs <- get filters ;; set_filters (Warnings.filterwarnings a fs).

(** Content of the file at [path], if it exists. *)
Fixpoint read_file (path : str) (fs : list (str * str)) : option str :=
  match fs with
  | [] => None
  | (p, c) :: rest => if PyStr.eqb path p then Some c else read_file path rest
  end.

(** [f.write(s)] on the file opened at [path] with [encoding="utf-8"]:
    the text is encoded when it is written, so a text that cannot be
    encoded raises and leaves the file with what was written before. *)
Definition f_write (path s : str) : M unit :=
  match Utf8.encode_error s with
  | Some e => raise e
  | None =>
      fs <- get files ;;
      match read_file path fs with
      | Some c => set_files ((path, c ++ s) :: fs)
      | None => set_files ((path, s) :: fs)
      end
  end.

Fixpoint update_nth {A} (n : nat) (a : A) (l : list A) : list A :=
  match l, n with
  | [], _ => []
  | _ :: l', O => a :: l'
  | x :: l', S n' => x :: update_nth n' a l'
  end.

(** The items an iterator has still to yield (none for a dead reference). *)
Definition pending (id : nat) (w : world) : list segment :=
  nth id (iters w) [].

Definition set_pending (id : nat) (items : list segment) : M unit :=
  its <- get iters ;; set_iters (update_nth id items its).

(** [for i, x in enumerate(t, start=i0): body(i, x)].  A list is walked
    from its beginning.  An iterator is advanced by one item before each
    run of the body, in the store, so what one loop has taken no later loop
    sees; the bodies below never touch the iterator themselves. *)
Fixpoint for_list (body : Z -> segment -> M unit) (i : Z) (l : list segment)
  : M unit :=
  match l with
  | [] => ret tt
  | x :: rest => body i x ;; for_list body (i + 1) rest
  end.

Fixpoint for_iter (body : Z -> segment -> M unit) (id : nat) (i : Z)
  (todo : list segment) : M unit :=
  match todo with
  | [] => ret tt
  | x :: rest =>
      set_pending id rest ;; body i x ;; for_iter body id (i + 1) rest
  end.

Definition for_enumerate (body : Z -> segment -> M unit) (i0 : Z) (t : iterable)
  : M unit :=
  match t with
  | ListObj l => for_list body i0 l
  | IterRef id => todo <- get (pending id) ;; for_iter body id i0 todo
  end.

(** [for x in t: body(x)] *)
Definition for_in (body : segment -> M unit) (t : iterable) : M unit :=
  for_enumerate (fun _ => body) 0 t.

(** ** Threads *)

(** The body of a function that a thread of the pool runs, as the sequence
    of its calls.  Each call is one step of the thread; between two steps
    the other threads may take steps of theirs.  (Threads switch inside a
    call too; the calls of the body are the grain at which a job acts on
    the warning filters of the process.) *)
Inductive prog (A : Type) : Type :=
  | Return (a : A)
  | Step {B : Type} (call : M B) (rest : B -> prog A).

Arguments Return {A} a.
Arguments Step {A B} call rest.

Notation "x <~ c ;; k" := (Step c (fun x => k))
  (at level 61, c at next level, right associativity).
Notation "c ~;; k" := (Step c (fun _ => k))
  (at level 61, right associativity).

(** The function run by a thread that no other thread overlaps: each call
    right after the one before, up to the return or to the first call
    that raises. *)
Fixpoint exec {A} (c : prog A) (w : world) {struct c} : result A * world :=
  match c with
  | Return a => ret a w
  | Step call rest => (x <- call ;; exec (rest x)) w
  end.

Coercion exec : prog >-> Funclass.

(** ** The outside of the program *)

(** Outcome of [subprocess.run(cmd, capture_output=True, check=True)]. *)
Inductive process_outcome :=
  | Completed (stdout : list Byte.byte)
  | CalledProcessError (stderr : list Byte.byte)
  | NotRun (e : exn).

(** What [model.transcribe(...)["segments"]] evaluates to: a list, or a
    freshly created one-shot iterator over the given items. *)
Inductive segments_value :=
  | SegList (items : list segment)
  | SegIter (items : list segment).

Record transcribe_args := mkArgs {
  task : str;
  language : option str;
  verbose : bool
}.

(** The collaborators the program calls and does not define. *)
Record env := mkEnv {
  add_paths : result unit;                         (* static_ffmpeg.add_paths() *)
  makedirs : str -> result unit;                   (* os.makedirs(d, exist_ok=True) *)
  isdir : str -> bool;                             (* os.path.isdir *)
  listdir : str -> list str;                       (* os.listdir *)
  load_model : str -> result unit;                 (* whisper.load_model *)
  subprocess_run : list str -> process_outcome;
  decode : list Byte.byte -> result str;           (* bytes.decode() *)
  transcribe : list Float32.float32 -> transcribe_args -> result segments_value;
  openable : str -> bool;                          (* open(path, "w") succeeds *)
  open_error : str -> exn                          (* what it raises otherwise *)
}.

(** [open(file_path, "w", encoding="utf-8")]: the file is created or
    emptied, or the system's error (an [OSError] with its errno, reason and
    path) is raised. *)
Definition open_w (E : env) (file_path : str) : M unit :=
  if openable E file_path
  then fs <- get files ;; set_files ((file_path, []) :: fs)
  else raise (open_error E file_path).

(** [os.path] on POSIX. *)
Module OsPath.

Definition slash : N := 47%N.
Definition dot : N := 46%N.

(** The characters after the last [c] of [s] (all of [s] without [c]),
    and whether a [c] was found. *)
Fixpoint after_last (c : N) (s : str) : str * bool :=
  match s with
  | [] => ([], false)
  | x :: s' =>
      let (t, found) := after_last c s' in
      if found then (t, true)
      else if N.eqb x c then (s', true) else (x :: t, false)
  end.

Definition basename (p : str) : str := fst (after_last slash p).

(** [os.path.splitext(p)[0]] for a [p] without directory part: the text
    before the last dot, unless only dots precede it. *)
Definition splitext_root (p : str) : str :=
  let (ext, found) := after_last dot p in
  let root := firstn (List.length p - S (List.length ext)) p in
  if found && existsb (fun c => negb (N.eqb c dot)) root then root else p.

Definition join (a b : str) : str :=
  if startswith [slash] b then b
  else if PyStr.eqb a [] || endswith [slash] a then a ++ b
  else a ++ [slash] ++ b.

End OsPath.

(** ** SubtitleGenerator *)

Module SubtitleGenerator.

(** The object: [self.transcript] refers to what the constructor got. *)
Record t := mk { transcript : iterable }.

Definition __init__ (transcript : iterable) : t := mk transcript.

(** [_format_timestamp(seconds, decimal_marker)].  The body's
    reassignments of [milliseconds] are the successive [ms0] to [ms3],
    that of [seconds] is [secs]. *)
Definition _format_timestamp (seconds : PyFloat.float) (decimal_marker : str)
  : result str :=
  if negb (PyFloat.ge0 seconds)
  then Raise (mkExn AssertionError (lit "non-negative timestamp expected"))
  else
    match PyFloat.round (PyFloat.mul seconds (PyFloat.of_int 1000)) with
    | Raise e => Raise e
    | Ok ms0 =>
        let hours := ms0 / 3600000 in
        let ms1 := ms0 - hours * 3600000 in
        let minutes := ms1 / 60000 in
        let ms2 := ms1 - minutes * 60000 in
        let secs := ms2 / 1000 in
        let ms3 := ms2 - secs * 1000 in
        Ok (format_0d 2 hours ++ lit ":" ++ format_0d 2 minutes ++ lit ":"
            ++ format_0d 2 secs ++ decimal_marker ++ format_0d 3 ms3)
    end.

(** [segment['text'].strip().replace('-->', '->')] *)
Definition sanitize (s : str) : str :=
  replace (lit "-->") (lit "->") (strip s).

Definition write_vtt (E : env) (self : t) (file_path : str) : M unit :=
  open_w E file_path ;;
  f_write file_path (lit "WEBVTT" ++ nl ++ nl) ;;
  for_in (fun segment =>
    start <- lift (_format_timestamp (start segment) (lit ".")) ;;
    end_ <- lift (_format_timestamp (end_ segment) (lit ".")) ;;
    let text := sanitize (text segment) in
    f_write file_path (start ++ lit " --> " ++ end_ ++ nl ++ text ++ nl ++ nl))
    (transcript self).

Definition write_srt (E : env) (self : t) (file_path : str) : M unit :=
  open_w E file_path ;;
  for_enumerate (fun i segment =>
    start <- lift (_format_timestamp (start segment) (lit ",")) ;;
    end_ <- lift (_format_timestamp (end_ segment) (lit ",")) ;;
    let text := sanitize (text segment) in
    f_write file_path (str_of_int i ++ nl ++ start ++ lit " --> " ++ end_ ++ nl
                       ++ text ++ nl ++ nl))
    1 (transcript self).

End SubtitleGenerator.

(** ** VideoProcessor *)

Module VideoProcessor.

Definition VIDEO_SRC_DIR : str := lit "video_src".
Definition OUTPUT_DIR : str := lit "result".
Definition MODEL_NAME : str := lit "small".
Definition SUPPORTED_EXTENSIONS : list str :=
  [lit ".mp4"; lit ".mov"; lit ".avi"; lit ".mkv"].
Definition TRANSCRIBE_ARGS : transcribe_args :=
  mkArgs (lit "transcribe") None false.

(** [os.path.splitext(os.path.basename(path))[0]] *)
Definition _get_filename (path : str) : str :=
  OsPath.splitext_root (OsPath.basename path).

(** [list(self._get_video_files())] *)
Definition _get_video_files (E : env) : M (list str) :=
  if negb (isdir E VIDEO_SRC_DIR)
  then
    print (lit "Error: Source directory not found: '" ++ VIDEO_SRC_DIR ++ lit "'") ;;
    ret []
  else
    ret (List.map (OsPath.join VIDEO_SRC_DIR)
           (List.filter (fun f => existsb (fun ext => endswith ext f) SUPPORTED_EXTENSIONS)
              (listdir E VIDEO_SRC_DIR))).

(** One signed 16-bit sample from its two bytes, low byte first. *)
Definition int16_le (lo hi : Byte.byte) : Z :=
  let u := Z.of_N (Byte.to_N lo) + 256 * Z.of_N (Byte.to_N hi) in
  if u <? 32768 then u else u - 65536.

(** [np.frombuffer(b, np.int16)] *)
Fixpoint frombuffer_int16 (b : list Byte.byte) : result (list Z) :=
  match b with
  | [] => Ok []
  | lo :: hi :: rest =>
      match frombuffer_int16 rest with
      | Ok l => Ok (int16_le lo hi :: l)
      | Raise e => Raise e
      end
  | [_] =>
      Raise (mkExn ValueError (lit "buffer size must be a multiple of element size"))
  end.

(** One element of [a.astype(np.float32) / 32768.0] *)
Definition normalize (sample : Z) : Float32.float32 :=
  Float32.div (Float32.of_int sample) (Float32.of_int 32768).

Definition ffmpeg_cmd (video_path : str) : list str :=
  [lit "ffmpeg"; lit "-nostdin"; lit "-i"; video_path; lit "-f"; lit "s16le";
   lit "-ac"; lit "1"; lit "-ar"; lit "16000"; lit "-"; lit "-loglevel"; lit "error"].

Definition _extract_audio (E : env) (video_path : str)
  : M (option (list Float32.float32)) :=
  let video_filename := _get_filename video_path in
  print (lit "Processing: " ++ video_filename) ;;
  print (lit "  - Extracting audio...") ;;
  let cmd := ffmpeg_cmd video_path in
  emit (EvSubprocess cmd) ;;
  match subprocess_run E cmd with
  | Completed stdout =>
      samples <- lift (frombuffer_int16 stdout) ;;
      ret (Some (List.map normalize samples))
  | CalledProcessError stderr =>
      print (lit "  - Error: FFmpeg failed to extract audio. Details below:") ;;
      details <- lift (decode E stderr) ;;
      print (lit "    " ++ details) ;;
      ret None
  | NotRun e => raise e
  end.

Definition _load_model (E : env) : M unit :=
  loaded <- get model ;;
  if loaded then ret tt
  else
    print (lit "Initializing AI Model: '" ++ MODEL_NAME
           ++ lit "'... (This may take a moment on first run)") ;;
    lift (load_model E MODEL_NAME) ;;
    set_model true ;;
    print (lit "  - Model loaded successfully.").

(** [self.model.transcribe(audio_data, **self.TRANSCRIBE_ARGS)["segments"]]:
    the callee runs under the filters in force at the call (recorded in
    the trace) and does not change them; an iterator it returns is a new
    object of the store. *)
Definition model_transcribe (E : env) (audio_data : list Float32.float32)
  : M iterable :=
  loaded <- get model ;;
  if negb loaded
  then raise (mkExn OtherException
                (lit "'NoneType' object has no attribute 'transcribe'"))
  else
    fs <- get filters ;;
    emit (EvTranscribe audio_data fs) ;;
    v <- lift (transcribe E audio_data TRANSCRIBE_ARGS) ;;
    match v with
    | SegList items => ret (ListObj items)
    | SegIter items =>
        its <- get iters ;;
        set_iters (its ++ [items]) ;;
        ret (IterRef (List.length its))
    end.

Definition _process_single_video (E : env) (video_path : str) : prog unit :=
  audio_data <~ _extract_audio E video_path ;;
  match audio_data with
  | None => Return tt
  | Some audio_data =>
      let video_filename := _get_filename video_path in
      print (lit "  Generating subtitles...") ~;;
      filterwarnings Warnings.Ignore ~;;
      segments <~ model_transcribe E audio_data ;;
      filterwarnings Warnings.Default ~;;
      let generator := SubtitleGenerator.__init__ segments in
      let vtt_path := OsPath.join OUTPUT_DIR (video_filename ++ lit ".vtt") in
      SubtitleGenerator.write_vtt E generator vtt_path ~;;
      let srt_path := OsPath.join OUTPUT_DIR (video_filename ++ lit ".srt") in
      SubtitleGenerator.write_srt E generator srt_path ~;;
      print (lit "  - Subtitles saved: '" ++ OsPath.join OUTPUT_DIR video_filename
             ++ lit "' (.vtt/.srt)") ~;;
      Return tt
  end.

(** Run a computation to its end and hand back how it ended. *)
Definition attempt {A} (c : M A) : M (result A) :=
  fun w => let (r, w') := c w in (Ok r, w').

(** A future of the pool: a worker thread has still to run the rest of
    the job submitted for it; or the job has ended and the future holds
    how it ended; or [as_completed] has handed the future to the
    coordinator. *)
Inductive future :=
  | Running (rest : prog unit)
  | Done (outcome : result unit)
  | Yielded.

(** [{executor.submit(self._process_single_video, path): path for path in
    video_files}]: one future per file, kept with the path it is for. *)
Definition submit (E : env) (video_files : list str) : list (future * str) :=
  List.map (fun path => (Running (_process_single_video E path), path)) video_files.

(** The worker thread of a future takes its next step: the next call of
    the job, or, when no call is left or the call raised, the end of the
    job, whose outcome the future then holds. *)
Definition work (f : future) : M future :=
  match f with
  | Running (Return a) => ret (Done (Ok a))
  | Running (Step call rest) =>
      outcome <- attempt call ;;
      match outcome with
      | Ok x => ret (Running (rest x))
      | Raise e => ret (Done (Raise e))
      end
  | _ => ret f
  end.

(** The body of [for future in as_completed(futures)] on the future
    numbered [future], which is done: [future.result()] returns or raises
    what the job did, and what it raised is caught and printed. *)
Definition handle (future : nat) (video_path : str) (outcome : result unit)
  : M unit :=
  match outcome with
  | Ok _ => emit (EvJobEnd future None)
  | Raise e =>
      emit (EvJobEnd future (Some e)) ;;
      print (lit "An unexpected error occurred while processing '"
             ++ _get_filename video_path ++ lit "': " ++ exn_msg e)
  end.

(** One turn of the scheduler, on the future numbered [i]: its worker
    takes a step; or, the job having ended, [as_completed] yields the
    future and the coordinator handles it. *)
Definition turn (i : nat) (futures : list (future * str))
  : M (list (future * str)) :=
  match nth_error futures i with
  | None => ret futures
  | Some (Done outcome, path) =>
      handle i path outcome ;;
      ret (update_nth i (Yielded, path) futures)
  | Some (f, path) =>
      f' <- work f ;;
      ret (update_nth i (f', path) futures)
  end.

Fixpoint turns (schedule : list nat) (futures : list (future * str))
  : M (list (future * str)) :=
  match schedule with
  | [] => ret futures
  | i :: rest => futures' <- turn i futures ;; turns rest futures'
  end.

(** What is left of a job is run to its end. *)
Definition finish (f : future) : M future :=
  match f with
  | Running rest => outcome <- attempt (exec rest) ;; ret (Done outcome)
  | _ => ret f
  end.

(** The loop over [as_completed(futures)] and the [with] block are left
    only when every future is done and has been handled: the futures
    still running are run to their ends, and those not yet yielded are
    handled, the first of the list being numbered [i]. *)
Fixpoint wait (i : nat) (futures : list (future * str)) : M unit :=
  match futures with
  | [] => ret tt
  | (f, path) :: rest =>
      f' <- finish f ;;
      match f' with
      | Done outcome => handle i path outcome
      | _ => ret tt
      end ;;
      wait (S i) rest
  end.

(** [run()].  Every discovered file is submitted to the pool, future [i]
    being the one of [video_files[i]].  The jobs share standard output,
    the warning filters, the output files and the model, and their steps
    interleave as the scheduler decides: [schedule] lists the futures in
    the order in which something happens to them.  A schedule that names
    every step of the batch leaves nothing to wait for; after a shorter
    one, the jobs left are run and handled one after the other. *)
Definition run (E : env) (schedule : list nat) : M unit :=
  lift (add_paths E) ;;
  lift (makedirs E OUTPUT_DIR) ;;
  video_files <- _get_video_files E ;;
  match video_files with
  | [] =>
      print (lit "No videos found in '" ++ VIDEO_SRC_DIR
             ++ lit "'. Please add video files to begin.")
  | _ :: _ =>
      _load_model E ;;
      let video_count := Z.of_nat (List.length video_files) in
      print (nl ++ lit "Found " ++ str_of_int video_count
             ++ lit " video(s) to process. Starting job..." ++ nl) ;;
      futures <- turns schedule (submit E video_files) ;;
      wait 0 futures ;;
      print (nl ++ lit "Job finished. All videos processed successfully.")
  end.

End VideoProcessor.

(** ** The entry point *)

Module Entry.

(** [VideoProcessor.__init__]: a processor without model. *)
Definition __init__ : M unit := set_model false.

(** [main()] *)
Definition main (E : env) (schedule : list nat) : M unit :=
  __init__ ;; VideoProcessor.run E schedule.

End Entry.

(** ** The formats as the specification words them *)

Module Format.

(** The integer number of milliseconds of a timestamp that can be
    formatted. *)
Definition millis (seconds : PyFloat.float) : Z :=
  match PyFloat.round (PyFloat.mul seconds (PyFloat.of_int 1000)) with
  | Ok ms => ms
  | Raise _ => 0
  end.

(** A seconds value the formatter accepts: not negative, and with a
    finite number of milliseconds. *)
Definition valid_time (seconds : PyFloat.float) : bool :=
  PyFloat.ge0 seconds
  && PyFloat.is_finite (PyFloat.mul seconds (PyFloat.of_int 1000)).

(** A text that can be written as UTF-8: one without surrogate. *)
Definition encodable (s : str) : bool := negb (existsb Utf8.is_surrogate s).

(** A segment the writers accept: two times the formatter accepts and a
    text that can be written. *)
Definition valid_segment (s : segment) : bool :=
  valid_time (start s) && valid_time (end_ s) && encodable (text s).

(** [HH:MM:SS<sep>mmm] of a millisecond count, every field by division
    and remainder. *)
Definition hhmmss_mmm (sep : str) (ms : Z) : str :=
  format_0d 2 (ms / 3600000) ++ lit ":" ++ format_0d 2 (ms / 60000 mod 60)
  ++ lit ":" ++ format_0d 2 (ms / 1000 mod 60) ++ sep ++ format_0d 3 (ms mod 1000).

(** [<start> --> <end>\n<text>\n\n] *)
Definition cue (sep : str) (s : segment) : str :=
  hhmmss_mmm sep (millis (start s)) ++ lit " --> "
  ++ hhmmss_mmm sep (millis (end_ s)) ++ nl
  ++ SubtitleGenerator.sanitize (text s) ++ nl ++ nl.

Definition vtt_content (segs : list segment) : str :=
  lit "WEBVTT" ++ nl ++ nl ++ List.concat (List.map (cue (lit ".")) segs).

(** The SRT blocks of [segs], the first of them numbered [i]. *)
Fixpoint srt_blocks (i : Z) (segs : list segment) : str :=
  match segs with
  | [] => []
  | s :: rest => str_of_int i ++ nl ++ cue (lit ",") s ++ srt_blocks (i + 1) rest
  end.

Definition srt_content (segs : list segment) : str := srt_blocks 1 segs.

(** A decimal digit, ['0'] to ['9']. *)
Definition is_digit (c : N) : Prop := (48 <= c <= 57)%N.

(** The transcript of the end-to-end scenario. *)
Definition scenario : list segment :=
  [ mkSegment (PyFloat.decimal 0 1) (PyFloat.decimal 12 1) (lit "Hello");
    mkSegment (PyFloat.decimal 12 1) (PyFloat.decimal 25 1) (lit "World") ].

Definition scenario_vtt : str :=
  lit "WEBVTT" ++ nl ++ nl
  ++ lit "00:00:00.000 --> 00:00:01.200" ++ nl ++ lit "Hello" ++ nl ++ nl
  ++ lit "00:00:01.200 --> 00:00:02.500" ++ nl ++ lit "World" ++ nl ++ nl.

Definition scenario_srt : str :=
  lit "1" ++ nl ++ lit "00:00:00,000 --> 00:00:01,200" ++ nl ++ lit "Hello" ++ nl ++ nl
  ++ lit "2" ++ nl ++ lit "00:00:01,200 --> 00:00:02,500" ++ nl ++ lit "World" ++ nl ++ nl.

End Format.

(** ** Vocabulary of the statements *)

(** The state [w] with its files replaced. *)
Definition with_files (fs : list (str * str)) (w : world) : world :=
  mkWorld (filters w) fs (iters w) (model w) (trace w).

(** The files after [f.write(s)] on the file at [path]. *)
Definition write_one (path s : str) (fs : list (str * str)) : list (str * str) :=
  match read_file path fs with
  | Some c => (path, c ++ s) :: fs
  | None => (path, s) :: fs
  end.

(** The files after one [f.write] per item, the block of the item [s]
    numbered [i] being [blk i s]. *)
Fixpoint write_blocks (path : str) (blk : Z -> segment -> str) (i : Z)
  (segs : list segment) (fs : list (str * str)) : list (str * str) :=
  match segs with
  | [] => fs
  | s :: rest => write_blocks path blk (i + 1) rest (write_one path (blk i s) fs)
  end.

(** The blocks of all items, one after the other. *)
Fixpoint blocks (blk : Z -> segment -> str) (i : Z) (segs : list segment) : str :=
  match segs with
  | [] => []
  | s :: rest => blk i s ++ blocks blk (i + 1) rest
  end.

(** The block [write_vtt] writes for a segment, and the one [write_srt]
    writes for the segment numbered [i]. *)
Definition vtt_block (_ : Z) (s : segment) : str := Format.cue (lit ".") s.

Definition srt_block (i : Z) (s : segment) : str :=
  str_of_int i ++ nl ++ Format.cue (lit ",") s.

(** Ways in which a computation may leave the state: touching nothing but
    files and iterators, touching no warning filter, only adding to the
    trace. *)
Definition quiet_step (w w' : world) : Prop :=
  filters w' = filters w /\ model w' = model w /\ trace w' = trace w.

Definition filters_step (w w' : world) : Prop :=
  filters w' = filters w.

(** A job's events: prints, the subprocess, the transcription. *)
Definition job_event (e : event) : Prop :=
  match e with
  | EvJobEnd _ _ => False
  | _ => True
  end.

Definition job_step (w w' : world) : Prop :=
  model w' = model w
  /\ exists new, trace w' = trace w ++ new /\ Forall job_event new.

(** Every run of [c] leaves the state in the way [rel]. *)
Definition respects (rel : world -> world -> Prop) {A} (c : M A) : Prop :=
  forall w, rel w (snd (c w)).

(** The exception a future holds, if any. *)
Definition raised {A} (r : result A) : option exn :=
  match r with
  | Ok _ => None
  | Raise e => Some e
  end.

(** The items a loop over [t] yields in the state [w], and what is left
    of them for the next loop. *)
Definition items_of (t : iterable) (w : world) : list segment :=
  match t with
  | ListObj l => l
  | IterRef id => pending id w
  end.

Definition items_left (t : iterable) : list segment :=
  match t with
  | ListObj l => l
  | IterRef _ => []
  end.

(** How a loop ends when its body ends as [f] says: at the first item on
    which the body raises, or normally. *)
Fixpoint loop_outcome (f : Z -> segment -> result unit) (i : Z)
  (segs : list segment) : result unit :=
  match segs with
  | [] => Ok tt
  | s :: rest =>
      match f i s with
      | Ok _ => loop_outcome f (i + 1) rest
      | Raise e => Raise e
      end
  end.

(** How the body of a writer's loop ends: as its two calls of the
    formatter and the encoding of the text it writes do, [content] making
    that text from the two timestamps. *)
Definition cue_outcome (sep : str) (content : Z -> segment -> str -> str -> str)
  (i : Z) (s : segment) : result unit :=
  match SubtitleGenerator._format_timestamp (start s) sep with
  | Raise e => Raise e
  | Ok a =>
      match SubtitleGenerator._format_timestamp (end_ s) sep with
      | Raise e => Raise e
      | Ok b =>
          match Utf8.encode_error (content i s a b) with
          | Some e => Raise e
          | None => Ok tt
          end
      end
  end.

(** The text the two writers write for a segment. *)
Definition vtt_text (_ : Z) (s : segment) (a b : str) : str :=
  a ++ lit " --> " ++ b ++ nl ++ SubtitleGenerator.sanitize (text s) ++ nl ++ nl.

Definition srt_text (i : Z) (s : segment) (a b : str) : str :=
  str_of_int i ++ nl ++ a ++ lit " --> " ++ b ++ nl
  ++ SubtitleGenerator.sanitize (text s) ++ nl ++ nl.

(** How a writer ends on the items its loop is to see. *)
Definition writer_outcome (E : env) (path sep : str)
  (content : Z -> segment -> str -> str -> str) (i0 : Z)
  (items : list segment) : result unit :=
  if openable E path then loop_outcome (cue_outcome sep content) i0 items
  else Raise (open_error E path).

(** The items the first loop over a transcription sees, and those a
    second loop sees. *)
Definition segments_of (v : segments_value) : list segment :=
  match v with
  | SegList l | SegIter l => l
  end.

Definition segments_again (v : segments_value) : list segment :=
  match v with
  | SegList l => l
  | SegIter _ => []
  end.

(** The two files of the job of a video. *)
Definition vtt_path_of (video_path : str) : str :=
  OsPath.join VideoProcessor.OUTPUT_DIR
    (VideoProcessor._get_filename video_path ++ lit ".vtt").

Definition srt_path_of (video_path : str) : str :=
  OsPath.join VideoProcessor.OUTPUT_DIR
    (VideoProcessor._get_filename video_path ++ lit ".srt").

(** How the two writers of a job end, one after the other, on the items
    the first loop sees and on those the second loop sees. *)
Definition files_outcome (E : env) (video_path : str)
  (first again : list segment) : result unit :=
  match writer_outcome E (vtt_path_of video_path) (lit ".") vtt_text 0 first with
  | Raise e => Raise e
  | Ok _ => writer_outcome E (srt_path_of video_path) (lit ",") srt_text 1 again
  end.

(** How a job that has its audio ends. *)
Definition audio_outcome (E : env) (video_path : str)
  (audio : list Float32.float32) : result unit :=
  match transcribe E audio VideoProcessor.TRANSCRIBE_ARGS with
  | Raise e => Raise e
  | Ok v => files_outcome E video_path (segments_of v) (segments_again v)
  end.

(** How the job of a file ends, from the file and the collaborators
    alone. *)
Definition job_outcome (E : env) (video_path : str) : result unit :=
  match subprocess_run E (VideoProcessor.ffmpeg_cmd video_path) with
  | NotRun e => Raise e
  | CalledProcessError stderr =>
      match decode E stderr with
      | Ok _ => Ok tt
      | Raise e => Raise e
      end
  | Completed stdout =>
      match VideoProcessor.frombuffer_int16 stdout with
      | Raise e => Raise e
      | Ok samples =>
          audio_outcome E video_path (List.map VideoProcessor.normalize samples)
      end
  end.

(** The digits of a string of decimal digits, and the number they
    write. *)
Fixpoint uint_of_codes (s : str) : Decimal.uint :=
  match s with
  | [] => Decimal.Nil
  | c :: s' =>
      let u := uint_of_codes s' in
      if (c =? 48)%N then Decimal.D0 u
      else if (c =? 49)%N then Decimal.D1 u
      else if (c =? 50)%N then Decimal.D2 u
      else if (c =? 51)%N then Decimal.D3 u
      else if (c =? 52)%N then Decimal.D4 u
      else if (c =? 53)%N then Decimal.D5 u
      else if (c =? 54)%N then Decimal.D6 u
      else if (c =? 55)%N then Decimal.D7 u
      else if (c =? 56)%N then Decimal.D8 u
      else Decimal.D9 u
  end.

Definition number_of_codes (s : str) : Z := Z.of_N (N.of_uint (uint_of_codes s)).

(** Leaving the files outside [written] as they are. *)
Definition files_step (written : str -> bool) (w w' : world) : Prop :=
  forall q, written q = false -> read_file q (files w') = read_file q (files w).

(** The listed names discovery keeps. *)
Definition supported (f : str) : bool :=
  existsb (fun ext => endswith ext f) VideoProcessor.SUPPORTED_EXTENSIONS.

(** Events that start work on a video. *)
Definition work_event (e : event) : bool :=
  match e with
  | EvSubprocess _ | EvTranscribe _ _ | EvJobEnd _ _ => true
  | EvPrint _ => false
  end.

(** [-1.0 <= x <= 1.0] on float32. *)
Definition in_unit_interval (x : Float32.float32) : bool :=
  Float32.leb (Float32.of_int (-1)) x && Float32.leb x (Float32.of_int 1).

(** ** Vocabulary of the pool *)

(** Where the thread of a job is in the body of the job: at the call it
    makes next, with what the calls before handed it. *)
Inductive stage :=
  | Extracting
  | Announcing (audio : list Float32.float32)
  | Muting (audio : list Float32.float32)
  | Transcribing (audio : list Float32.float32)
  | Unmuting (segments : iterable)
  | WritingVtt (segments : iterable)
  | WritingSrt (segments : iterable)
  | Reporting
  | Returning.

(** What is left of the body of the job of [video_path] at a stage. *)
Definition rest_at (E : env) (video_path : str) (s : stage) : prog unit :=
  let video_filename := VideoProcessor._get_filename video_path in
  let reporting :=
    print (lit "  - Subtitles saved: '"
           ++ OsPath.join VideoProcessor.OUTPUT_DIR video_filename
           ++ lit "' (.vtt/.srt)") ~;;
    Return tt in
  let writing_srt t :=
    SubtitleGenerator.write_srt E (SubtitleGenerator.__init__ t)
      (srt_path_of video_path) ~;;
    reporting in
  let writing_vtt t :=
    SubtitleGenerator.write_vtt E (SubtitleGenerator.__init__ t)
      (vtt_path_of video_path) ~;;
    writing_srt t in
  let unmuting t := filterwarnings Warnings.Default ~;; writing_vtt t in
  let transcribing a :=
    t <~ VideoProcessor.model_transcribe E a ;; unmuting t in
  let muting a := filterwarnings Warnings.Ignore ~;; transcribing a in
  match s with
  | Extracting => VideoProcessor._process_single_video E video_path
  | Announcing a => print (lit "  Generating subtitles...") ~;; muting a
  | Muting a => muting a
  | Transcribing a => transcribing a
  | Unmuting t => unmuting t
  | WritingVtt t => writing_vtt t
  | WritingSrt t => writing_srt t
  | Reporting => reporting
  | Returning => Return tt
  end.

(** The one-shot iterator a loop over [t] advances, if any, and the one
    the job holds at a stage. *)
Definition owner (t : iterable) : option nat :=
  match t with
  | ListObj _ => None
  | IterRef id => Some id
  end.

Definition owned (s : stage) : option nat :=
  match s with
  | Unmuting t | WritingVtt t | WritingSrt t => owner t
  | _ => None
  end.

(** How a job that is at a stage ends. *)
Definition stage_outcome (E : env) (video_path : str) (s : stage) (w : world)
  : result unit :=
  match s with
  | Extracting => job_outcome E video_path
  | Announcing a | Muting a | Transcribing a => audio_outcome E video_path a
  | Unmuting t | WritingVtt t =>
      files_outcome E video_path (items_of t w) (items_left t)
  | WritingSrt t =>
      writer_outcome E (srt_path_of video_path) (lit ",") srt_text 1 (items_of t w)
  | Reporting | Returning => Ok tt
  end.

(** Leaving alone the one-shot iterators there are, but the one named:
    none is removed, and each of the others keeps its pending items. *)
Definition iters_step (own : option nat) (w w' : world) : Prop :=
  (List.length (iters w) <= List.length (iters w'))%nat
  /\ forall id, (id < List.length (iters w))%nat -> own <> Some id ->
       pending id w' = pending id w.

(** A future of a batch, seen from its file: its job is at a stage, or
    has ended as the job of that file ends, or has been handled. *)
Inductive progress :=
  | At (s : stage)
  | Ended
  | Handled.

Definition future_at (E : env) (video_path : str) (a : progress)
  : VideoProcessor.future :=
  match a with
  | At s => VideoProcessor.Running (rest_at E video_path s)
  | Ended => VideoProcessor.Done (job_outcome E video_path)
  | Handled => VideoProcessor.Yielded
  end.

Definition futures_at (E : env) (pool : list (progress * str))
  : list (VideoProcessor.future * str) :=
  List.map (fun ap => (future_at E (snd ap) (fst ap), snd ap)) pool.

(** The line the coordinator prints for a job that raised. *)
Definition error_line (video_path : str) (e : exn) : str :=
  lit "An unexpected error occurred while processing '"
  ++ VideoProcessor._get_filename video_path ++ lit "': " ++ exn_msg e.

(** What the events [body] of a batch and the state [w] hold for the
    future numbered [i]: a job under way ends as the job of its file
    does, and its subprocess was started unless it is at its first call;
    a job that ended started its subprocess; a future that was handled
    was handled after its subprocess, with the outcome of the job of its
    file, and its error line follows if the job raised. *)
Definition future_ok (E : env) (body : list event) (w : world) (i : nat)
  (ap : progress * str) : Prop :=
  let video_path := snd ap in
  match fst ap with
  | At s =>
      stage_outcome E video_path s w = job_outcome E video_path
      /\ (forall id, owned s = Some id -> (id < List.length (iters w))%nat)
      /\ (s = Extracting
          \/ In (EvSubprocess (VideoProcessor.ffmpeg_cmd video_path)) body)
  | Ended => In (EvSubprocess (VideoProcessor.ffmpeg_cmd video_path)) body
  | Handled =>
      exists before after,
        body = before ++ EvJobEnd i (raised (job_outcome E video_path)) :: after
        /\ In (EvSubprocess (VideoProcessor.ffmpeg_cmd video_path)) before
        /\ forall e, job_outcome E video_path = Raise e ->
                     In (EvPrint (error_line video_path e)) after
  end.

(** The invariant of a pool whose batch began with the trace [t0]. *)
Definition pool_ok (E : env) (t0 : list event) (pool : list (progress * str))
  (w : world) : Prop :=
  model w = true
  /\ (exists body,
        trace w = t0 ++ body
        /\ forall i ap, nth_error pool i = Some ap -> future_ok E body w i ap)
  /\ forall i j si sj pi pj id,
       i <> j ->
       nth_error pool i = Some (At si, pi) ->
       nth_error pool j = Some (At sj, pj) ->
       owned si = Some id -> owned sj <> Some id.

(** ** Sample inputs *)

Module Sample.

(** A process that has done nothing yet. *)
Definition initial : world := mkWorld [] [] [] false [].

(** Decoded audio of two samples, [0] and [-32768]. *)
Definition pcm : list Byte.byte := [Byte.x00; Byte.x00; Byte.x00; Byte.x80].

(** A source directory with three videos and a text file: [bad.mov]
    cannot be decoded, [talk.mkv] decodes to no audio at all, on which
    the model raises; every other audio is transcribed to the scenario
    of the specification. *)
Definition E : env :=
  mkEnv (Ok tt) (fun _ => Ok tt) (fun _ => true)
    (fun _ => [lit "clip.mp4"; lit "notes.txt"; lit "bad.mov"; lit "talk.mkv"])
    (fun _ => Ok tt)
    (fun cmd =>
       if PyStr.eqb (nth 3 cmd []) (lit "video_src/bad.mov")
       then CalledProcessError []
       else if PyStr.eqb (nth 3 cmd []) (lit "video_src/talk.mkv")
       then Completed []
       else Completed pcm)
    (fun _ => Ok (lit "moov atom not found"))
    (fun audio _ =>
       match audio with
       | [] => Raise (mkExn OtherException (lit "cannot reshape tensor of 0 elements"))
       | _ => Ok (SegList Format.scenario)
       end)
    (fun _ => true)
    (fun path =>
       mkExn OSError (lit "[Errno 13] Permission denied: '" ++ path ++ lit "'")).

(** The same, the model handing out a one-shot iterator. *)
Definition E_iter : env :=
  mkEnv (add_paths E) (makedirs E) (isdir E) (listdir E) (load_model E)
    (subprocess_run E) (decode E)
    (fun audio _ =>
       match audio with
       | [] => Raise (mkExn OtherException (lit "cannot reshape tensor of 0 elements"))
       | _ => Ok (SegIter Format.scenario)
       end)
    (openable E) (open_error E).

End Sample.

(** * Properties *)

Import SubtitleGenerator Format.

(** ** Strings *)

Lemma str_eqb_eq (a b : str) : PyStr.eqb a b = true <-> a = b.
Proof.
  revert b; induction a as [|x a IH]; intros [|y b]; simpl; try easy.
  rewrite andb_true_iff, N.eqb_eq, IH. split.
  - intros [-> ->]; reflexivity.
  - intros H; injection H; auto.
Qed.

Lemma str_eqb_refl (a : str) : PyStr.eqb a a = true.
Proof. apply str_eqb_eq; reflexivity. Qed.

Lemma uint_codes_digits (u : Decimal.uint) :
  Forall is_digit (uint_codes u).
Proof.
  induction u; simpl; constructor; auto; unfold is_digit; lia.
Qed.

Lemma repeat_zero_digits (n : nat) : Forall is_digit (repeat 48%N n).
Proof.
  induction n; simpl; constructor; auto; unfold is_digit; lia.
Qed.

Lemma format_0d_nonneg_digits (w : nat) (z : Z) :
  0 <= z -> Forall is_digit (format_0d w z).
Proof.
  intros Hz. unfold format_0d.
  destruct (Z.ltb_spec z 0); [lia|].
  apply Forall_app; split; [apply repeat_zero_digits | apply uint_codes_digits].
Qed.

(** ** The timestamp formatter *)

Lemma decompose_hours_minutes (ms : Z) :
  (ms - ms / 3600000 * 3600000) / 60000 = ms / 60000 mod 60.
Proof.
  pose proof (Z.div_mod ms 3600000 ltac:(lia)) as H1.
  pose proof (Z.mod_pos_bound ms 3600000 ltac:(lia)) as B1.
  pose proof (Z.div_mod ms 60000 ltac:(lia)) as H2.
  pose proof (Z.mod_pos_bound ms 60000 ltac:(lia)) as B2.
  pose proof (Z.div_mod (ms / 60000) 60 ltac:(lia)) as H3.
  pose proof (Z.mod_pos_bound (ms / 60000) 60 ltac:(lia)) as B3.
  pose proof (Z.div_div ms 60000 60 ltac:(lia) ltac:(lia)) as D.
  change (60000 * 60) with 3600000 in D.
  symmetry; apply Z.div_unique with (r := ms mod 60000); lia.
Qed.

Lemma decompose_seconds (ms : Z) :
  (ms - ms / 3600000 * 3600000
   - (ms - ms / 3600000 * 3600000) / 60000 * 60000) / 1000 = ms / 1000 mod 60.
Proof.
  rewrite decompose_hours_minutes.
  pose proof (Z.div_mod ms 3600000 ltac:(lia)) as H1.
  pose proof (Z.div_mod ms 60000 ltac:(lia)) as H2.
  pose proof (Z.mod_pos_bound ms 60000 ltac:(lia)) as B2.
  pose proof (Z.div_mod (ms / 60000) 60 ltac:(lia)) as H3.
  pose proof (Z.div_div ms 60000 60 ltac:(lia) ltac:(lia)) as D.
  change (60000 * 60) with 3600000 in D.
  pose proof (Z.div_mod ms 1000 ltac:(lia)) as H4.
  pose proof (Z.mod_pos_bound ms 1000 ltac:(lia)) as B4.
  pose proof (Z.div_mod (ms / 1000) 60 ltac:(lia)) as H5.
  pose proof (Z.mod_pos_bound (ms / 1000) 60 ltac:(lia)) as B5.
  pose proof (Z.div_div ms 1000 60 ltac:(lia) ltac:(lia)) as D2.
  change (1000 * 60) with 60000 in D2.
  symmetry; apply Z.div_unique with (r := ms mod 1000); lia.
Qed.

Lemma decompose_millis (ms : Z) :
  ms - ms / 3600000 * 3600000
  - (ms - ms / 3600000 * 3600000) / 60000 * 60000
  - (ms - ms / 3600000 * 3600000
     - (ms - ms / 3600000 * 3600000) / 60000 * 60000) / 1000 * 1000
  = ms mod 1000.
Proof.
  rewrite decompose_seconds, decompose_hours_minutes.
  pose proof (Z.div_mod ms 3600000 ltac:(lia)) as H1.
  pose proof (Z.div_mod ms 60000 ltac:(lia)) as H2.
  pose proof (Z.div_mod (ms / 60000) 60 ltac:(lia)) as H3.
  pose proof (Z.div_div ms 60000 60 ltac:(lia) ltac:(lia)) as D.
  change (60000 * 60) with 3600000 in D.
  pose proof (Z.div_mod ms 1000 ltac:(lia)) as H4.
  pose proof (Z.div_mod (ms / 1000) 60 ltac:(lia)) as H5.
  pose proof (Z.div_div ms 1000 60 ltac:(lia) ltac:(lia)) as D2.
  change (1000 * 60) with 60000 in D2.
  lia.
Qed.

(** The formatter refines the layout of the specification: on a seconds
    value it accepts, subtracting the larger units step by step gives the
    fields that division and remainder give. *)
Lemma format_timestamp_layout (seconds : PyFloat.float) (sep : str) :
  valid_time seconds = true ->
  _format_timestamp seconds sep = Ok (hhmmss_mmm sep (millis seconds)).
Proof.
  unfold valid_time, _format_timestamp, millis, hhmmss_mmm.
  intros [Hge Hfin]%andb_true_iff. rewrite Hge. simpl negb. cbv iota.
  destruct (PyFloat.mul seconds (PyFloat.of_int 1000)) as [s| | |s m e] eqn:Em;
    try discriminate; cbn [PyFloat.round].
  - reflexivity.
  - set (ms := if s then _ else _). cbv zeta.
    rewrite decompose_millis, decompose_seconds, decompose_hours_minutes.
    reflexivity.
Qed.

(** Rounding a product to binary64 keeps the sign it is given. *)
Lemma binary_round_aux_sign (sx : bool) (mx ex : Z) (lx : location) s m e :
  binary_round_aux PyFloat.prec PyFloat.emax sx mx ex lx = S754_finite s m e ->
  s = sx.
Proof.
  unfold binary_round_aux.
  destruct (shr_fexp _ _ mx ex lx) as [mrs1 e1].
  destruct (shr_fexp _ _ _ e1 loc_Exact) as [mrs2 e2].
  destruct (shr_m mrs2); try discriminate.
  destruct (e2 <=? _); try discriminate.
  intros H; injection H; auto.
Qed.

Lemma round_half_even_nonneg (m : positive) (e : Z) :
  0 <= PyFloat.round_half_even m e.
Proof.
  unfold PyFloat.round_half_even. destruct e as [|p|p].
  - lia.
  - pose proof (Z.pow_pos_nonneg 2 (Z.pos p)); nia.
  - assert (0 < 2 ^ Z.pos p) by (apply Z.pow_pos_nonneg; lia).
    assert (0 <= Z.pos m / 2 ^ Z.pos p) by (apply Z.div_pos; lia).
    destruct (_ ?= _); [destruct (Z.even _)| |]; lia.
Qed.

(** A seconds value the formatter accepts has a non-negative number of
    milliseconds. *)
Lemma millis_nonneg (seconds : PyFloat.float) :
  valid_time seconds = true -> 0 <= millis seconds.
Proof.
  unfold valid_time, millis. intros [Hge Hfin]%andb_true_iff.
  destruct (PyFloat.mul seconds (PyFloat.of_int 1000)) as [s| | |s m e] eqn:Em;
    try discriminate; cbn [PyFloat.round].
  assert (s = false) as ->.
  { destruct seconds as [s0|s0| |s0 m0 e0]; try discriminate.
    destruct s0; [discriminate|].
    revert Em. unfold PyFloat.mul, PyFloat.of_int.
    change (binary_normalize PyFloat.prec PyFloat.emax 1000 0 false)
      with (S754_finite false 8796093022208000 (-43)).
    cbn [SFmul xorb]. apply binary_round_aux_sign. }
  apply round_half_even_nonneg.
Qed.

(** A property checked on [0 .. n-1] holds on that range. *)
Lemma checked_range (P : Z -> bool) (n : nat) :
  forallb P (List.map Z.of_nat (seq 0 n)) = true ->
  forall z, 0 <= z < Z.of_nat n -> P z = true.
Proof.
  intros H z Hz. rewrite forallb_forall in H. apply H.
  apply in_map_iff. exists (Z.to_nat z). split; [lia|].
  apply in_seq. lia.
Qed.

Lemma format_03d_length (z : Z) :
  0 <= z < 1000 -> List.length (format_0d 3 z) = 3%nat.
Proof.
  intros Hz. apply Nat.eqb_eq.
  apply (checked_range (fun z => Nat.eqb (List.length (format_0d 3 z)) 3) 1000);
    [vm_compute; reflexivity | lia].
Qed.

Lemma format_02d_length (z : Z) :
  0 <= z < 60 -> List.length (format_0d 2 z) = 2%nat.
Proof.
  intros Hz. apply Nat.eqb_eq.
  apply (checked_range (fun z => Nat.eqb (List.length (format_0d 2 z)) 2) 60);
    [vm_compute; reflexivity | lia].
Qed.

(** The two parts of a timestamp around its separator. *)
Lemma hhmmss_mmm_parts (sep : str) (ms : Z) :
  0 <= ms ->
  exists pre suf,
    hhmmss_mmm sep ms = pre ++ sep ++ suf
    /\ pre = format_0d 2 (ms / 3600000) ++ lit ":" ++ format_0d 2 (ms / 60000 mod 60)
             ++ lit ":" ++ format_0d 2 (ms / 1000 mod 60)
    /\ suf = format_0d 3 (ms mod 1000)
    /\ List.length suf = 3%nat
    /\ Forall is_digit suf
    /\ Forall (fun c => is_digit c \/ c = 58%N) pre.
Proof.
  intros Hms. eexists; eexists. split; [|split; [reflexivity|split; [reflexivity|]]].
  - unfold hhmmss_mmm. rewrite <- !app_assoc. reflexivity.
  - pose proof (Z.mod_pos_bound ms 1000 ltac:(lia)).
    pose proof (Z.mod_pos_bound (ms / 60000) 60 ltac:(lia)).
    pose proof (Z.mod_pos_bound (ms / 1000) 60 ltac:(lia)).
    assert (0 <= ms / 3600000) by (apply Z.div_pos; lia).
    split; [apply format_03d_length; lia|].
    split; [apply format_0d_nonneg_digits; lia|].
    assert (D : forall w z, 0 <= z ->
                Forall (fun c => is_digit c \/ c = 58%N) (format_0d w z)).
    { intros w z Hz. eapply Forall_impl; [|apply format_0d_nonneg_digits; exact Hz].
      intros c Hc; left; exact Hc. }
    repeat (apply Forall_app; split); try (apply D; lia);
      repeat constructor; right; reflexivity.
Qed.

(** C2: the formatter returns the three values the specification gives as
    examples: ["00:00:00.000"] on 0, ["01:01:01.500"] on 3661.4995 and
    ["00:00:01.000"] on 0.9996 (the floats being the binary64 values of
    these decimal literals). *)
Theorem format_timestamp_examples :
  _format_timestamp (PyFloat.of_int 0) (lit ".") = Ok (lit "00:00:00.000")
  /\ _format_timestamp (PyFloat.decimal 36614995 4) (lit ".") = Ok (lit "01:01:01.500")
  /\ _format_timestamp (PyFloat.decimal 9996 4) (lit ".") = Ok (lit "00:00:01.000").
Proof. repeat split; vm_compute; reflexivity. Qed.

(** The binary64 values of the literals used in the examples, as Python
    prints them with [float.hex]. *)
Lemma literal_values :
  PyFloat.decimal 36614995 4 = S754_finite false 0x1c9affbe76c8b4 (-41)
  /\ PyFloat.decimal 9996 4 = S754_finite false 0x1ffcb923a29c78 (-53)
  /\ PyFloat.decimal 599995 4 = S754_finite false 0x1dffef9db22d0e (-47).
Proof. repeat split; vm_compute; reflexivity. Qed.

(** C3, as the code has it: 59.9995 seconds are rounded to 60000
    milliseconds and the carry reaches the minutes, so the formatter
    returns ["00:01:00.000"]. *)
Theorem format_timestamp_carry_into_minutes :
  millis (PyFloat.decimal 599995 4) = 60000
  /\ _format_timestamp (PyFloat.decimal 599995 4) (lit ".") = Ok (lit "00:01:00.000").
Proof. split; vm_compute; reflexivity. Qed.

(** C3, as the specification words it, fails: the formatter does not
    return ["01:00:00.000"] (one hour) on 59.9995 seconds. *)
Lemma format_timestamp_not_one_hour :
  _format_timestamp (PyFloat.decimal 599995 4) (lit ".") <> Ok (lit "01:00:00.000").
Proof. vm_compute. discriminate. Qed.

(** C5: on every seconds value below zero the formatter fails its
    assertion: it raises [AssertionError], the precondition failure the
    specification calls [InvalidArgument], and returns no string. *)
Theorem format_timestamp_negative (seconds : PyFloat.float) (marker : str) :
  PyFloat.lt0 seconds = true ->
  _format_timestamp seconds marker
    = Raise (mkExn AssertionError (lit "non-negative timestamp expected"))
  /\ forall out, _format_timestamp seconds marker <> Ok out.
Proof.
  intros Hlt.
  assert (E : PyFloat.ge0 seconds = false).
  { destruct seconds as [s|s| |s m e]; try destruct s; try discriminate; reflexivity. }
  unfold _format_timestamp. rewrite E. simpl. split; [reflexivity|discriminate].
Qed.

Lemma format_timestamp_negative_witness :
  PyFloat.lt0 (PyFloat.decimal (-15) 1) = true
  /\ _format_timestamp (PyFloat.decimal (-15) 1) (lit ".")
     = Raise (mkExn AssertionError (lit "non-negative timestamp expected")).
Proof.
  split; [reflexivity|].
  apply (format_timestamp_negative (PyFloat.decimal (-15) 1) (lit ".")).
  reflexivity.
Defined.

Lemma nth_error_around {A} (pre suf : list A) (x y : A) (i : nat) :
  i <> List.length pre ->
  nth_error (pre ++ x :: suf) i = nth_error (pre ++ y :: suf) i.
Proof.
  revert i; induction pre as [|p pre IH]; intros [|i] Hi; simpl in *;
    try reflexivity; try lia.
  apply IH; lia.
Qed.

Lemma nth_error_middle {A} (pre suf : list A) (x : A) :
  nth_error (pre ++ x :: suf) (List.length pre) = Some x.
Proof. induction pre; simpl; auto. Qed.

(** C6: on every seconds value the formatter accepts, the ['.'] and [',']
    styles give strings of the same length that agree at every position
    but one, [k], where the first has ['.'] and the second [',']; that
    position is the millisecond separator (three digits follow it, and no
    other position holds a ['.'] or a [',']). *)
Theorem format_timestamp_separator_only (seconds : PyFloat.float) :
  valid_time seconds = true ->
  exists (a b : str) (k : nat),
    _format_timestamp seconds (lit ".") = Ok a
    /\ _format_timestamp seconds (lit ",") = Ok b
    /\ List.length a = List.length b
    /\ nth_error a k = Some 46%N
    /\ nth_error b k = Some 44%N
    /\ (forall i, i <> k -> nth_error a i = nth_error b i)
    /\ (k + 4 = List.length a)%nat
    /\ (forall i c, i <> k -> nth_error a i = Some c -> c <> 46%N /\ c <> 44%N).
Proof.
  intros Hv.
  rewrite !format_timestamp_layout by exact Hv.
  pose proof (millis_nonneg _ Hv) as Hms.
  destruct (hhmmss_mmm_parts (lit ".") _ Hms)
    as (pre & suf & Ea & Hpre & Hsuf & Hlen & Hds & Hdp).
  destruct (hhmmss_mmm_parts (lit ",") _ Hms)
    as (pre' & suf' & Eb & Hpre' & Hsuf' & _).
  subst pre' suf'. rewrite <- Hpre, <- Hsuf in Eb.
  change (lit ".") with [46%N] in Ea. change (lit ",") with [44%N] in Eb.
  simpl app in Ea, Eb.
  exists (pre ++ 46%N :: suf), (pre ++ 44%N :: suf), (List.length pre).
  rewrite <- Ea, <- Eb at 1.
  repeat split.
  - rewrite !length_app; reflexivity.
  - apply nth_error_middle.
  - apply nth_error_middle.
  - intros i Hi. apply nth_error_around; exact Hi.
  - rewrite length_app. simpl. lia.
  - assert (In c (pre ++ suf)) as Hin.
    { destruct (Nat.lt_ge_cases i (List.length pre)) as [Hlt|Hge].
      - rewrite nth_error_app1 in H0 by exact Hlt.
        apply in_or_app; left; eapply nth_error_In; eauto.
      - rewrite nth_error_app2 in H0 by exact Hge.
        destruct (i - List.length pre)%nat eqn:Ei; [lia|]. simpl in H0.
        apply in_or_app; right; eapply nth_error_In; eauto. }
    apply in_app_or in Hin. rewrite Forall_forall in Hds, Hdp.
    destruct Hin as [Hin|Hin];
      [apply Hdp in Hin; destruct Hin as [Hin| ->]; [unfold is_digit in Hin|]
      |apply Hds in Hin; unfold is_digit in Hin]; lia.
  - assert (In c (pre ++ suf)) as Hin.
    { destruct (Nat.lt_ge_cases i (List.length pre)) as [Hlt|Hge].
      - rewrite nth_error_app1 in H0 by exact Hlt.
        apply in_or_app; left; eapply nth_error_In; eauto.
      - rewrite nth_error_app2 in H0 by exact Hge.
        destruct (i - List.length pre)%nat eqn:Ei; [lia|]. simpl in H0.
        apply in_or_app; right; eapply nth_error_In; eauto. }
    apply in_app_or in Hin. rewrite Forall_forall in Hds, Hdp.
    destruct Hin as [Hin|Hin];
      [apply Hdp in Hin; destruct Hin as [Hin| ->]; [unfold is_digit in Hin|]
      |apply Hds in Hin; unfold is_digit in Hin]; lia.
Qed.

Lemma format_timestamp_separator_only_witness :
  valid_time (PyFloat.decimal 36614995 4) = true
  /\ exists a b k,
       _format_timestamp (PyFloat.decimal 36614995 4) (lit ".") = Ok a
       /\ _format_timestamp (PyFloat.decimal 36614995 4) (lit ",") = Ok b
       /\ List.length a = List.length b
       /\ nth_error a k = Some 46%N
       /\ nth_error b k = Some 44%N
       /\ (forall i, i <> k -> nth_error a i = nth_error b i)
       /\ (k + 4 = List.length a)%nat
       /\ (forall i c, i <> k -> nth_error a i = Some c -> c <> 46%N /\ c <> 44%N).
Proof.
  split; [vm_compute; reflexivity|].
  apply (format_timestamp_separator_only (PyFloat.decimal 36614995 4)).
  vm_compute; reflexivity.
Defined.

(** ** Replacing the arrow *)

Section Arrow.

Local Abbreviation R := (replace [45; 45; 62]%N [45; 62]%N).

Lemma startswith_arrow (s : str) :
  startswith [45; 45; 62]%N s = true -> exists r, s = (45 :: 45 :: 62 :: r)%N.
Proof.
  destruct s as [|a [|b [|c r]]]; cbn [startswith]; intros H;
    rewrite ?andb_false_r in H; try discriminate.
  apply andb_true_iff in H as [Ha H]. apply andb_true_iff in H as [Hb H].
  apply andb_true_iff in H as [Hc _].
  apply N.eqb_eq in Ha, Hb, Hc. subst a b c. exists r. reflexivity.
Qed.

(** At an arrow, the arrow is replaced and the scan goes on behind it. *)
Lemma replace_arrow_hit (s : str) :
  R (45 :: 45 :: 62 :: s)%N = (45 :: 62 :: R s)%N.
Proof. reflexivity. Qed.

(** Elsewhere, the character is kept. *)
Lemma replace_arrow_miss (c : N) (s : str) :
  startswith [45; 45; 62]%N (c :: s) = false ->
  R (c :: s) = c :: R s.
Proof.
  intros H. unfold R, replace. cbn [replace_from]. rewrite H. reflexivity.
Qed.

(** A text without arrow is left as it is. *)
Lemma replace_arrow_absent (s : str) :
  contains [45; 45; 62]%N s = false -> R s = s.
Proof.
  induction s as [|c s IH]; [reflexivity|].
  cbn [contains]. intros [H1 H2]%orb_false_iff.
  rewrite replace_arrow_miss by exact H1. rewrite IH by exact H2. reflexivity.
Qed.

(** The result starts with ["->"] only where the text did, behind at
    most one more dash. *)
Lemma replace_arrow_head (s : str) :
  startswith [45; 62]%N (R s) = true ->
  startswith [45; 62]%N s = true \/ startswith [45; 45; 62]%N s = true.
Proof.
  destruct s as [|c s]; [discriminate|].
  destruct (startswith [45; 45; 62]%N (c :: s)) eqn:E; [auto|].
  rewrite replace_arrow_miss by exact E.
  destruct s as [|d s]; [cbn [startswith]; rewrite andb_false_r; discriminate|].
  destruct (startswith [45; 45; 62]%N (d :: s)) eqn:E2.
  - (* the text is [c] and then an arrow *)
    apply startswith_arrow in E2 as [r Er]. rewrite Er.
    rewrite replace_arrow_hit. cbn [startswith]. intros H.
    apply andb_true_iff in H as [_ H]. apply andb_true_iff in H as [H _].
    discriminate.
  - rewrite replace_arrow_miss by exact E2. cbn [startswith]. intros H.
    left. exact H.
Qed.

(** Where the text has no dash, dash, dash, angle, the result has no
    arrow. *)
Lemma replace_arrow_clean (n : nat) (s : str) :
  (List.length s <= n)%nat ->
  contains [45; 45; 45; 62]%N s = false ->
  contains [45; 45; 62]%N (R s) = false.
Proof.
  revert s; induction n as [|n IH]; intros s Hn Hs.
  - destruct s; [reflexivity|simpl in Hn; lia].
  - destruct s as [|c s]; [reflexivity|].
    cbn [contains] in Hs. apply orb_false_iff in Hs as [Hs1 Hs2].
    simpl List.length in Hn.
    destruct (startswith [45; 45; 62]%N (c :: s)) eqn:E.
    + (* an arrow: three characters are consumed *)
      apply startswith_arrow in E as [r Er]. injection Er as -> ->.
      rewrite replace_arrow_hit.
      cbn [contains] in Hs2. apply orb_false_iff in Hs2 as [_ Hs2].
      apply orb_false_iff in Hs2 as [_ Hs2].
      assert (IHs : contains [45; 45; 62]%N (R r) = false)
        by (apply IH; [simpl in Hn; lia | exact Hs2]).
      cbn [contains]. rewrite IHs. reflexivity.
    + rewrite replace_arrow_miss by exact E.
      assert (IHs : contains [45; 45; 62]%N (R s) = false)
        by (apply IH; [lia | exact Hs2]).
      cbn [contains]. rewrite IHs, orb_false_r.
      (* an arrow at the head would need a dash before ["->"] *)
      destruct (startswith [45; 45; 62]%N (c :: R s)) eqn:E3; [|reflexivity].
      exfalso. cbn [startswith] in E3. apply andb_true_iff in E3 as [Hc E3].
      apply N.eqb_eq in Hc. subst c.
      change (startswith [45; 62]%N (R s) = true) in E3.
      apply replace_arrow_head in E3 as [H|H].
      * cbn [startswith] in E. rewrite N.eqb_refl in E.
        cbn [startswith andb] in E, H. congruence.
      * cbn [startswith] in Hs1. rewrite N.eqb_refl in Hs1.
        cbn [startswith andb] in Hs1, H. congruence.
Qed.

End Arrow.

(** C7, as the code has it: on every text without the four characters
    dash, dash, dash, angle, replacing the arrows twice gives what
    replacing them once gives. *)
Theorem replace_arrow_idempotent (t : str) :
  contains (lit "--->") t = false ->
  replace (lit "-->") (lit "->") (replace (lit "-->") (lit "->") t)
  = replace (lit "-->") (lit "->") t.
Proof.
  intros H. apply replace_arrow_absent.
  apply (replace_arrow_clean (List.length t)); [lia | exact H].
Qed.

Lemma replace_arrow_idempotent_witness :
  contains (lit "--->") (lit "a --> b -> c-->d") = false
  /\ replace (lit "-->") (lit "->")
       (replace (lit "-->") (lit "->") (lit "a --> b -> c-->d"))
     = replace (lit "-->") (lit "->") (lit "a --> b -> c-->d").
Proof.
  split; [reflexivity|].
  apply (replace_arrow_idempotent (lit "a --> b -> c-->d")). reflexivity.
Defined.

(** C7, as the specification words it, fails: on ["--->"] one replacement
    gives ["-->"] and a second one gives ["->"]. *)
Lemma replace_arrow_not_idempotent :
  replace (lit "-->") (lit "->") (lit "--->") = lit "-->"
  /\ replace (lit "-->") (lit "->") (replace (lit "-->") (lit "->") (lit "--->"))
     <> replace (lit "-->") (lit "->") (lit "--->").
Proof. split; [reflexivity | vm_compute; discriminate]. Qed.

(** ** Running the monad *)

Arguments lit : simpl never.

Lemma bind_ok {A B} (c : M A) (k : A -> M B) (w w1 : world) (a : A) :
  c w = (Ok a, w1) -> bind c k w = k a w1.
Proof. unfold bind. intros ->. reflexivity. Qed.

Lemma bind_raise {A B} (c : M A) (k : A -> M B) (w w1 : world) (e : exn) :
  c w = (Raise e, w1) -> bind c k w = (Raise e, w1).
Proof. unfold bind. intros ->. reflexivity. Qed.

Section Respects.

Variable rel : world -> world -> Prop.
Hypothesis rel_refl : forall w, rel w w.
Hypothesis rel_trans : forall a b c, rel a b -> rel b c -> rel a c.

Lemma respects_ret {A} (a : A) : respects rel (ret a).
Proof. intros w. apply rel_refl. Qed.

Lemma respects_raise {A} (e : exn) : respects rel (@raise A e).
Proof. intros w. apply rel_refl. Qed.

Lemma respects_lift {A} (r : result A) : respects rel (lift r).
Proof. destruct r; [apply respects_ret | apply respects_raise]. Qed.

Lemma respects_get {A} (f : world -> A) : respects rel (get f).
Proof. intros w. apply rel_refl. Qed.

Lemma respects_bind {A B} (c : M A) (k : A -> M B) :
  respects rel c -> (forall a, respects rel (k a)) -> respects rel (bind c k).
Proof.
  intros Hc Hk w. unfold bind. specialize (Hc w).
  destruct (c w) as [[a|e] w1]; simpl in *; [|exact Hc].
  eapply rel_trans; [exact Hc | apply Hk].
Qed.

Lemma respects_attempt {A} (c : M A) :
  respects rel c -> respects rel (VideoProcessor.attempt c).
Proof.
  intros Hc w. unfold VideoProcessor.attempt. specialize (Hc w).
  destruct (c w); exact Hc.
Qed.

End Respects.

Lemma quiet_refl w : quiet_step w w.
Proof. repeat split. Qed.

Lemma quiet_trans a b c : quiet_step a b -> quiet_step b c -> quiet_step a c.
Proof. unfold quiet_step. intros (?&?&?) (?&?&?). repeat split; congruence. Qed.

Lemma filters_refl w : filters_step w w.
Proof. reflexivity. Qed.

Lemma filters_trans a b c : filters_step a b -> filters_step b c -> filters_step a c.
Proof. unfold filters_step. congruence. Qed.

Lemma job_refl w : job_step w w.
Proof. split; [reflexivity|]. exists []. rewrite app_nil_r. auto. Qed.

Lemma job_trans a b c : job_step a b -> job_step b c -> job_step a c.
Proof.
  intros (M1 & n1 & E1 & F1) (M2 & n2 & E2 & F2). split; [congruence|].
  exists (n1 ++ n2).
  rewrite E2, E1, app_assoc. split; [reflexivity | apply Forall_app; auto].
Qed.

Lemma quiet_job w w' : quiet_step w w' -> job_step w w'.
Proof.
  intros (_ & Em & E). split; [exact Em|]. exists []. rewrite app_nil_r. auto.
Qed.

Lemma quiet_filters w w' : quiet_step w w' -> filters_step w w'.
Proof. intros (E & _). exact E. Qed.

Lemma respects_weaken (r1 r2 : world -> world -> Prop) {A} (c : M A) :
  (forall w w', r1 w w' -> r2 w w') -> respects r1 c -> respects r2 c.
Proof. intros H Hc w. apply H, Hc. Qed.

(** ** Text that can be written *)

Lemma find_surrogate_none (s : str) :
  forall i, encodable s = true -> Utf8.find_surrogate i s = None.
Proof.
  unfold encodable. induction s as [|c s IH]; intros i H; [reflexivity|].
  cbn [existsb Utf8.find_surrogate] in *.
  destruct (Utf8.is_surrogate c); [discriminate|]. apply IH. exact H.
Qed.

Lemma find_surrogate_some (s : str) :
  forall i, encodable s = false -> exists r, Utf8.find_surrogate i s = Some r.
Proof.
  unfold encodable. induction s as [|c s IH]; intros i H; [discriminate|].
  cbn [existsb Utf8.find_surrogate] in *.
  destruct (Utf8.is_surrogate c); [eexists; reflexivity|]. apply IH. exact H.
Qed.

(** A text is written when it holds no surrogate, and refused with
    [UnicodeEncodeError] when it holds one. *)
Lemma encode_error_encodable (s : str) :
  encodable s = true -> Utf8.encode_error s = None.
Proof.
  intros H. unfold Utf8.encode_error. rewrite find_surrogate_none by exact H.
  reflexivity.
Qed.

Lemma encode_error_surrogate (s : str) :
  encodable s = false ->
  exists e, Utf8.encode_error s = Some e /\ exn_cls e = UnicodeEncodeError.
Proof.
  intros H. unfold Utf8.encode_error.
  destruct (find_surrogate_some s 0%N H) as ([[i n] c] & ->).
  eexists. split; reflexivity.
Qed.

(** The messages are those of CPython: a single surrogate is shown with
    its position, a run of surrogates with the positions of its first and
    last. *)
Lemma encode_error_examples :
  Utf8.encode_error (lit "a" ++ [55296%N] ++ lit "b")
  = Some (mkExn UnicodeEncodeError
            (lit "'utf-8' codec can't encode character '\ud800' in position 1: surrogates not allowed"))
  /\ Utf8.encode_error (lit "ab" ++ [57343%N] ++ lit "c" ++ [55296%N])
     = Some (mkExn UnicodeEncodeError
               (lit "'utf-8' codec can't encode character '\udfff' in position 2: surrogates not allowed"))
  /\ Utf8.encode_error (lit "0123456789ab" ++ [55296; 56320; 57343]%N ++ lit "x")
     = Some (mkExn UnicodeEncodeError
               (lit "'utf-8' codec can't encode characters in position 12-14: surrogates not allowed"))
  /\ Utf8.encode_error (lit "WEBVTT" ++ nl ++ nl) = None.
Proof. repeat split. Qed.

Lemma encodable_app (a b : str) : encodable (a ++ b) = encodable a && encodable b.
Proof. unfold encodable. rewrite existsb_app, negb_orb. reflexivity. Qed.

Lemma encodable_rev (s : str) : encodable (rev s) = encodable s.
Proof.
  induction s as [|c s IH]; [reflexivity|].
  cbn [rev]. rewrite encodable_app, IH.
  change (c :: s) with ([c] ++ s). rewrite encodable_app. apply andb_comm.
Qed.

Lemma encodable_uint_codes (u : Decimal.uint) : encodable (uint_codes u) = true.
Proof. induction u; [reflexivity | exact IHu ..]. Qed.

Lemma encodable_zeros (n : nat) : encodable (repeat 48%N n) = true.
Proof. induction n; [reflexivity | exact IHn]. Qed.

Lemma encodable_format_0d (width : nat) (z : Z) : encodable (format_0d width z) = true.
Proof.
  unfold format_0d, digits. destruct (z <? 0).
  - change (45%N :: ?l) with ([45%N] ++ l).
    rewrite !encodable_app, encodable_zeros, encodable_uint_codes. reflexivity.
  - rewrite encodable_app, encodable_zeros, encodable_uint_codes. reflexivity.
Qed.

Lemma encodable_hhmmss_mmm (sep : str) (ms : Z) :
  encodable sep = true -> encodable (hhmmss_mmm sep ms) = true.
Proof.
  intros H. unfold hhmmss_mmm.
  rewrite !encodable_app, !encodable_format_0d, H. reflexivity.
Qed.

Lemma isspace_not_surrogate (c : N) :
  isspace c = true -> Utf8.is_surrogate c = false.
Proof.
  unfold isspace, Utf8.is_surrogate. intros H.
  destruct (N.leb_spec 55296 c) as [Hc|]; [|reflexivity].
  rewrite !orb_true_iff, !andb_true_iff, !N.leb_le, !N.eqb_eq in H. lia.
Qed.

Lemma encodable_lstrip (s : str) : encodable (lstrip s) = encodable s.
Proof.
  induction s as [|c s IH]; [reflexivity|].
  cbn [lstrip]. destruct (isspace c) eqn:Hc; [|reflexivity].
  rewrite IH. unfold encodable. cbn [existsb].
  rewrite (isspace_not_surrogate c Hc). reflexivity.
Qed.

Lemma encodable_strip (s : str) : encodable (strip s) = encodable s.
Proof.
  unfold strip, rstrip.
  rewrite encodable_rev, encodable_lstrip, encodable_rev. apply encodable_lstrip.
Qed.

Lemma encodable_replace_arrow (n : nat) (s : str) :
  (List.length s <= n)%nat ->
  encodable (replace (lit "-->") (lit "->") s) = encodable s.
Proof.
  change (lit "-->") with [45; 45; 62]%N. change (lit "->") with [45; 62]%N.
  revert s; induction n as [|n IH]; intros s Hn.
  - destruct s; [reflexivity | simpl in Hn; lia].
  - destruct s as [|c s]; [reflexivity|]. simpl List.length in Hn.
    destruct (startswith [45; 45; 62]%N (c :: s)) eqn:E.
    + apply startswith_arrow in E as [r Er]. injection Er as -> ->.
      rewrite replace_arrow_hit.
      change (encodable (replace [45; 45; 62]%N [45; 62]%N r) = encodable r).
      apply IH. simpl in Hn. lia.
    + rewrite replace_arrow_miss by exact E.
      change (encodable ([c] ++ replace [45; 45; 62]%N [45; 62]%N s)
              = encodable ([c] ++ s)).
      rewrite !encodable_app, IH by lia. reflexivity.
Qed.

(** The emitted text can be written exactly when the text of the segment
    can. *)
Lemma encodable_sanitize (t : str) : encodable (sanitize t) = encodable t.
Proof.
  unfold sanitize.
  rewrite (encodable_replace_arrow (List.length (strip t))) by lia.
  apply encodable_strip.
Qed.

(** ** Files and loops *)

Lemma f_write_run (path s : str) (w : world) :
  encodable s = true ->
  f_write path s w = (Ok tt, with_files (write_one path s (files w)) w).
Proof.
  intros H. unfold f_write. rewrite (encode_error_encodable s H).
  unfold bind, get, write_one.
  destruct (read_file path (files w)); reflexivity.
Qed.

Lemma f_write_refused (path s : str) (w : world) :
  encodable s = false ->
  exists e,
    f_write path s w = (Raise e, w) /\ exn_cls e = UnicodeEncodeError.
Proof.
  intros H. destruct (encode_error_surrogate s H) as (e & He & Hc).
  exists e. unfold f_write. rewrite He. auto.
Qed.

Lemma open_w_run (E : env) (path : str) (w : world) :
  openable E path = true ->
  open_w E path w = (Ok tt, with_files ((path, []) :: files w) w).
Proof. unfold open_w. intros ->. reflexivity. Qed.

Lemma read_write_one (path s : str) (fs : list (str * str)) (c : str) :
  read_file path fs = Some c ->
  read_file path (write_one path s fs) = Some (c ++ s).
Proof.
  intros H. unfold write_one. rewrite H. simpl. rewrite str_eqb_refl. reflexivity.
Qed.

Lemma read_write_blocks (path : str) (blk : Z -> segment -> str)
  (segs : list segment) :
  forall (i : Z) (fs : list (str * str)) (c : str),
    read_file path fs = Some c ->
    read_file path (write_blocks path blk i segs fs) = Some (c ++ blocks blk i segs).
Proof.
  induction segs as [|s rest IH]; intros i fs c H; simpl.
  - rewrite app_nil_r. exact H.
  - rewrite (IH _ _ (c ++ blk i s)) by (apply read_write_one; exact H).
    rewrite app_assoc. reflexivity.
Qed.

Lemma vtt_blocks_concat (segs : list segment) (i : Z) :
  blocks vtt_block i segs = List.concat (List.map (cue (lit ".")) segs).
Proof.
  revert i; induction segs as [|s rest IH]; intros i; simpl; [reflexivity|].
  rewrite IH. reflexivity.
Qed.

Lemma srt_blocks_eq (segs : list segment) (i : Z) :
  blocks srt_block i segs = srt_blocks i segs.
Proof.
  revert i; induction segs as [|s rest IH]; intros i; simpl; [reflexivity|].
  rewrite IH. unfold srt_block. rewrite <- !app_assoc. reflexivity.
Qed.

Lemma quiet_f_write (path s : str) : respects quiet_step (f_write path s).
Proof.
  intros w. unfold f_write. destruct (Utf8.encode_error s); [repeat split|].
  unfold bind, get. destruct (read_file path (files w)); repeat split.
Qed.

Lemma quiet_open_w (E : env) (path : str) : respects quiet_step (open_w E path).
Proof.
  intros w. unfold open_w. destruct (openable E path); repeat split.
Qed.

Lemma quiet_set_pending (id : nat) (items : list segment) :
  respects quiet_step (set_pending id items).
Proof. intros w. repeat split. Qed.

Lemma quiet_for_list (body : Z -> segment -> M unit) :
  (forall i s, respects quiet_step (body i s)) ->
  forall l i, respects quiet_step (for_list body i l).
Proof.
  intros Hb l; induction l as [|x l IH]; intros i; simpl.
  - apply respects_ret, quiet_refl.
  - apply respects_bind; [apply quiet_trans | apply Hb | intros _; apply IH].
Qed.

Lemma quiet_for_iter (body : Z -> segment -> M unit) (id : nat) :
  (forall i s, respects quiet_step (body i s)) ->
  forall l i, respects quiet_step (for_iter body id i l).
Proof.
  intros Hb l; induction l as [|x l IH]; intros i; simpl.
  - apply respects_ret, quiet_refl.
  - apply respects_bind; [apply quiet_trans | apply quiet_set_pending | intros _].
    apply respects_bind; [apply quiet_trans | apply Hb | intros _; apply IH].
Qed.

Lemma quiet_for_enumerate (body : Z -> segment -> M unit) (i0 : Z) (t : iterable) :
  (forall i s, respects quiet_step (body i s)) ->
  respects quiet_step (for_enumerate body i0 t).
Proof.
  intros Hb. destruct t as [l|id]; simpl.
  - apply quiet_for_list; exact Hb.
  - apply respects_bind; [apply quiet_trans | apply respects_get, quiet_refl |].
    intros todo. apply quiet_for_iter; exact Hb.
Qed.

Ltac quiet :=
  repeat first
    [ apply quiet_f_write
    | apply quiet_open_w
    | apply respects_lift; [apply quiet_refl]
    | apply respects_ret; [apply quiet_refl]
    | apply respects_bind; [apply quiet_trans | | intros ? ]
    | apply quiet_for_enumerate; intros ? ? ].

(** The writers touch nothing but files and iterators, however they
    end. *)
Lemma quiet_write_vtt (E : env) (self : SubtitleGenerator.t) (path : str) :
  respects quiet_step (write_vtt E self path).
Proof. unfold write_vtt, for_in. quiet. Qed.

Lemma quiet_write_srt (E : env) (self : SubtitleGenerator.t) (path : str) :
  respects quiet_step (write_srt E self path).
Proof. unfold write_srt. quiet. Qed.

Section Loops.

Variable path : str.
Variable blk : Z -> segment -> str.
Variable body : Z -> segment -> M unit.

(** The body writes the block of its item and does nothing else. *)
Hypothesis body_run : forall i s w,
  valid_segment s = true ->
  body i s w = (Ok tt, with_files (write_one path (blk i s) (files w)) w).

Lemma for_list_run (segs : list segment) :
  forall i w,
    forallb valid_segment segs = true ->
    exists w',
      for_list body i segs w = (Ok tt, w')
      /\ files w' = write_blocks path blk i segs (files w)
      /\ iters w' = iters w
      /\ quiet_step w w'.
Proof.
  induction segs as [|s rest IH]; intros i w Hv; simpl in *.
  - exists w. repeat split.
  - apply andb_true_iff in Hv as [Hs Hr].
    destruct (IH (i + 1) (with_files (write_one path (blk i s) (files w)) w) Hr)
      as (w' & Erun & Ef & Ei & Eq).
    exists w'. split; [|split; [exact Ef | split; [exact Ei | exact Eq]]].
    erewrite bind_ok by (apply body_run; exact Hs). exact Erun.
Qed.

Lemma pending_set (id : nat) (items : list segment) (w : world) :
  (id < List.length (iters w))%nat ->
  pending id (snd (set_pending id items w)) = items.
Proof.
  unfold pending, set_pending, bind, get, set_iters. simpl.
  generalize (iters w). intros l; revert id.
  induction l as [|x l IH]; intros [|id] H; simpl in *; try lia; auto.
  apply IH; lia.
Qed.

Lemma length_update_nth {A} (n : nat) (a : A) (l : list A) :
  List.length (update_nth n a l) = List.length l.
Proof.
  revert n; induction l as [|x l IH]; intros [|n]; simpl; auto.
Qed.

(** A loop over a one-shot iterator writes the block of every pending
    item and leaves the iterator exhausted. *)
Lemma for_iter_run (id : nat) (todo : list segment) :
  forall i w,
    pending id w = todo ->
    forallb valid_segment todo = true ->
    exists w',
      for_iter body id i todo w = (Ok tt, w')
      /\ files w' = write_blocks path blk i todo (files w)
      /\ pending id w' = []
      /\ List.length (iters w') = List.length (iters w)
      /\ quiet_step w w'.
Proof.
  induction todo as [|s rest IH]; intros i w Hp Hv; simpl in *.
  - exists w. repeat split. exact Hp.
  - apply andb_true_iff in Hv as [Hs Hr].
    assert (Hid : (id < List.length (iters w))%nat).
    { destruct (Nat.lt_ge_cases id (List.length (iters w))) as [H|H]; [exact H|].
      unfold pending in Hp. rewrite nth_overflow in Hp by exact H. discriminate. }
    pose proof (pending_set id rest w Hid) as Hp1.
    set (w1 := snd (set_pending id rest w)) in *.
    assert (E1 : set_pending id rest w = (Ok tt, w1)) by reflexivity.
    set (w2 := with_files (write_one path (blk i s) (files w1)) w1).
    destruct (IH (i + 1) w2 Hp1 Hr) as (w' & Erun & Ef & Ep & El & Eq).
    exists w'. split; [|split; [exact Ef | split; [exact Ep | split]]].
    + rewrite (bind_ok _ _ _ _ _ E1).
      erewrite bind_ok by (apply body_run; exact Hs). exact Erun.
    + rewrite El. subst w2 w1. simpl. apply length_update_nth.
    + eapply quiet_trans; [|exact Eq]. repeat split.
Qed.

End Loops.

Lemma for_enumerate_run (path : str) (blk : Z -> segment -> str)
  (body : Z -> segment -> M unit) (i0 : Z) (t : iterable) (w : world) :
  (forall i s w, valid_segment s = true ->
     body i s w = (Ok tt, with_files (write_one path (blk i s) (files w)) w)) ->
  forallb valid_segment (items_of t w) = true ->
  exists w',
    for_enumerate body i0 t w = (Ok tt, w')
    /\ files w' = write_blocks path blk i0 (items_of t w) (files w)
    /\ items_of t w' = items_left t
    /\ quiet_step w w'.
Proof.
  intros Hb Hv. destruct t as [l|id]; simpl in *.
  - destruct (for_list_run path blk body Hb l i0 w Hv) as (w' & Er & Ef & _ & Eq).
    exists w'. auto.
  - destruct (for_iter_run path blk body Hb id (pending id w) i0 w eq_refl Hv)
      as (w' & Er & Ef & Ep & _ & Eq).
    exists w'. auto.
Qed.

Lemma vtt_body_run (path : str) (i : Z) (s : segment) (w : world) :
  valid_segment s = true ->
  (start <- lift (_format_timestamp (start s) (lit ".")) ;;
   end_ <- lift (_format_timestamp (end_ s) (lit ".")) ;;
   let text := sanitize (text s) in
   f_write path (start ++ lit " --> " ++ end_ ++ nl ++ text ++ nl ++ nl)) w
  = (Ok tt, with_files (write_one path (vtt_block i s) (files w)) w).
Proof.
  intros [[H1 H2]%andb_true_iff H3]%andb_true_iff.
  rewrite !format_timestamp_layout by assumption.
  unfold bind, lift, ret. rewrite f_write_run; [reflexivity|].
  rewrite !encodable_app, !encodable_hhmmss_mmm, encodable_sanitize, H3 by reflexivity.
  reflexivity.
Qed.

Lemma srt_body_run (path : str) (i : Z) (s : segment) (w : world) :
  valid_segment s = true ->
  (start <- lift (_format_timestamp (start s) (lit ",")) ;;
   end_ <- lift (_format_timestamp (end_ s) (lit ",")) ;;
   let text := sanitize (text s) in
   f_write path (str_of_int i ++ nl ++ start ++ lit " --> " ++ end_ ++ nl
                 ++ text ++ nl ++ nl)) w
  = (Ok tt, with_files (write_one path (srt_block i s) (files w)) w).
Proof.
  intros [[H1 H2]%andb_true_iff H3]%andb_true_iff.
  rewrite !format_timestamp_layout by assumption.
  unfold bind, lift, ret. rewrite f_write_run; [reflexivity|].
  unfold str_of_int.
  rewrite !encodable_app, !encodable_hhmmss_mmm, encodable_format_0d,
    encodable_sanitize, H3 by reflexivity.
  reflexivity.
Qed.

(** What [write_vtt] does when every item it is given is valid (times
    the formatter accepts, a text the file accepts): it returns, the file
    holds the header and one cue per item, and a one-shot iterator is left
    exhausted. *)
Lemma write_vtt_run (E : env) (t : iterable) (path : str) (w : world) :
  openable E path = true ->
  forallb valid_segment (items_of t w) = true ->
  exists w',
    write_vtt E (__init__ t) path w = (Ok tt, w')
    /\ read_file path (files w') = Some (vtt_content (items_of t w))
    /\ items_of t w' = items_left t
    /\ quiet_step w w'.
Proof.
  intros Ho Hv. unfold write_vtt, for_in, __init__, transcript.
  rewrite (bind_ok _ _ _ _ _ (open_w_run E path w Ho)).
  rewrite (bind_ok _ _ _ _ _ (f_write_run path (lit "WEBVTT" ++ nl ++ nl) _ eq_refl)).
  set (w0 := with_files _ (with_files _ w)).
  assert (Hi : items_of t w0 = items_of t w) by (destruct t; reflexivity).
  destruct (for_enumerate_run path vtt_block
              (fun _ segment =>
                 start <- lift (_format_timestamp (start segment) (lit ".")) ;;
                 end_ <- lift (_format_timestamp (end_ segment) (lit ".")) ;;
                 let text := sanitize (text segment) in
                 f_write path (start ++ lit " --> " ++ end_ ++ nl ++ text ++ nl ++ nl))
              0 t w0) as (w' & Er & Ef & El & Eq).
  { intros i s w1. apply vtt_body_run. }
  { rewrite Hi. exact Hv. }
  exists w'. split; [exact Er|]. split; [|split; [exact El|]].
  - rewrite Ef, Hi.
    rewrite (read_write_blocks path vtt_block _ 0 _ (lit "WEBVTT" ++ nl ++ nl)).
    + rewrite vtt_blocks_concat. unfold vtt_content.
      rewrite <- !app_assoc. reflexivity.
    + subst w0. simpl. unfold write_one. simpl. rewrite str_eqb_refl.
      simpl. rewrite str_eqb_refl. reflexivity.
  - eapply quiet_trans; [|exact Eq]. repeat split.
Qed.

Lemma write_srt_run (E : env) (t : iterable) (path : str) (w : world) :
  openable E path = true ->
  forallb valid_segment (items_of t w) = true ->
  exists w',
    write_srt E (__init__ t) path w = (Ok tt, w')
    /\ read_file path (files w') = Some (srt_content (items_of t w))
    /\ items_of t w' = items_left t
    /\ quiet_step w w'.
Proof.
  intros Ho Hv. unfold write_srt, __init__, transcript.
  rewrite (bind_ok _ _ _ _ _ (open_w_run E path w Ho)).
  set (w0 := with_files _ w).
  assert (Hi : items_of t w0 = items_of t w) by (destruct t; reflexivity).
  destruct (for_enumerate_run path srt_block
              (fun i segment =>
                 start <- lift (_format_timestamp (start segment) (lit ",")) ;;
                 end_ <- lift (_format_timestamp (end_ segment) (lit ",")) ;;
                 let text := sanitize (text segment) in
                 f_write path (str_of_int i ++ nl ++ start ++ lit " --> " ++ end_ ++ nl
                               ++ text ++ nl ++ nl))
              1 t w0) as (w' & Er & Ef & El & Eq).
  { intros i s w1. apply srt_body_run. }
  { rewrite Hi. exact Hv. }
  exists w'. split; [exact Er|]. split; [|split; [exact El|]].
  - rewrite Ef, Hi.
    rewrite (read_write_blocks path srt_block _ 1 _ []).
    + rewrite srt_blocks_eq. reflexivity.
    + subst w0. simpl. rewrite str_eqb_refl. reflexivity.
  - eapply quiet_trans; [|exact Eq]. repeat split.
Qed.

(** ** The subtitle writer *)

(** C1: for every transcript given as a list of valid segments (times
    that can be formatted, and texts that can be written to the UTF-8
    file, that is without surrogate code point), [write_vtt] leaves in
    its file exactly ["WEBVTT\n\n"] and then, per segment in order,
    [<start> --> <end>\n<text>\n\n] with ['.'] before the milliseconds
    and no number, and [write_srt] leaves exactly, per segment in order,
    [<i>\n<start> --> <end>\n<text>\n\n] with [','] and [i] counting
    from 1 ([<text>] being the text as it is emitted, stripped and with
    its arrows replaced); on the two segments of the scenario the files
    hold the strings of the specification, code point for code point (all
    of them ASCII, so byte for byte).  On a segment that is not valid the
    writers raise and leave a truncated file. *)
Theorem write_list_contents (E : env) (segs : list segment) (w : world)
  (vtt_path srt_path : str) :
  forallb valid_segment segs = true ->
  openable E vtt_path = true ->
  openable E srt_path = true ->
  (exists w1,
      write_vtt E (__init__ (ListObj segs)) vtt_path w = (Ok tt, w1)
      /\ read_file vtt_path (files w1) = Some (vtt_content segs))
  /\ (exists w2,
         write_srt E (__init__ (ListObj segs)) srt_path w = (Ok tt, w2)
         /\ read_file srt_path (files w2) = Some (srt_content segs))
  /\ (exists w1,
         write_vtt E (__init__ (ListObj scenario)) vtt_path w = (Ok tt, w1)
         /\ read_file vtt_path (files w1) = Some scenario_vtt)
  /\ (exists w2,
         write_srt E (__init__ (ListObj scenario)) srt_path w = (Ok tt, w2)
         /\ read_file srt_path (files w2) = Some scenario_srt).
Proof.
  intros Hv Hvtt Hsrt.
  assert (Hs : forallb valid_segment scenario = true) by (vm_compute; reflexivity).
  assert (Evtt : vtt_content scenario = scenario_vtt) by (vm_compute; reflexivity).
  assert (Esrt : srt_content scenario = scenario_srt) by (vm_compute; reflexivity).
  repeat split.
  - destruct (write_vtt_run E (ListObj segs) vtt_path w Hvtt Hv) as (w1 & Er & Ef & _).
    exists w1. auto.
  - destruct (write_srt_run E (ListObj segs) srt_path w Hsrt Hv) as (w2 & Er & Ef & _).
    exists w2. auto.
  - destruct (write_vtt_run E (ListObj scenario) vtt_path w Hvtt Hs) as (w1 & Er & Ef & _).
    exists w1. rewrite <- Evtt. auto.
  - destruct (write_srt_run E (ListObj scenario) srt_path w Hsrt Hs) as (w2 & Er & Ef & _).
    exists w2. rewrite <- Esrt. auto.
Qed.

Lemma write_list_contents_witness :
  read_file (lit "result/clip.vtt")
    (files (snd (write_vtt Sample.E (__init__ (ListObj scenario))
                   (lit "result/clip.vtt") Sample.initial)))
  = Some scenario_vtt
  /\ read_file (lit "result/clip.srt")
       (files (snd (write_srt Sample.E (__init__ (ListObj scenario))
                      (lit "result/clip.srt") Sample.initial)))
     = Some scenario_srt.
Proof.
  destruct (write_list_contents Sample.E scenario Sample.initial
              (lit "result/clip.vtt") (lit "result/clip.srt"))
    as (_ & _ & (w1 & E1 & F1) & (w2 & E2 & F2));
    [vm_compute; reflexivity | reflexivity | reflexivity |].
  rewrite E1, E2. split; assumption.
Defined.

(** C10: the writer keeps the object it was given and each format loops
    over that object.  Given a one-shot iterator with the valid segments
    [segs] pending (times that can be formatted, texts that can be
    written to the UTF-8 file), [write_vtt] writes all of [segs] and
    [write_srt], run next on the same generator, finds nothing and leaves
    an empty file; given a list, both files hold all of [segs]. *)
Theorem one_shot_transcript_drained (E : env) (id : nat) (segs : list segment)
  (w : world) (vtt_path srt_path : str) :
  forallb valid_segment segs = true ->
  openable E vtt_path = true ->
  openable E srt_path = true ->
  pending id w = segs ->
  (exists w1 w2,
      write_vtt E (__init__ (IterRef id)) vtt_path w = (Ok tt, w1)
      /\ write_srt E (__init__ (IterRef id)) srt_path w1 = (Ok tt, w2)
      /\ read_file vtt_path (files w1) = Some (vtt_content segs)
      /\ read_file srt_path (files w2) = Some []
      /\ pending id w1 = [])
  /\ (exists w1 w2,
         write_vtt E (__init__ (ListObj segs)) vtt_path w = (Ok tt, w1)
         /\ write_srt E (__init__ (ListObj segs)) srt_path w1 = (Ok tt, w2)
         /\ read_file vtt_path (files w1) = Some (vtt_content segs)
         /\ read_file srt_path (files w2) = Some (srt_content segs)).
Proof.
  intros Hv Hvtt Hsrt Hp. split.
  - destruct (write_vtt_run E (IterRef id) vtt_path w Hvtt) as (w1 & E1 & F1 & L1 & _).
    { simpl. rewrite Hp. exact Hv. }
    simpl in F1, L1. rewrite Hp in F1.
    destruct (write_srt_run E (IterRef id) srt_path w1 Hsrt) as (w2 & E2 & F2 & _).
    { simpl. rewrite L1. reflexivity. }
    simpl in F2. rewrite L1 in F2.
    exists w1, w2. auto.
  - destruct (write_vtt_run E (ListObj segs) vtt_path w Hvtt Hv) as (w1 & E1 & F1 & _).
    destruct (write_srt_run E (ListObj segs) srt_path w1 Hsrt Hv) as (w2 & E2 & F2 & _).
    exists w1, w2. auto.
Qed.

Lemma one_shot_transcript_drained_witness :
  let w := mkWorld [] [] [scenario] true [] in
  let w1 := snd (write_vtt Sample.E (__init__ (IterRef 0)) (lit "clip.vtt") w) in
  let w2 := snd (write_srt Sample.E (__init__ (IterRef 0)) (lit "clip.srt") w1) in
  read_file (lit "clip.vtt") (files w1) = Some (vtt_content scenario)
  /\ read_file (lit "clip.srt") (files w2) = Some [].
Proof.
  intros w w1 w2.
  destruct (one_shot_transcript_drained Sample.E 0 scenario w
              (lit "clip.vtt") (lit "clip.srt"))
    as ((v1 & v2 & E1 & E2 & F1 & F2 & _) & _);
    [vm_compute; reflexivity | reflexivity | reflexivity | reflexivity |].
  subst w2 w1. rewrite E1. simpl snd. rewrite E2. split; assumption.
Defined.

(** ** The audio buffer *)

Import VideoProcessor.

Lemma int16_le_range (lo hi : Byte.byte) :
  -32768 <= int16_le lo hi <= 32767.
Proof.
  unfold int16_le.
  pose proof (Stdlib.Strings.Byte.to_N_bounded lo).
  pose proof (Stdlib.Strings.Byte.to_N_bounded hi).
  destruct (Z.ltb_spec (Z.of_N (Byte.to_N lo) + 256 * Z.of_N (Byte.to_N hi)) 32768);
    lia.
Qed.

(** Every 16-bit sample is normalised into the unit interval: checked on
    each of the 65536 values. *)
Lemma normalize_in_unit_interval (v : Z) :
  -32768 <= v <= 32767 -> in_unit_interval (normalize v) = true.
Proof.
  intros Hv.
  set (check := fun hi lo => in_unit_interval (normalize (lo + 256 * hi - 32768))).
  assert (H : forall hi, 0 <= hi < 256 -> forall lo, 0 <= lo < 256 ->
                check hi lo = true).
  { intros hi Hhi.
    apply (checked_range (check hi) 256).
    revert hi Hhi.
    apply (checked_range
             (fun hi => forallb (check hi) (List.map Z.of_nat (seq 0 256))) 256).
    vm_compute; reflexivity. }
  pose proof (Z.div_mod (v + 32768) 256 ltac:(lia)) as D.
  pose proof (Z.mod_pos_bound (v + 32768) 256 ltac:(lia)) as B.
  assert (0 <= (v + 32768) / 256 < 256)
    by (split; [apply Z.div_pos; lia | apply Z.div_lt_upper_bound; lia]).
  replace v with ((v + 32768) mod 256 + 256 * ((v + 32768) / 256) - 32768) by lia.
  apply H; lia.
Qed.

Lemma frombuffer_int16_even (n : nat) :
  forall b, (List.length b <= n)%nat -> Nat.even (List.length b) = true ->
  exists samples,
    frombuffer_int16 b = Ok samples
    /\ (2 * List.length samples = List.length b)%nat
    /\ Forall (fun v => -32768 <= v <= 32767) samples.
Proof.
  induction n as [|n IH]; intros b Hn He.
  - destruct b; [|simpl in Hn; lia]. exists []. simpl. auto.
  - destruct b as [|lo [|hi rest]].
    + exists []. simpl. auto.
    + discriminate.
    + destruct (IH rest) as (samples & E & L & F).
      * simpl in Hn. lia.
      * exact He.
      * exists (int16_le lo hi :: samples). cbn [frombuffer_int16]. rewrite E.
        split; [reflexivity|]. split; [simpl; lia|].
        constructor; [apply int16_le_range | exact F].
Qed.

(** C9: whenever the decoder succeeds with an even number of bytes,
    [_extract_audio] returns a buffer of one float32 per pair of bytes
    (the signed 16-bit little-endian value divided by 32768.0), and every
    sample of it lies in [[-1.0, 1.0]]. *)
Theorem extracted_audio_in_unit_interval (E : env) (video_path : str) (w : world)
  (stdout : list Byte.byte) :
  subprocess_run E (ffmpeg_cmd video_path) = Completed stdout ->
  Nat.even (List.length stdout) = true ->
  exists audio,
    fst (_extract_audio E video_path w) = Ok (Some audio)
    /\ (2 * List.length audio = List.length stdout)%nat
    /\ Forall (fun x => in_unit_interval x = true) audio.
Proof.
  intros Hrun He.
  destruct (frombuffer_int16_even (List.length stdout) stdout (le_n _) He)
    as (samples & Es & L & F).
  exists (List.map normalize samples). split; [|split].
  - unfold _extract_audio, bind, print, emit. cbn [fst snd].
    rewrite Hrun, Es. reflexivity.
  - rewrite length_map. exact L.
  - apply Forall_map. eapply Forall_impl; [|exact F].
    intros v Hv. apply normalize_in_unit_interval. exact Hv.
Qed.

Lemma extracted_audio_in_unit_interval_witness :
  exists audio,
    fst (_extract_audio Sample.E (lit "video_src/clip.mp4") Sample.initial)
    = Ok (Some audio)
    /\ (2 * List.length audio = List.length Sample.pcm)%nat
    /\ Forall (fun x => in_unit_interval x = true) audio.
Proof.
  apply (extracted_audio_in_unit_interval Sample.E (lit "video_src/clip.mp4")
           Sample.initial Sample.pcm); reflexivity.
Defined.

(** The extreme samples: [-32768] gives [-1.0] and [32767] stays below
    [1.0]. *)
Lemma normalize_extremes :
  normalize (-32768) = Float32.of_int (-1)
  /\ SFltb (normalize 32767) (Float32.of_int 1) = true.
Proof. split; vm_compute; reflexivity. Qed.

(** ** One job *)

(** A job that no other thread overlaps is the calls of its body one
    after the other. *)
Lemma process_single_video_alone (E : env) (video_path : str) (w : world) :
  _process_single_video E video_path w
  = (audio_data <- _extract_audio E video_path ;;
     match audio_data with
     | None => ret tt
     | Some audio_data =>
         let video_filename := _get_filename video_path in
         print (lit "  Generating subtitles...") ;;
         filterwarnings Warnings.Ignore ;;
         segments <- model_transcribe E audio_data ;;
         filterwarnings Warnings.Default ;;
         let generator := SubtitleGenerator.__init__ segments in
         let vtt_path := OsPath.join OUTPUT_DIR (video_filename ++ lit ".vtt") in
         SubtitleGenerator.write_vtt E generator vtt_path ;;
         let srt_path := OsPath.join OUTPUT_DIR (video_filename ++ lit ".srt") in
         SubtitleGenerator.write_srt E generator srt_path ;;
         print (lit "  - Subtitles saved: '" ++ OsPath.join OUTPUT_DIR video_filename
                ++ lit "' (.vtt/.srt)")
     end) w.
Proof.
  unfold _process_single_video. cbn [exec]. unfold bind.
  destruct (_extract_audio E video_path w) as [[[audio|]|e] w1]; reflexivity.
Qed.

Lemma job_emit (e : event) : job_event e -> respects job_step (emit e).
Proof.
  intros He w. split; [reflexivity|]. exists [e]. split; [reflexivity|].
  constructor; [exact He | constructor].
Qed.

Lemma filters_emit (e : event) : respects filters_step (emit e).
Proof. intros w. reflexivity. Qed.

Lemma job_filterwarnings (a : Warnings.action) : respects job_step (filterwarnings a).
Proof.
  intros w. split; [reflexivity|]. exists []. simpl. rewrite app_nil_r. auto.
Qed.

Lemma job_extract_audio (E : env) (video_path : str) :
  respects job_step (_extract_audio E video_path).
Proof.
  unfold _extract_audio, print.
  repeat (apply respects_bind; [apply job_trans | apply job_emit; exact I | intros _]).
  destruct (subprocess_run E _).
  - apply respects_bind; [apply job_trans | apply respects_lift, job_refl | intros ?].
    apply respects_ret, job_refl.
  - apply respects_bind; [apply job_trans | apply job_emit; exact I | intros _].
    apply respects_bind; [apply job_trans | apply respects_lift, job_refl | intros ?].
    apply respects_bind; [apply job_trans | apply job_emit; exact I | intros _].
    apply respects_ret, job_refl.
  - apply respects_raise, job_refl.
Qed.

Lemma filters_extract_audio (E : env) (video_path : str) :
  respects filters_step (_extract_audio E video_path).
Proof.
  unfold _extract_audio, print.
  repeat (apply respects_bind; [apply filters_trans | apply filters_emit | intros _]).
  destruct (subprocess_run E _).
  - apply respects_bind; [apply filters_trans | apply respects_lift, filters_refl | intros ?].
    apply respects_ret, filters_refl.
  - apply respects_bind; [apply filters_trans | apply filters_emit | intros _].
    apply respects_bind; [apply filters_trans | apply respects_lift, filters_refl | intros ?].
    apply respects_bind; [apply filters_trans | apply filters_emit | intros _].
    apply respects_ret, filters_refl.
  - apply respects_raise, filters_refl.
Qed.

(** The call of the model: it happens under the filters in force, leaves
    them alone, and ends as the model ends. *)
Lemma model_transcribe_run (E : env) (audio : list Float32.float32) (w : world) :
  model w = true ->
  exists w',
    filters w' = filters w
    /\ model w' = true
    /\ trace w' = trace w ++ [EvTranscribe audio (filters w)]
    /\ match transcribe E audio TRANSCRIBE_ARGS with
       | Ok _ => exists t, model_transcribe E audio w = (Ok t, w')
       | Raise e => model_transcribe E audio w = (Raise e, w')
       end.
Proof.
  intros Hm. unfold model_transcribe, bind, get, emit. rewrite Hm. cbn [negb].
  cbn [fst snd filters files iters model trace].
  set (ev := EvTranscribe audio (filters w)).
  destruct (transcribe E audio TRANSCRIBE_ARGS) as [[items|items]|e]; cbn -[lit].
  - exists (mkWorld (filters w) (files w) (iters w) (model w) (trace w ++ [ev])).
    cbn. repeat split; [exact Hm | eexists; reflexivity].
  - exists (mkWorld (filters w) (files w) (iters w ++ [items]) (model w)
              (trace w ++ [ev])).
    cbn. repeat split; [exact Hm | eexists; reflexivity].
  - exists (mkWorld (filters w) (files w) (iters w) (model w) (trace w ++ [ev])).
    cbn. repeat split; exact Hm.
Qed.

Lemma job_model_transcribe (E : env) (audio : list Float32.float32) :
  respects job_step (model_transcribe E audio).
Proof.
  unfold model_transcribe.
  apply respects_bind; [apply job_trans | apply respects_get, job_refl | intros loaded].
  destruct loaded; cbn [negb]; [|apply respects_raise, job_refl].
  apply respects_bind; [apply job_trans | apply respects_get, job_refl | intros fs].
  apply respects_bind; [apply job_trans | apply job_emit; exact I | intros _].
  apply respects_bind; [apply job_trans | apply respects_lift, job_refl | intros v].
  destruct v.
  - apply respects_ret, job_refl.
  - apply respects_bind; [apply job_trans | apply respects_get, job_refl | intros its].
    apply respects_bind; [apply job_trans | | intros _; apply respects_ret, job_refl].
    intros w. split; [reflexivity|]. exists []. simpl. rewrite app_nil_r. auto.
Qed.

(** What follows the transcription in a job: the two files and a line. *)
Lemma job_write_and_report (E : env) (g : SubtitleGenerator.t) (p1 p2 line : str) :
  respects job_step (write_vtt E g p1 ;; write_srt E g p2 ;; print line).
Proof.
  apply respects_bind; [apply job_trans | | intros _].
  { eapply respects_weaken; [apply quiet_job | apply quiet_write_vtt]. }
  apply respects_bind; [apply job_trans | | intros _].
  { eapply respects_weaken; [apply quiet_job | apply quiet_write_srt]. }
  apply job_emit; exact I.
Qed.

Lemma filters_write_and_report (E : env) (g : SubtitleGenerator.t) (p1 p2 line : str) :
  respects filters_step (write_vtt E g p1 ;; write_srt E g p2 ;; print line).
Proof.
  apply respects_bind; [apply filters_trans | | intros _].
  { eapply respects_weaken; [apply quiet_filters | apply quiet_write_vtt]. }
  apply respects_bind; [apply filters_trans | | intros _].
  { eapply respects_weaken; [apply quiet_filters | apply quiet_write_srt]. }
  apply filters_emit.
Qed.

(** A job only adds its own events to the trace and keeps the model. *)
Lemma job_process_single_video (E : env) (video_path : str) :
  respects job_step (exec (_process_single_video E video_path)).
Proof.
  intros w0. rewrite process_single_video_alone. revert w0.
  apply respects_bind; [apply job_trans | apply job_extract_audio | intros [audio|]].
  - apply respects_bind; [apply job_trans | apply job_emit; exact I | intros _].
    apply respects_bind; [apply job_trans | apply job_filterwarnings | intros _].
    apply respects_bind; [apply job_trans | apply job_model_transcribe | intros t].
    apply respects_bind; [apply job_trans | apply job_filterwarnings | intros _].
    apply job_write_and_report.
  - apply respects_ret, job_refl.
Qed.

(** ** The warning filters around the transcription *)

Lemma filterwarnings_run (a : Warnings.action) (w : world) :
  filterwarnings a w
  = (Ok tt, mkWorld (Warnings.filterwarnings a (filters w)) (files w) (iters w)
              (model w) (trace w)).
Proof. reflexivity. Qed.

(** The state of a job that has its audio and that no other thread
    overlaps, up to the return of the model: the filters were set to
    ignore everything for the call and to the default action after it. *)
Lemma process_single_video_filters (E : env) (video_path : str) (w : world)
  (audio : list Float32.float32) :
  fst (_extract_audio E video_path w) = Ok (Some audio) ->
  model w = true ->
  let during := Warnings.filterwarnings Warnings.Ignore (filters w) in
  let w' := snd (exec (_process_single_video E video_path) w) in
  (exists new, trace w' = trace w ++ new /\ In (EvTranscribe audio during) new)
  /\ match transcribe E audio TRANSCRIBE_ARGS with
     | Ok _ => filters w' = Warnings.filterwarnings Warnings.Default during
     | Raise e => filters w' = during /\ fst (exec (_process_single_video E video_path) w) = Raise e
     end.
Proof.
  intros Hx Hm during w'. subst w'. rewrite !process_single_video_alone.
  pose proof (job_extract_audio E video_path w) as (Hm1 & new1 & Ht1 & _).
  pose proof (filters_extract_audio E video_path w) as Hf1.
  destruct (_extract_audio E video_path w) as [r w1] eqn:Ex.
  cbn [fst snd] in *. subst r. unfold filters_step in Hf1.
  rewrite (bind_ok _ _ _ _ _ Ex). unfold print.
  erewrite bind_ok by reflexivity.
  erewrite bind_ok by apply filterwarnings_run.
  set (w3 := mkWorld _ _ _ _ _).
  assert (Hm3 : model w3 = true) by (subst w3; cbn; congruence).
  assert (Hf3 : filters w3 = during) by (subst w3 during; cbn; congruence).
  assert (Ht3 : trace w3 = trace w ++ new1 ++ [EvPrint (lit "  Generating subtitles...")])
    by (subst w3; cbn [trace]; rewrite Ht1, <- app_assoc; reflexivity).
  destruct (model_transcribe_run E audio w3 Hm3) as (w4 & Hf4 & Hm4 & Ht4 & Hrun).
  rewrite Hf3 in Ht4, Hf4.
  destruct (transcribe E audio TRANSCRIBE_ARGS) as [v|e].
  - destruct Hrun as [t Hrun]. rewrite (bind_ok _ _ _ _ _ Hrun).
    erewrite bind_ok by apply filterwarnings_run.
    set (w5 := mkWorld _ _ _ _ _). cbv zeta.
    pose proof (job_write_and_report E (__init__ t)
                  (OsPath.join OUTPUT_DIR (_get_filename video_path ++ lit ".vtt"))
                  (OsPath.join OUTPUT_DIR (_get_filename video_path ++ lit ".srt"))
                  (lit "  - Subtitles saved: '"
                   ++ OsPath.join OUTPUT_DIR (_get_filename video_path)
                   ++ lit "' (.vtt/.srt)") w5) as (_ & new & Hn & _).
    pose proof (filters_write_and_report E (__init__ t)
                  (OsPath.join OUTPUT_DIR (_get_filename video_path ++ lit ".vtt"))
                  (OsPath.join OUTPUT_DIR (_get_filename video_path ++ lit ".srt"))
                  (lit "  - Subtitles saved: '"
                   ++ OsPath.join OUTPUT_DIR (_get_filename video_path)
                   ++ lit "' (.vtt/.srt)") w5) as Hf.
    unfold filters_step in Hf. unfold print in Hn, Hf. split.
    + exists (new1 ++ EvPrint (lit "  Generating subtitles...")
                :: EvTranscribe audio during :: new).
      split.
      * rewrite Hn. subst w5; cbn [trace]. rewrite Ht4, Ht3, <- !app_assoc.
        reflexivity.
      * apply in_or_app; right; right; left; reflexivity.
    + rewrite Hf. subst w5; cbn [filters]. rewrite Hf4. reflexivity.
  - rewrite (bind_raise _ _ _ _ _ Hrun). cbn [fst snd]. split; [|split].
    + exists (new1 ++ [EvPrint (lit "  Generating subtitles...");
                       EvTranscribe audio during]).
      split.
      * rewrite Ht4, Ht3, <- !app_assoc. reflexivity.
      * apply in_or_app; right; right; left; reflexivity.
    + exact Hf4.
    + reflexivity.
Qed.

(** C8, as the code has it, for a job that no other job overlaps (the
    filters are one list of the process, and the toggles of a job that
    runs meanwhile show in it, see [warnings_overlap]): when the
    transcription returns, the warning filters are not back at what they
    were; they are the earlier list with the catch-all [default] entry in
    front of the catch-all [ignore] entry moved or inserted at its head;
    and among the events of the job is the call of the model, made with
    the [ignore] entry at the head of the earlier list. *)
Theorem warnings_default_after_transcription (E : env) (video_path : str)
  (w : world) (audio : list Float32.float32) (v : segments_value) :
  fst (_extract_audio E video_path w) = Ok (Some audio) ->
  model w = true ->
  transcribe E audio TRANSCRIBE_ARGS = Ok v ->
  let w' := snd (exec (_process_single_video E video_path) w) in
  let earlier := Warnings.remove_first (Warnings.catch_all Warnings.Ignore)
                   (filters w) in
  filters w'
  = Warnings.catch_all Warnings.Default :: Warnings.catch_all Warnings.Ignore
      :: Warnings.remove_first (Warnings.catch_all Warnings.Default) earlier
  /\ exists new,
       trace w' = trace w ++ new
       /\ In (EvTranscribe audio (Warnings.catch_all Warnings.Ignore :: earlier)) new.
Proof.
  intros Hx Hm Hv w' earlier.
  destruct (process_single_video_filters E video_path w audio Hx Hm) as [Hin Hf].
  rewrite Hv in Hf. split.
  - exact Hf.
  - exact Hin.
Qed.

Lemma warnings_default_after_transcription_witness :
  let w := mkWorld [] [] [] true [] in
  filters (snd (exec (_process_single_video Sample.E (lit "video_src/clip.mp4")) w))
  = [Warnings.catch_all Warnings.Default; Warnings.catch_all Warnings.Ignore].
Proof.
  intros w.
  apply (warnings_default_after_transcription Sample.E (lit "video_src/clip.mp4") w
           (List.map normalize [0; -32768]) (SegList scenario));
    reflexivity.
Defined.

(** C8, as the specification words it, fails, already for a job that no
    other job overlaps: from an empty filter list a job whose
    transcription returns ends with two entries in the list, and a job
    whose transcription raises ends with the [ignore] entry still in
    force. *)
Lemma warnings_filters_not_restored :
  let w := mkWorld [] [] [] true [] in
  let ok := _process_single_video Sample.E (lit "video_src/clip.mp4") w in
  let ko := _process_single_video Sample.E (lit "video_src/talk.mkv") w in
  fst ok = Ok tt
  /\ filters (snd ok) <> filters w
  /\ (exists e, fst ko = Raise e)
  /\ filters (snd ko) = [Warnings.catch_all Warnings.Ignore]
  /\ filters (snd ko) <> filters w.
Proof.
  cbv zeta. split; [vm_compute; reflexivity|].
  split; [vm_compute; discriminate|].
  split; [eexists; vm_compute; reflexivity|].
  split; [vm_compute; reflexivity | vm_compute; discriminate].
Qed.

(** When two jobs overlap, the toggles of the one show in the call of the
    other.  The first job sets the filters to [ignore]; the second does
    the same, transcribes and sets them to [default]; the model is then
    called for the first job with the [default] entry at the head of the
    filters, not the [ignore] entry that the job had put there. *)
Lemma warnings_overlap :
  let w := mkWorld [] [] [] true [] in
  let futures := submit Sample.E [lit "video_src/a.mp4"; lit "video_src/b.mp4"] in
  let w' := snd (turns [0; 0; 0; 1; 1; 1; 1; 1; 0]%nat futures w) in
  last (trace w') (EvPrint [])
  = EvTranscribe (List.map normalize [0; -32768])
      [Warnings.catch_all Warnings.Default; Warnings.catch_all Warnings.Ignore].
Proof. vm_compute. reflexivity. Qed.

(** ** How a job ends *)

Section LoopOutcome.

Variable body : Z -> segment -> M unit.
Variable f : Z -> segment -> result unit.

(** The body ends as [f] says and leaves the iterators alone. *)
Hypothesis body_outcome : forall i s w, fst (body i s w) = f i s.
Hypothesis body_iters : forall i s w, iters (snd (body i s w)) = iters w.

Lemma for_list_outcome (l : list segment) :
  forall i w,
    fst (for_list body i l w) = loop_outcome f i l
    /\ iters (snd (for_list body i l w)) = iters w.
Proof.
  induction l as [|s rest IH]; intros i w; cbn [for_list loop_outcome].
  - split; reflexivity.
  - unfold bind. pose proof (body_outcome i s w) as Ho.
    pose proof (body_iters i s w) as Hi.
    destruct (body i s w) as [[[]|e] w1]; cbn [fst snd] in *; rewrite <- Ho.
    + destruct (IH (i + 1) w1) as [E1 E2]. rewrite E1, E2. auto.
    + auto.
Qed.

Lemma for_iter_outcome (id : nat) (todo : list segment) :
  forall i w,
    pending id w = todo ->
    fst (for_iter body id i todo w) = loop_outcome f i todo
    /\ (fst (for_iter body id i todo w) = Ok tt ->
        pending id (snd (for_iter body id i todo w)) = []).
Proof.
  induction todo as [|s rest IH]; intros i w Hp; cbn [for_iter loop_outcome].
  - split; [reflexivity | intros _; exact Hp].
  - assert (Hid : (id < List.length (iters w))%nat).
    { destruct (Nat.lt_ge_cases id (List.length (iters w))) as [H|H]; [exact H|].
      unfold pending in Hp. rewrite nth_overflow in Hp by exact H. discriminate. }
    pose proof (pending_set id rest w Hid) as Hp1.
    set (w1 := snd (set_pending id rest w)) in *.
    rewrite (bind_ok _ _ w w1 tt) by reflexivity.
    unfold bind. pose proof (body_outcome i s w1) as Ho.
    pose proof (body_iters i s w1) as Hi.
    destruct (body i s w1) as [[[]|e] w2]; cbn [fst snd] in *; rewrite <- Ho.
    + apply IH. unfold pending in *. rewrite Hi. exact Hp1.
    + split; [reflexivity | discriminate].
Qed.

Lemma for_enumerate_outcome (i0 : Z) (t : iterable) (w : world) :
  fst (for_enumerate body i0 t w) = loop_outcome f i0 (items_of t w)
  /\ (fst (for_enumerate body i0 t w) = Ok tt ->
      items_of t (snd (for_enumerate body i0 t w)) = items_left t).
Proof.
  destruct t as [l|id]; cbn [for_enumerate items_of items_left].
  - split; [apply for_list_outcome | reflexivity].
  - rewrite (bind_ok _ _ w w (pending id w)) by reflexivity.
    apply for_iter_outcome. reflexivity.
Qed.

End LoopOutcome.

Lemma cue_body_outcome (path sep : str)
  (content : Z -> segment -> str -> str -> str) (i : Z) (s : segment) (w : world) :
  let r :=
    (start <- lift (_format_timestamp (start s) sep) ;;
     end_ <- lift (_format_timestamp (end_ s) sep) ;;
     f_write path (content i s start end_)) w in
  fst r = cue_outcome sep content i s /\ iters (snd r) = iters w.
Proof.
  unfold cue_outcome, bind, lift, ret, raise.
  destruct (_format_timestamp (start s) sep) as [a|]; [|split; reflexivity].
  destruct (_format_timestamp (end_ s) sep) as [b|]; [|split; reflexivity].
  cbv zeta. unfold f_write.
  destruct (Utf8.encode_error (content i s a b)); [split; reflexivity|].
  unfold bind, get. destruct (read_file path (files w)); split; reflexivity.
Qed.

(** How [write_vtt] and [write_srt] end, and what they leave of a
    one-shot iterator when they return. *)
Lemma write_vtt_outcome (E : env) (t : iterable) (path : str) (w : world) :
  fst (write_vtt E (__init__ t) path w)
  = writer_outcome E path (lit ".") vtt_text 0 (items_of t w)
  /\ (fst (write_vtt E (__init__ t) path w) = Ok tt ->
      items_of t (snd (write_vtt E (__init__ t) path w)) = items_left t).
Proof.
  unfold write_vtt, writer_outcome, for_in, __init__, transcript, open_w.
  destruct (openable E path); [|split; [reflexivity | discriminate]].
  erewrite (bind_ok (bind _ _)) by reflexivity.
  rewrite (bind_ok _ _ _ _ _ (f_write_run path (lit "WEBVTT" ++ nl ++ nl) _ eq_refl)).
  set (w0 := with_files _ _).
  assert (Hi : items_of t w0 = items_of t w) by (destruct t; reflexivity).
  rewrite <- Hi.
  apply (for_enumerate_outcome
           (fun _ segment =>
              start <- lift (_format_timestamp (start segment) (lit ".")) ;;
              end_ <- lift (_format_timestamp (end_ segment) (lit ".")) ;;
              let text := sanitize (text segment) in
              f_write path (start ++ lit " --> " ++ end_ ++ nl ++ text ++ nl ++ nl))
           (cue_outcome (lit ".") vtt_text)).
  - intros i s w1. apply (cue_body_outcome path (lit ".") vtt_text i s w1).
  - intros i s w1. apply (cue_body_outcome path (lit ".") vtt_text i s w1).
Qed.

Lemma write_srt_outcome (E : env) (t : iterable) (path : str) (w : world) :
  fst (write_srt E (__init__ t) path w)
  = writer_outcome E path (lit ",") srt_text 1 (items_of t w)
  /\ (fst (write_srt E (__init__ t) path w) = Ok tt ->
      items_of t (snd (write_srt E (__init__ t) path w)) = items_left t).
Proof.
  unfold write_srt, writer_outcome, __init__, transcript, open_w.
  destruct (openable E path); [|split; [reflexivity | discriminate]].
  erewrite (bind_ok (bind _ _)) by reflexivity.
  set (w0 := mkWorld _ _ _ _ _).
  assert (Hi : items_of t w0 = items_of t w) by (destruct t; reflexivity).
  rewrite <- Hi.
  apply (for_enumerate_outcome
           (fun i segment =>
              start <- lift (_format_timestamp (start segment) (lit ",")) ;;
              end_ <- lift (_format_timestamp (end_ segment) (lit ",")) ;;
              let text := sanitize (text segment) in
              f_write path (str_of_int i ++ nl ++ start ++ lit " --> " ++ end_ ++ nl
                            ++ text ++ nl ++ nl))
           (cue_outcome (lit ",") srt_text)).
  - intros i s w1. apply (cue_body_outcome path (lit ",") srt_text i s w1).
  - intros i s w1. apply (cue_body_outcome path (lit ",") srt_text i s w1).
Qed.

Lemma model_transcribe_items (E : env) (audio : list Float32.float32) (w : world) :
  model w = true ->
  match transcribe E audio TRANSCRIBE_ARGS with
  | Ok v =>
      exists t w',
        model_transcribe E audio w = (Ok t, w')
        /\ items_of t w' = segments_of v
        /\ items_left t = segments_again v
  | Raise e => fst (model_transcribe E audio w) = Raise e
  end.
Proof.
  intros Hm. unfold model_transcribe, bind, get, emit. rewrite Hm. cbn [negb].
  cbn [fst snd filters files iters model trace].
  destruct (transcribe E audio TRANSCRIBE_ARGS) as [[items|items]|e]; cbn -[lit].
  - eexists; eexists. split; [reflexivity|]. split; reflexivity.
  - eexists; eexists. split; [reflexivity|]. split; [|reflexivity].
    cbn [items_of segments_of]. unfold pending. cbn [iters].
    rewrite app_nth2 by lia. rewrite Nat.sub_diag. reflexivity.
  - reflexivity.
Qed.

Lemma extract_audio_outcome (E : env) (video_path : str) (w : world) :
  fst (_extract_audio E video_path w)
  = match subprocess_run E (ffmpeg_cmd video_path) with
    | Completed stdout =>
        match frombuffer_int16 stdout with
        | Ok samples => Ok (Some (List.map normalize samples))
        | Raise e => Raise e
        end
    | CalledProcessError stderr =>
        match decode E stderr with
        | Ok _ => Ok None
        | Raise e => Raise e
        end
    | NotRun e => Raise e
    end.
Proof.
  unfold _extract_audio, bind, print, emit, lift, ret, raise.
  cbn [fst snd]. destruct (subprocess_run E (ffmpeg_cmd video_path)).
  - destruct (frombuffer_int16 stdout); reflexivity.
  - destruct (decode E stderr); reflexivity.
  - reflexivity.
Qed.

(** The outcome of a job is decided by its file and the collaborators: in
    whatever state it runs (the model being loaded), it ends as
    [job_outcome] says. *)
Lemma job_outcome_run (E : env) (video_path : str) (w : world) :
  model w = true ->
  fst (_process_single_video E video_path w) = job_outcome E video_path.
Proof.
  intros Hm. rewrite !process_single_video_alone.
  unfold job_outcome, audio_outcome, files_outcome, vtt_path_of, srt_path_of.
  pose proof (extract_audio_outcome E video_path w) as Hx.
  pose proof (job_extract_audio E video_path w) as (Hm1 & _).
  unfold bind at 1.
  destruct (_extract_audio E video_path w) as [r w1]. cbn [fst snd] in Hx, Hm1.
  destruct (subprocess_run E (ffmpeg_cmd video_path)) as [stdout|stderr|e0].
  - destruct (frombuffer_int16 stdout) as [samples|e]; subst r; [|reflexivity].
    set (audio := List.map normalize samples).
    set (w2 := snd (print (lit "  Generating subtitles...") w1)).
    rewrite (bind_ok _ _ w1 w2 tt) by reflexivity.
    set (w3 := snd (filterwarnings Warnings.Ignore w2)).
    rewrite (bind_ok _ _ w2 w3 tt) by reflexivity.
    assert (Hm3 : model w3 = true) by (subst w3; cbn; congruence).
    pose proof (model_transcribe_items E audio w3 Hm3) as Hmt.
    destruct (transcribe E audio TRANSCRIBE_ARGS) as [v|e].
    + destruct Hmt as (t & w4 & Er & Hitems & Hleft).
      rewrite (bind_ok _ _ _ _ _ Er).
      set (w5 := snd (filterwarnings Warnings.Default w4)).
      rewrite (bind_ok _ _ w4 w5 tt) by reflexivity.
      assert (Hitems5 : items_of t w5 = segments_of v)
        by (rewrite <- Hitems; destruct t; reflexivity).
      cbv zeta.
      set (vtt_path := OsPath.join OUTPUT_DIR (_get_filename video_path ++ lit ".vtt")).
      set (srt_path := OsPath.join OUTPUT_DIR (_get_filename video_path ++ lit ".srt")).
      destruct (write_vtt_outcome E t vtt_path w5) as [Hv Hvl].
      rewrite Hitems5 in Hv. unfold bind at 1.
      destruct (write_vtt E (__init__ t) vtt_path w5) as [[[]|e] w6];
        cbn [fst snd] in Hv, Hvl; rewrite <- Hv; [|reflexivity].
      destruct (write_srt_outcome E t srt_path w6) as [Hs _].
      rewrite (Hvl eq_refl), Hleft in Hs. unfold bind at 1.
      destruct (write_srt E (__init__ t) srt_path w6) as [[[]|e] w7];
        cbn [fst snd] in Hs; rewrite <- Hs; reflexivity.
    + rewrite (bind_raise _ _ w3 (snd (model_transcribe E audio w3)) e).
      * reflexivity.
      * destruct (model_transcribe E audio w3) as [r4 w4]. cbn [fst snd] in *.
        subst r4. reflexivity.
  - destruct (decode E stderr); subst r; reflexivity.
  - subst r. reflexivity.
Qed.

(** A job ends in the same way in any two states with the model loaded:
    what other jobs did to the shared state does not reach it. *)
Lemma job_outcome_independent (E : env) (video_path : str) (w1 w2 : world) :
  model w1 = true -> model w2 = true ->
  fst (_process_single_video E video_path w1)
  = fst (_process_single_video E video_path w2).
Proof.
  intros H1 H2. rewrite !job_outcome_run by assumption. reflexivity.
Qed.

(** ** The batch *)

(** A job whose extraction fails ends at once: it prints the decoder's
    diagnostics and returns (or raises, if they cannot be decoded), and
    the model is never called. *)
Lemma extraction_failure_ends_job (E : env) (video_path : str) (w : world)
  (stderr : list Byte.byte) :
  subprocess_run E (ffmpeg_cmd video_path) = CalledProcessError stderr ->
  exists new,
    trace (snd (_process_single_video E video_path w)) = trace w ++ new
    /\ (forall audio fs, ~ In (EvTranscribe audio fs) new)
    /\ fst (_process_single_video E video_path w)
       = match decode E stderr with
         | Ok _ => Ok tt
         | Raise e => Raise e
         end.
Proof.
  intros Hrun.
  rewrite !process_single_video_alone. unfold _extract_audio, bind, print, emit, lift, ret, raise.
  cbn [fst snd trace filters files iters model]. rewrite Hrun.
  destruct (decode E stderr) as [details|e]; cbn [fst snd trace].
  - eexists. split; [rewrite <- !app_assoc; reflexivity|]. split; [|reflexivity].
    intros audio fs Hin. cbn in Hin.
    repeat (destruct Hin as [Hin|Hin]; [discriminate|]). exact Hin.
  - eexists. split; [rewrite <- !app_assoc; reflexivity|]. split; [|reflexivity].
    intros audio fs Hin. cbn in Hin.
    repeat (destruct Hin as [Hin|Hin]; [discriminate|]). exact Hin.
Qed.

Lemma load_model_run (E : env) (w : world) :
  load_model E MODEL_NAME = Ok tt ->
  exists w' evs,
    _load_model E w = (Ok tt, w')
    /\ model w' = true
    /\ trace w' = trace w ++ evs.
Proof.
  intros Hl. unfold _load_model, bind, get, print, emit, lift, set_model.
  destruct (model w) eqn:Hm.
  - exists w, []. rewrite app_nil_r. auto.
  - rewrite Hl. cbn -[lit]. eexists; eexists. split; [reflexivity|].
    cbn -[lit]. split; [reflexivity|]. rewrite <- app_assoc. reflexivity.
Qed.

(** With a directory to list, discovery prints nothing and changes
    nothing. *)
Lemma get_video_files_run (E : env) (w : world) (video_files : list str) :
  fst (_get_video_files E w) = Ok video_files ->
  video_files <> [] ->
  _get_video_files E w = (Ok video_files, w).
Proof.
  unfold _get_video_files. destruct (isdir E VIDEO_SRC_DIR); cbn -[lit].
  - intros H _. injection H as <-. reflexivity.
  - intros H Hne. injection H as <-. congruence.
Qed.

(** A seconds value whose milliseconds overflow binary64 is refused by
    [round], for either separator, with the same exception. *)
Lemma format_timestamp_overflow (seconds : PyFloat.float) (sep1 sep2 : str) :
  PyFloat.ge0 seconds = true ->
  valid_time seconds = false ->
  exists e,
    _format_timestamp seconds sep1 = Raise e
    /\ _format_timestamp seconds sep2 = Raise e.
Proof.
  unfold valid_time, _format_timestamp. intros Hge. rewrite Hge. cbn [andb negb].
  destruct (PyFloat.mul seconds (PyFloat.of_int 1000)); try discriminate;
    intros _; eexists; split; reflexivity.
Qed.

(** ** More on the timestamp formatter *)

Lemma shr_1_nonneg (mrs : shr_record) :
  0 <= shr_m mrs -> 0 <= shr_m (shr_1 mrs).
Proof.
  destruct mrs as [m r s]. cbn [shr_m]. intros Hm. unfold shr_1.
  destruct m as [|p|p]; [cbn; lia | destruct p; cbn; lia | lia].
Qed.

Lemma iter_shr_1_nonneg (p : positive) :
  forall mrs, 0 <= shr_m mrs -> 0 <= shr_m (iter_pos shr_1 p mrs).
Proof.
  induction p as [p IH|p IH|]; intros mrs Hm; cbn [iter_pos].
  - apply IH, IH, shr_1_nonneg, Hm.
  - apply IH, IH, Hm.
  - apply shr_1_nonneg, Hm.
Qed.

Lemma shr_fexp_nonneg (m e : Z) (l : location) :
  0 <= m -> 0 <= shr_m (fst (shr_fexp PyFloat.prec PyFloat.emax m e l)).
Proof.
  intros Hm. unfold shr_fexp, shr.
  assert (H0 : 0 <= shr_m (shr_record_of_loc m l))
    by (destruct l as [|[]]; exact Hm).
  destruct (_ - e) as [|p|p]; cbn [fst]; [exact H0 | | exact H0].
  apply iter_shr_1_nonneg, H0.
Qed.

(** Rounding a non-negative mantissa to binary64 gives a number or an
    infinity, never a NaN. *)
Lemma binary_round_aux_not_nan (sx : bool) (mx ex : Z) (lx : location) :
  0 <= mx ->
  binary_round_aux PyFloat.prec PyFloat.emax sx mx ex lx <> S754_nan.
Proof.
  intros Hm. unfold binary_round_aux.
  pose proof (shr_fexp_nonneg mx ex lx Hm) as H1.
  destruct (shr_fexp _ _ mx ex lx) as [mrs1 e1]. cbn [fst] in H1.
  assert (H2 : 0 <= round_nearest_even (shr_m mrs1) (loc_of_shr_record mrs1)).
  { unfold round_nearest_even.
    destruct (loc_of_shr_record mrs1) as [|[]]; try destruct (Z.even _); lia. }
  pose proof (shr_fexp_nonneg _ e1 loc_Exact H2) as H3.
  destruct (shr_fexp _ _ _ e1 loc_Exact) as [mrs2 e2]. cbn [fst] in H3.
  destruct (shr_m mrs2); [discriminate | | lia].
  destruct (e2 <=? _); discriminate.
Qed.

(** The milliseconds of a seconds value that passes the assertion are a
    number or the positive infinity. *)
Lemma millis_float_cases (seconds : PyFloat.float) :
  PyFloat.ge0 seconds = true ->
  PyFloat.mul seconds (PyFloat.of_int 1000) <> S754_nan.
Proof.
  intros Hge. unfold PyFloat.mul, PyFloat.of_int.
  change (binary_normalize PyFloat.prec PyFloat.emax 1000 0 false)
    with (S754_finite false 8796093022208000 (-43)).
  destruct seconds as [s|s| |s m e]; try discriminate; cbn [SFmul];
    try discriminate.
  apply binary_round_aux_not_nan. lia.
Qed.

(** How the formatter can end. *)
Lemma format_timestamp_outcomes (seconds : PyFloat.float) (marker : str) :
  match _format_timestamp seconds marker with
  | Ok _ => valid_time seconds = true
  | Raise e =>
      (PyFloat.ge0 seconds = false
       /\ e = mkExn AssertionError (lit "non-negative timestamp expected"))
      \/ (PyFloat.ge0 seconds = true
          /\ PyFloat.is_finite (PyFloat.mul seconds (PyFloat.of_int 1000)) = false
          /\ e = mkExn OverflowError (lit "cannot convert float infinity to integer"))
  end.
Proof.
  unfold _format_timestamp, valid_time.
  destruct (PyFloat.ge0 seconds) eqn:Hge; cbn [negb andb]; [|left; auto].
  pose proof (millis_float_cases seconds Hge) as Hn.
  destruct (PyFloat.mul seconds (PyFloat.of_int 1000)) as [s|s| |s m e];
    cbn [PyFloat.round PyFloat.is_finite]; try reflexivity.
  - right. auto.
  - congruence.
Qed.

(** X1: the formatter fails in two ways only: with [AssertionError] when
    [seconds >= 0] is false (a negative value or a NaN), and with
    [OverflowError] when the milliseconds [seconds * 1000.0] are infinite;
    it never raises [ValueError], and it returns exactly on the values
    that are not negative and have finite milliseconds. *)
Theorem format_timestamp_failures (seconds : PyFloat.float) (marker : str) :
  match _format_timestamp seconds marker with
  | Ok _ => valid_time seconds = true
  | Raise e =>
      (PyFloat.ge0 seconds = false
       /\ e = mkExn AssertionError (lit "non-negative timestamp expected"))
      \/ (PyFloat.ge0 seconds = true
          /\ PyFloat.is_finite (PyFloat.mul seconds (PyFloat.of_int 1000)) = false
          /\ e = mkExn OverflowError (lit "cannot convert float infinity to integer"))
  end.
Proof. exact (format_timestamp_outcomes seconds marker). Qed.

Lemma format_0d_min_width (w : nat) (z : Z) :
  0 <= z -> (w <= List.length (format_0d w z))%nat.
Proof.
  intros Hz. unfold format_0d. destruct (Z.ltb_spec z 0); [lia|].
  rewrite length_app, repeat_length. lia.
Qed.

(** X2: on every accepted value the formatter returns
    [HH:MM:SS<marker>mmm] for the rounded number of milliseconds: hours
    [ms / 3600000] on two digits or more, minutes [ms / 60000 mod 60] and
    seconds [ms / 1000 mod 60] on exactly two, milliseconds [ms mod 1000]
    on exactly three, every field made of decimal digits only. *)
Theorem format_timestamp_fields (seconds : PyFloat.float) (marker : str) :
  valid_time seconds = true ->
  let ms := millis seconds in
  exists hh mm ss mmm,
    _format_timestamp seconds marker
    = Ok (hh ++ lit ":" ++ mm ++ lit ":" ++ ss ++ marker ++ mmm)
    /\ hh = format_0d 2 (ms / 3600000)
    /\ mm = format_0d 2 (ms / 60000 mod 60)
    /\ ss = format_0d 2 (ms / 1000 mod 60)
    /\ mmm = format_0d 3 (ms mod 1000)
    /\ (2 <= List.length hh)%nat
    /\ List.length mm = 2%nat
    /\ List.length ss = 2%nat
    /\ List.length mmm = 3%nat
    /\ Forall is_digit (hh ++ mm ++ ss ++ mmm).
Proof.
  intros Hv ms. pose proof (millis_nonneg seconds Hv) as Hms. fold ms in Hms.
  rewrite (format_timestamp_layout seconds marker Hv). fold ms.
  pose proof (Z.mod_pos_bound ms 1000 ltac:(lia)).
  pose proof (Z.mod_pos_bound (ms / 60000) 60 ltac:(lia)).
  pose proof (Z.mod_pos_bound (ms / 1000) 60 ltac:(lia)).
  assert (0 <= ms / 3600000) by (apply Z.div_pos; lia).
  do 4 eexists. split; [reflexivity|]. do 4 (split; [reflexivity|]).
  split; [apply format_0d_min_width; lia|].
  split; [apply format_02d_length; lia|].
  split; [apply format_02d_length; lia|].
  split; [apply format_03d_length; lia|].
  repeat (apply Forall_app; split); apply format_0d_nonneg_digits; lia.
Qed.

Lemma format_timestamp_fields_witness :
  exists hh mm ss mmm,
    _format_timestamp (PyFloat.decimal 36614995 4) (lit ",")
    = Ok (hh ++ lit ":" ++ mm ++ lit ":" ++ ss ++ lit "," ++ mmm)
    /\ List.length mm = 2%nat /\ List.length mmm = 3%nat.
Proof.
  destruct (format_timestamp_fields (PyFloat.decimal 36614995 4) (lit ","))
    as (hh & mm & ss & mmm & E & _ & _ & _ & _ & _ & Lm & _ & Lf & _);
    [vm_compute; reflexivity|].
  exists hh, mm, ss, mmm. auto.
Defined.

(** Reading the digits back. *)
Lemma uint_of_codes_codes (u : Decimal.uint) : uint_of_codes (uint_codes u) = u.
Proof. induction u; cbn; congruence. Qed.

Lemma number_of_zeros (k : nat) (s : str) :
  number_of_codes (repeat 48%N k ++ s) = number_of_codes s.
Proof.
  unfold number_of_codes. induction k as [|k IH]; [reflexivity|].
  cbn [repeat app uint_of_codes]. rewrite N.eqb_refl. exact IH.
Qed.

Lemma number_of_format_0d (w : nat) (z : Z) :
  0 <= z -> number_of_codes (format_0d w z) = z.
Proof.
  intros Hz. unfold format_0d. destruct (Z.ltb_spec z 0); [lia|].
  rewrite number_of_zeros. unfold number_of_codes, digits.
  rewrite uint_of_codes_codes, DecimalN.Unsigned.of_to. lia.
Qed.

Lemma app_inv_same_length {A} (a1 a2 b1 b2 : list A) :
  a1 ++ b1 = a2 ++ b2 -> List.length b1 = List.length b2 -> a1 = a2 /\ b1 = b2.
Proof.
  intros E L.
  assert (La : List.length a1 = List.length a2).
  { apply (f_equal (@List.length A)) in E. rewrite !length_app in E. lia. }
  revert a2 E La. induction a1 as [|x a1 IH]; intros [|y a2] E La;
    try discriminate; [auto|].
  cbn in E. injection E as -> E. destruct (IH a2 E) as [-> ->]; [cbn in La; lia|].
  auto.
Qed.

(** A timestamp determines its number of milliseconds. *)
Lemma hhmmss_mmm_injective (sep : str) (a b : Z) :
  0 <= a -> 0 <= b -> hhmmss_mmm sep a = hhmmss_mmm sep b -> a = b.
Proof.
  intros Ha Hb E. unfold hhmmss_mmm in E.
  pose proof (Z.mod_pos_bound a 1000 ltac:(lia)).
  pose proof (Z.mod_pos_bound b 1000 ltac:(lia)).
  pose proof (Z.mod_pos_bound (a / 60000) 60 ltac:(lia)).
  pose proof (Z.mod_pos_bound (b / 60000) 60 ltac:(lia)).
  pose proof (Z.mod_pos_bound (a / 1000) 60 ltac:(lia)).
  pose proof (Z.mod_pos_bound (b / 1000) 60 ltac:(lia)).
  assert (0 <= a / 3600000) by (apply Z.div_pos; lia).
  assert (0 <= b / 3600000) by (apply Z.div_pos; lia).
  (* split off the fields from the right, each of a known width *)
  rewrite !app_assoc in E.
  apply app_inv_same_length in E as [E Ef];
    [|rewrite !format_03d_length by lia; reflexivity].
  apply app_inv_same_length in E as [E _]; [|reflexivity].
  apply app_inv_same_length in E as [E Es];
    [|rewrite !format_02d_length by lia; reflexivity].
  apply app_inv_same_length in E as [E _]; [|reflexivity].
  apply app_inv_same_length in E as [E Em];
    [|rewrite !format_02d_length by lia; reflexivity].
  apply app_inv_same_length in E as [Eh _]; [|reflexivity].
  apply (f_equal number_of_codes) in Ef, Es, Em, Eh.
  rewrite !number_of_format_0d in Ef, Es, Em, Eh by lia.
  pose proof (Z.div_mod a 1000 ltac:(lia)).
  pose proof (Z.div_mod b 1000 ltac:(lia)).
  pose proof (Z.div_mod (a / 1000) 60 ltac:(lia)).
  pose proof (Z.div_mod (b / 1000) 60 ltac:(lia)).
  pose proof (Z.div_div a 1000 60 ltac:(lia) ltac:(lia)) as Da.
  pose proof (Z.div_div b 1000 60 ltac:(lia) ltac:(lia)) as Db.
  change (1000 * 60) with 60000 in Da, Db.
  pose proof (Z.div_mod (a / 60000) 60 ltac:(lia)).
  pose proof (Z.div_mod (b / 60000) 60 ltac:(lia)).
  pose proof (Z.div_div a 60000 60 ltac:(lia) ltac:(lia)) as Da'.
  pose proof (Z.div_div b 60000 60 ltac:(lia) ltac:(lia)) as Db'.
  change (60000 * 60) with 3600000 in Da', Db'.
  lia.
Qed.

(** X3: the formatter loses nothing below the millisecond: two accepted
    values formatted to the same string (with the same marker) round to
    the same number of milliseconds. *)
Theorem format_timestamp_injective (s1 s2 : PyFloat.float) (marker : str) :
  valid_time s1 = true ->
  valid_time s2 = true ->
  _format_timestamp s1 marker = _format_timestamp s2 marker ->
  millis s1 = millis s2.
Proof.
  intros H1 H2. rewrite !format_timestamp_layout by assumption.
  intros E. injection E as E.
  apply (hhmmss_mmm_injective marker); auto using millis_nonneg.
Qed.

Lemma format_timestamp_injective_witness :
  millis (PyFloat.decimal 12 1) = millis (PyFloat.decimal 12004 4).
Proof.
  apply (format_timestamp_injective (PyFloat.decimal 12 1)
           (PyFloat.decimal 12004 4) (lit ".")); vm_compute; reflexivity.
Defined.

(** ** More on the emitted text *)

Lemma startswith_app (p a b : str) :
  startswith p a = true -> startswith p (a ++ b) = true.
Proof.
  revert a; induction p as [|x p IH]; intros [|y a]; cbn; try easy.
  intros [H1 H2]%andb_true_iff. rewrite H1. cbn. auto.
Qed.

Lemma contains_app_l (p a b : str) :
  contains p a = true -> contains p (a ++ b) = true.
Proof.
  induction a as [|x a IH].
  - cbn. rewrite orb_false_r. intros H. destruct p; [|discriminate].
    destruct b; reflexivity.
  - cbn [contains app]. intros [H|H]%orb_true_iff; apply orb_true_iff.
    + left. apply (startswith_app p (x :: a) b H).
    + right. auto.
Qed.

Lemma contains_app_r (p a b : str) :
  contains p b = true -> contains p (a ++ b) = true.
Proof.
  intros H. induction a as [|x a IH]; [exact H|].
  cbn [contains app]. rewrite IH. apply orb_true_r.
Qed.

Lemma lstrip_suffix (s : str) : exists ws, s = ws ++ lstrip s.
Proof.
  induction s as [|c s [ws IH]]; [exists []; reflexivity|].
  cbn [lstrip]. destruct (isspace c).
  - exists (c :: ws). cbn. congruence.
  - exists []. reflexivity.
Qed.

Lemma strip_inside (s : str) : exists before after, s = before ++ strip s ++ after.
Proof.
  unfold strip, rstrip.
  destruct (lstrip_suffix s) as [ws1 E1].
  destruct (lstrip_suffix (rev (lstrip s))) as [ws2 E2].
  exists ws1, (rev ws2).
  rewrite <- rev_app_distr, <- E2, rev_involutive. exact E1.
Qed.

(** What [strip] keeps holds nothing the text did not hold. *)
Lemma contains_strip (p s : str) :
  contains p (strip s) = true -> contains p s = true.
Proof.
  intros H. destruct (strip_inside s) as (before & after & E). rewrite E.
  apply contains_app_r, contains_app_l, H.
Qed.

(** X4: the text written into a cue holds no arrow [-->], so it cannot be
    taken for a timing line, whenever the segment text holds no [--->]. *)
Theorem sanitize_arrow_free (t : str) :
  contains (lit "--->") t = false ->
  contains (lit "-->") (sanitize t) = false.
Proof.
  intros H. unfold sanitize.
  apply (replace_arrow_clean (List.length (strip t))); [lia|].
  destruct (contains (lit "--->") (strip t)) eqn:E; [|exact E].
  apply contains_strip in E. congruence.
Qed.

Lemma sanitize_arrow_free_witness :
  contains (lit "-->") (sanitize (lit "  a --> b -->  ")) = false.
Proof.
  apply (sanitize_arrow_free (lit "  a --> b -->  ")). reflexivity.
Defined.

Lemma lstrip_head (s : str) (c : N) (r : str) :
  lstrip s = c :: r -> isspace c = false.
Proof.
  induction s as [|x s IH]; [discriminate|]. cbn [lstrip].
  destruct (isspace x) eqn:Ex; [exact IH|]. intros H. injection H as <- _. exact Ex.
Qed.

Lemma replace_arrow_head_char (s : str) :
  hd_error (replace [45; 45; 62]%N [45; 62]%N s) = hd_error s.
Proof.
  destruct s as [|c s]; [reflexivity|].
  destruct (startswith [45; 45; 62]%N (c :: s)) eqn:E.
  - apply startswith_arrow in E as [r Er]. rewrite Er, replace_arrow_hit. reflexivity.
  - rewrite replace_arrow_miss by exact E. reflexivity.
Qed.

Lemma replace_arrow_last_char (n : nat) (s : str) (d : N) :
  (List.length s <= n)%nat ->
  last (replace [45; 45; 62]%N [45; 62]%N s) d = last s d.
Proof.
  revert s; induction n as [|n IH]; intros s Hn.
  - destruct s; [reflexivity | cbn in Hn; lia].
  - destruct s as [|c s]; [reflexivity|].
    destruct (startswith [45; 45; 62]%N (c :: s)) eqn:E.
    + apply startswith_arrow in E as [r Er]. rewrite Er, replace_arrow_hit.
      assert (Hr : (List.length r <= n)%nat).
      { apply (f_equal (@List.length N)) in Er. cbn in Er, Hn. lia. }
      specialize (IH r Hr).
      destruct r as [|x r]; [reflexivity|].
      change (last (45 :: 62 :: replace [45; 45; 62] [45; 62] (x :: r)) d)%N
        with (last (62 :: replace [45; 45; 62] [45; 62] (x :: r)) d)%N.
      change (last (45 :: 45 :: 62 :: x :: r) d)%N with (last (x :: r) d).
      rewrite <- IH.
      destruct (replace [45; 45; 62]%N [45; 62]%N (x :: r)) eqn:Er2; [|reflexivity].
      pose proof (replace_arrow_head_char (x :: r)) as Hh. rewrite Er2 in Hh.
      discriminate.
    + rewrite replace_arrow_miss by exact E.
      assert (Hs : (List.length s <= n)%nat) by (cbn in Hn; lia).
      specialize (IH s Hs).
      destruct s as [|x s]; [reflexivity|].
      change (last (c :: x :: s) d) with (last (x :: s) d). rewrite <- IH.
      destruct (replace [45; 45; 62]%N [45; 62]%N (x :: s)) eqn:Er2; [|reflexivity].
      pose proof (replace_arrow_head_char (x :: s)) as Hh. rewrite Er2 in Hh.
      discriminate.
Qed.

Lemma strip_ends (s : str) :
  (forall c r, strip s = c :: r -> isspace c = false)
  /\ (forall r c, strip s = r ++ [c] -> isspace c = false).
Proof.
  unfold strip, rstrip. split.
  - intros c r E.
    destruct (lstrip_suffix (rev (lstrip s))) as [ws E2].
    assert (E3 : lstrip s = rev (lstrip (rev (lstrip s))) ++ rev ws).
    { rewrite <- rev_app_distr, <- E2, rev_involutive. reflexivity. }
    rewrite E in E3. cbn in E3. apply (lstrip_head s c _ E3).
  - intros r c E. apply (f_equal (@rev N)) in E.
    rewrite rev_involutive, rev_app_distr in E. cbn in E.
    apply (lstrip_head _ _ _ E).
Qed.

(** X5: the text written into a cue neither starts nor ends with a
    whitespace character (in the sense of [str.isspace]). *)
Theorem sanitize_trimmed (t : str) :
  (forall c r, sanitize t = c :: r -> isspace c = false)
  /\ (forall r c, sanitize t = r ++ [c] -> isspace c = false).
Proof.
  unfold sanitize. change (lit "-->") with [45; 45; 62]%N.
  change (lit "->") with [45; 62]%N.
  destruct (strip_ends t) as [Hhead Hlast]. split.
  - intros c r E.
    pose proof (replace_arrow_head_char (strip t)) as Hh. rewrite E in Hh.
    destruct (strip t) as [|x u] eqn:Eu; [discriminate|].
    injection Hh as ->. apply (Hhead x u eq_refl).
  - intros r c E.
    pose proof (replace_arrow_last_char (List.length (strip t)) (strip t) c
                  (le_n _)) as Hl.
    rewrite E, last_last in Hl.
    destruct (strip t) as [|x u] eqn:Eu.
    + destruct r; discriminate.
    + destruct (exists_last (l := x :: u)) as (u' & y & Ey); [discriminate|].
      rewrite Ey, last_last in Hl. subst y. apply (Hlast u' c Ey).
Qed.

Lemma sanitize_trimmed_witness :
  isspace 97%N = false.
Proof.
  apply (proj1 (sanitize_trimmed (lit "  a --> b  ")) 97%N (lit " -> b")).
  reflexivity.
Defined.

(** ** A segment that cannot be written *)

Lemma format_timestamp_invalid (seconds : PyFloat.float) (marker : str) :
  valid_time seconds = false ->
  exists e,
    _format_timestamp seconds marker = Raise e
    /\ (exn_cls e = AssertionError \/ exn_cls e = OverflowError).
Proof.
  intros Hv. pose proof (format_timestamp_outcomes seconds marker) as H.
  destruct (_format_timestamp seconds marker) as [out|e]; [congruence|].
  exists e. split; [reflexivity|].
  destruct H as [[_ ->]|(_ & _ & ->)]; cbn; auto.
Qed.

Lemma vtt_text_refused (i : Z) (s : segment) (a b : str) :
  encodable (text s) = false -> encodable (vtt_text i s a b) = false.
Proof.
  intros H. unfold vtt_text. rewrite !encodable_app, encodable_sanitize, H.
  destruct (encodable a), (encodable b); reflexivity.
Qed.

Lemma srt_text_refused (i : Z) (s : segment) (a b : str) :
  encodable (text s) = false -> encodable (srt_text i s a b) = false.
Proof.
  intros H. unfold srt_text. rewrite !encodable_app, encodable_sanitize, H.
  destruct (encodable (str_of_int i)), (encodable a), (encodable b); reflexivity.
Qed.

(** On a segment that is not valid the body of the loop raises and
    writes nothing: the formatter refuses a time, or the file refuses the
    text. *)
Lemma cue_body_invalid (path sep : str)
  (content : Z -> segment -> str -> str -> str) (i : Z) (s : segment) (w : world) :
  (forall a b, encodable (text s) = false -> encodable (content i s a b) = false) ->
  valid_segment s = false ->
  exists e,
    (start <- lift (_format_timestamp (start s) sep) ;;
     end_ <- lift (_format_timestamp (end_ s) sep) ;;
     f_write path (content i s start end_)) w = (Raise e, w)
    /\ if valid_time (start s) && valid_time (end_ s)
       then exn_cls e = UnicodeEncodeError
       else exn_cls e = AssertionError \/ exn_cls e = OverflowError.
Proof.
  unfold valid_segment. intros Hc Hv. unfold bind, lift, ret, raise.
  destruct (valid_time (start s)) eqn:H1.
  - rewrite (format_timestamp_layout _ sep H1).
    destruct (valid_time (end_ s)) eqn:H2; cbn [andb] in *.
    + rewrite (format_timestamp_layout _ sep H2).
      apply f_write_refused, Hc, Hv.
    + destruct (format_timestamp_invalid (end_ s) sep H2) as (e & -> & He).
      exists e. auto.
  - destruct (format_timestamp_invalid (start s) sep H1) as (e & -> & He).
    exists e. auto.
Qed.

Section Truncated.

Variable path : str.
Variable blk : Z -> segment -> str.
Variable body : Z -> segment -> M unit.

Hypothesis body_run : forall i s w,
  valid_segment s = true ->
  body i s w = (Ok tt, with_files (write_one path (blk i s) (files w)) w).

Hypothesis body_fail : forall i s w,
  valid_segment s = false ->
  exists e,
    body i s w = (Raise e, w)
    /\ if valid_time (start s) && valid_time (end_ s)
       then exn_cls e = UnicodeEncodeError
       else exn_cls e = AssertionError \/ exn_cls e = OverflowError.

(** The loop stops at the first item that cannot be written; what was
    written for the items before it stays. *)
Lemma for_list_truncated (bad : segment) (rest good : list segment) :
  valid_segment bad = false ->
  forall i w,
    forallb valid_segment good = true ->
    exists e w',
      for_list body i (good ++ bad :: rest) w = (Raise e, w')
      /\ files w' = write_blocks path blk i good (files w)
      /\ if valid_time (start bad) && valid_time (end_ bad)
         then exn_cls e = UnicodeEncodeError
         else exn_cls e = AssertionError \/ exn_cls e = OverflowError.
Proof.
  intros Hbad. induction good as [|s good IH]; intros i w Hv; cbn [app for_list].
  - destruct (body_fail i bad w Hbad) as (e & Eb & He).
    exists e, w. rewrite (bind_raise _ _ _ _ _ Eb). auto.
  - cbn in Hv. apply andb_true_iff in Hv as [Hs Hg].
    rewrite (bind_ok _ _ _ _ _ (body_run i s w Hs)).
    destruct (IH (i + 1) (with_files (write_one path (blk i s) (files w)) w) Hg)
      as (e & w' & Er & Ef & He).
    exists e, w'. auto.
Qed.

End Truncated.

(** X6: when a segment cannot be written, [write_vtt] raises at that
    segment and leaves a truncated file, the header and the cues of the
    segments before it: it raises [AssertionError] or [OverflowError]
    when the start or the end cannot be formatted (negative, NaN or too
    large), and [UnicodeEncodeError] when both can but the text holds a
    surrogate, which the UTF-8 file refuses. *)
Theorem write_vtt_truncated (E : env) (good : list segment) (bad : segment)
  (rest : list segment) (path : str) (w : world) :
  openable E path = true ->
  forallb valid_segment good = true ->
  valid_segment bad = false ->
  exists e w',
    write_vtt E (SubtitleGenerator.__init__ (ListObj (good ++ bad :: rest))) path w
    = (Raise e, w')
    /\ (if valid_time (start bad) && valid_time (end_ bad)
        then exn_cls e = UnicodeEncodeError
        else exn_cls e = AssertionError \/ exn_cls e = OverflowError)
    /\ read_file path (files w') = Some (vtt_content good).
Proof.
  intros Ho Hg Hb. unfold write_vtt, for_in, SubtitleGenerator.__init__, transcript.
  rewrite (bind_ok _ _ _ _ _ (open_w_run E path w Ho)).
  rewrite (bind_ok _ _ _ _ _ (f_write_run path (lit "WEBVTT" ++ nl ++ nl) _ eq_refl)).
  set (w0 := with_files _ (with_files _ w)). cbn [for_enumerate].
  destruct (for_list_truncated path vtt_block
              (fun _ segment =>
                 start <- lift (_format_timestamp (start segment) (lit ".")) ;;
                 end_ <- lift (_format_timestamp (end_ segment) (lit ".")) ;;
                 let text := sanitize (text segment) in
                 f_write path (start ++ lit " --> " ++ end_ ++ nl ++ text ++ nl ++ nl))
              (fun i s w1 => vtt_body_run path i s w1)
              (fun i s w1 =>
                 cue_body_invalid path (lit ".") vtt_text i s w1
                   (vtt_text_refused i s))
              bad rest good Hb 0 w0 Hg) as (e & w' & Er & Ef & He).
  exists e, w'. split; [exact Er|]. split; [exact He|].
  rewrite Ef.
  rewrite (read_write_blocks path vtt_block _ 0 _ (lit "WEBVTT" ++ nl ++ nl)).
  - rewrite vtt_blocks_concat. unfold vtt_content. rewrite <- !app_assoc. reflexivity.
  - subst w0. simpl. unfold write_one. simpl. rewrite str_eqb_refl.
    simpl. rewrite str_eqb_refl. reflexivity.
Qed.

Lemma write_vtt_truncated_witness :
  exists e w',
    write_vtt Sample.E
      (SubtitleGenerator.__init__
         (ListObj (scenario
                   ++ mkSegment (PyFloat.decimal 25 1) (PyFloat.decimal 3 0)
                        (lit "a" ++ [55357%N] ++ lit "b")
                   :: scenario)))
      (lit "out.vtt") Sample.initial
    = (Raise e, w')
    /\ exn_cls e = UnicodeEncodeError
    /\ read_file (lit "out.vtt") (files w') = Some (vtt_content scenario).
Proof.
  destruct (write_vtt_truncated Sample.E scenario
              (mkSegment (PyFloat.decimal 25 1) (PyFloat.decimal 3 0)
                 (lit "a" ++ [55357%N] ++ lit "b"))
              scenario (lit "out.vtt") Sample.initial)
    as (e & w' & Er & He & Ef);
    [reflexivity | vm_compute; reflexivity | vm_compute; reflexivity |].
  exists e, w'. vm_compute in He. split; [exact Er|]. split; [exact He | exact Ef].
Defined.

(** X7: in the same case [write_srt] raises in the same way and leaves
    the numbered cues of the segments before the one that cannot be
    written. *)
Theorem write_srt_truncated (E : env) (good : list segment) (bad : segment)
  (rest : list segment) (path : str) (w : world) :
  openable E path = true ->
  forallb valid_segment good = true ->
  valid_segment bad = false ->
  exists e w',
    write_srt E (SubtitleGenerator.__init__ (ListObj (good ++ bad :: rest))) path w
    = (Raise e, w')
    /\ (if valid_time (start bad) && valid_time (end_ bad)
        then exn_cls e = UnicodeEncodeError
        else exn_cls e = AssertionError \/ exn_cls e = OverflowError)
    /\ read_file path (files w') = Some (srt_content good).
Proof.
  intros Ho Hg Hb. unfold write_srt, SubtitleGenerator.__init__, transcript.
  rewrite (bind_ok _ _ _ _ _ (open_w_run E path w Ho)).
  set (w0 := with_files _ w). cbn [for_enumerate].
  destruct (for_list_truncated path srt_block
              (fun i segment =>
                 start <- lift (_format_timestamp (start segment) (lit ",")) ;;
                 end_ <- lift (_format_timestamp (end_ segment) (lit ",")) ;;
                 let text := sanitize (text segment) in
                 f_write path (str_of_int i ++ nl ++ start ++ lit " --> " ++ end_ ++ nl
                               ++ text ++ nl ++ nl))
              (fun i s w1 => srt_body_run path i s w1)
              (fun i s w1 =>
                 cue_body_invalid path (lit ",") srt_text i s w1
                   (srt_text_refused i s))
              bad rest good Hb 1 w0 Hg) as (e & w' & Er & Ef & He).
  exists e, w'. split; [exact Er|]. split; [exact He|].
  rewrite Ef.
  rewrite (read_write_blocks path srt_block _ 1 _ []).
  - rewrite srt_blocks_eq. reflexivity.
  - subst w0. simpl. rewrite str_eqb_refl. reflexivity.
Qed.

Lemma write_srt_truncated_witness :
  exists e w',
    write_srt Sample.E
      (SubtitleGenerator.__init__
         (ListObj (scenario
                   ++ mkSegment (PyFloat.decimal 1 0) (S754_infinity false) (lit "x")
                   :: scenario)))
      (lit "out.srt") Sample.initial
    = (Raise e, w')
    /\ (exn_cls e = AssertionError \/ exn_cls e = OverflowError)
    /\ read_file (lit "out.srt") (files w') = Some (srt_content scenario).
Proof.
  destruct (write_srt_truncated Sample.E scenario
              (mkSegment (PyFloat.decimal 1 0) (S754_infinity false) (lit "x"))
              scenario (lit "out.srt") Sample.initial)
    as (e & w' & Er & He & Ef);
    [reflexivity | vm_compute; reflexivity | vm_compute; reflexivity |].
  exists e, w'. vm_compute in He. split; [exact Er|]. split; [exact He | exact Ef].
Defined.

(** ** Names and discovery *)

Lemma after_last_absent (c : N) (s : str) :
  existsb (N.eqb c) s = false -> OsPath.after_last c s = (s, false).
Proof.
  induction s as [|x s IH]; [reflexivity|]. cbn [existsb OsPath.after_last].
  intros [Hx Hs]%orb_false_iff. rewrite (IH Hs), N.eqb_sym, Hx. reflexivity.
Qed.

Lemma after_last_split (c : N) (a b : str) :
  existsb (N.eqb c) b = false ->
  OsPath.after_last c (a ++ c :: b) = (b, true).
Proof.
  intros Hb. induction a as [|x a IH]; cbn [app OsPath.after_last].
  - rewrite (after_last_absent c b Hb), N.eqb_refl. reflexivity.
  - rewrite IH. reflexivity.
Qed.

Lemma basename_join (dir name : str) :
  existsb (N.eqb OsPath.slash) name = false ->
  OsPath.basename (dir ++ OsPath.slash :: name) = name.
Proof.
  intros H. unfold OsPath.basename. rewrite after_last_split by exact H. reflexivity.
Qed.

Lemma splitext_root_split (stem e : str) :
  existsb (N.eqb OsPath.dot) e = false ->
  OsPath.splitext_root (stem ++ OsPath.dot :: e)
  = if existsb (fun c => negb (N.eqb c OsPath.dot)) stem
    then stem else stem ++ OsPath.dot :: e.
Proof.
  intros He. unfold OsPath.splitext_root. rewrite after_last_split by exact He.
  replace (List.length (stem ++ OsPath.dot :: e) - S (List.length e))%nat
    with (List.length stem + 0)%nat by (rewrite length_app; cbn; lia).
  rewrite firstn_app_2. cbn [firstn]. rewrite app_nil_r. reflexivity.
Qed.

Lemma existsb_app_false {A} (f : A -> bool) (a b : list A) :
  existsb f (a ++ b) = false <-> existsb f a = false /\ existsb f b = false.
Proof. rewrite existsb_app. apply orb_false_iff. Qed.

(** X8: for a video [<dir>/<stem>.<ext>] whose stem holds no slash and
    at least one character that is not a dot, and whose extension holds
    neither dot nor slash, [_get_filename] is the stem, dots inside the
    stem included; when the stem is empty or made of dots only (a hidden
    file such as [.mp4]), it is the whole file name. *)
Theorem get_filename_stem (dir stem ext : str) :
  existsb (N.eqb OsPath.slash) stem = false ->
  existsb (N.eqb OsPath.slash) ext = false ->
  existsb (N.eqb OsPath.dot) ext = false ->
  _get_filename (dir ++ OsPath.slash :: stem ++ OsPath.dot :: ext)
  = if existsb (fun c => negb (N.eqb c OsPath.dot)) stem
    then stem else stem ++ OsPath.dot :: ext.
Proof.
  intros Hs He Hd. unfold _get_filename.
  rewrite basename_join.
  - apply splitext_root_split, Hd.
  - apply existsb_app_false. split; [exact Hs|]. cbn [existsb].
    rewrite He. reflexivity.
Qed.

Lemma get_filename_stem_witness :
  _get_filename (lit "video_src" ++ OsPath.slash :: lit "my.talk" ++ OsPath.dot :: lit "mkv")
  = lit "my.talk".
Proof.
  apply (get_filename_stem (lit "video_src") (lit "my.talk") (lit "mkv"));
    reflexivity.
Defined.

(** The two cases of discovery. *)
Lemma get_video_files_cases (E : env) (w : world) :
  (isdir E VIDEO_SRC_DIR = false ->
   _get_video_files E w
   = (Ok [], mkWorld (filters w) (files w) (iters w) (model w)
               (trace w ++ [EvPrint (lit "Error: Source directory not found: 'video_src'")])))
  /\ (isdir E VIDEO_SRC_DIR = true ->
      exists video_files,
        _get_video_files E w = (Ok video_files, w)
        /\ video_files
           = List.map (OsPath.join VIDEO_SRC_DIR)
               (List.filter supported (listdir E VIDEO_SRC_DIR))
        /\ forall p,
             In p video_files <->
             exists f, In f (listdir E VIDEO_SRC_DIR)
                       /\ p = OsPath.join VIDEO_SRC_DIR f
                       /\ (endswith (lit ".mp4") f = true
                           \/ endswith (lit ".mov") f = true
                           \/ endswith (lit ".avi") f = true
                           \/ endswith (lit ".mkv") f = true)).
Proof.
  unfold _get_video_files. split; intros Hd; rewrite Hd; cbn [negb].
  - reflexivity.
  - eexists. split; [reflexivity|]. split; [reflexivity|].
    intros p. rewrite in_map_iff. split.
    + intros (f & <- & Hf). apply filter_In in Hf as [Hin Hs].
      exists f. split; [exact Hin|]. split; [reflexivity|].
      unfold supported, SUPPORTED_EXTENSIONS in Hs. cbn [existsb] in Hs.
      rewrite orb_false_r, !orb_true_iff in Hs. tauto.
    + intros (f & Hin & -> & Hs). exists f. split; [reflexivity|].
      apply filter_In. split; [exact Hin|].
      unfold supported, SUPPORTED_EXTENSIONS. cbn [existsb].
      rewrite orb_false_r, !orb_true_iff. tauto.
Qed.

(** X9: discovery.  Without source directory it prints the error line
    and yields nothing; with it, it prints nothing, changes nothing and
    yields, in the order of the listing, exactly the listed names that end
    (case-sensitively) with one of the four extensions, each joined to
    [video_src]. *)
Theorem get_video_files_discovery (E : env) (w : world) :
  (isdir E VIDEO_SRC_DIR = false ->
   _get_video_files E w
   = (Ok [], mkWorld (filters w) (files w) (iters w) (model w)
               (trace w ++ [EvPrint (lit "Error: Source directory not found: 'video_src'")])))
  /\ (isdir E VIDEO_SRC_DIR = true ->
      exists video_files,
        _get_video_files E w = (Ok video_files, w)
        /\ video_files
           = List.map (OsPath.join VIDEO_SRC_DIR)
               (List.filter supported (listdir E VIDEO_SRC_DIR))
        /\ forall p,
             In p video_files <->
             exists f, In f (listdir E VIDEO_SRC_DIR)
                       /\ p = OsPath.join VIDEO_SRC_DIR f
                       /\ (endswith (lit ".mp4") f = true
                           \/ endswith (lit ".mov") f = true
                           \/ endswith (lit ".avi") f = true
                           \/ endswith (lit ".mkv") f = true)).
Proof. exact (get_video_files_cases E w). Qed.

Lemma get_video_files_discovery_witness :
  fst (_get_video_files Sample.E Sample.initial)
  = Ok [lit "video_src/clip.mp4"; lit "video_src/bad.mov"; lit "video_src/talk.mkv"].
Proof.
  destruct (get_video_files_discovery Sample.E Sample.initial) as [_ H].
  destruct (H eq_refl) as (vf & E1 & E2 & _). rewrite E1. cbn [fst].
  rewrite E2. vm_compute. reflexivity.
Defined.

(** ** The run *)

(** X10: a run that discovers no video (no source directory, or no listed
    name with a supported extension) returns normally after the line
    [No videos found ...]: the model is not loaded, no subprocess is
    started, nothing is transcribed, and files and warning filters are
    left as they were. *)
Theorem run_without_videos (E : env) (completion : list nat) (w : world) :
  add_paths E = Ok tt ->
  makedirs E OUTPUT_DIR = Ok tt ->
  fst (_get_video_files E w) = Ok [] ->
  exists w' notes,
    run E completion w = (Ok tt, w')
    /\ trace w'
       = trace w ++ notes
           ++ [EvPrint (lit "No videos found in 'video_src'. Please add video files to begin.")]
    /\ (notes = []
        \/ notes = [EvPrint (lit "Error: Source directory not found: 'video_src'")])
    /\ files w' = files w
    /\ filters w' = filters w
    /\ model w' = model w.
Proof.
  intros Hadd Hmk Hnone. unfold run. rewrite Hadd, Hmk. unfold lift at 1 2.
  rewrite (bind_ok _ _ w w tt) by reflexivity.
  rewrite (bind_ok _ _ w w tt) by reflexivity.
  destruct (get_video_files_cases E w) as [Hno Hyes].
  destruct (isdir E VIDEO_SRC_DIR) eqn:Hd.
  - destruct (Hyes eq_refl) as (vf & Er & _). rewrite Er in Hnone.
    cbn [fst] in Hnone. injection Hnone as ->.
    rewrite (bind_ok _ _ _ _ _ Er).
    eexists; exists []. split; [reflexivity|]. cbn. auto 10.
  - rewrite (bind_ok _ _ _ _ _ (Hno eq_refl)).
    eexists; eexists. split; [reflexivity|]. cbn -[lit].
    rewrite <- app_assoc. auto 10.
Qed.

Lemma run_without_videos_witness :
  let E := mkEnv (Ok tt) (fun _ => Ok tt) (fun _ => false) (fun _ => [])
             (load_model Sample.E) (subprocess_run Sample.E) (decode Sample.E)
             (transcribe Sample.E) (openable Sample.E) (open_error Sample.E) in
  exists w' notes,
    run E [] Sample.initial = (Ok tt, w')
    /\ trace w'
       = trace Sample.initial ++ notes
           ++ [EvPrint (lit "No videos found in 'video_src'. Please add video files to begin.")]
    /\ (notes = []
        \/ notes = [EvPrint (lit "Error: Source directory not found: 'video_src'")])
    /\ files w' = files Sample.initial
    /\ filters w' = filters Sample.initial
    /\ model w' = model Sample.initial.
Proof.
  intros E. apply (run_without_videos E [] Sample.initial); reflexivity.
Defined.

(** X11: the model is loaded once: [_load_model] does nothing when the
    model is there, so calling it twice is calling it once; and when it
    returns the model is there. *)
Theorem load_model_once (E : env) (w : world) :
  (model w = true -> _load_model E w = (Ok tt, w))
  /\ (_load_model E ;; _load_model E) w = _load_model E w
  /\ (fst (_load_model E w) = Ok tt -> model (snd (_load_model E w)) = true).
Proof.
  unfold _load_model, bind, get, print, emit, lift, set_model, ret, raise.
  cbn [fst snd model]. destruct (model w) eqn:Hm.
  - rewrite Hm. auto.
  - split; [discriminate|]. destruct (load_model E MODEL_NAME) as [[]|e]; cbn; auto.
    split; [reflexivity | discriminate].
Qed.

Lemma load_model_once_witness :
  _load_model Sample.E (mkWorld [] [] [] true []) = (Ok tt, mkWorld [] [] [] true []).
Proof.
  apply (proj1 (load_model_once Sample.E (mkWorld [] [] [] true []))). reflexivity.
Defined.

(** X12: [main] starts from a processor without model, and what fails
    before the jobs is fatal to the run: an exception of
    [static_ffmpeg.add_paths], of [os.makedirs] or, once a video is
    discovered, of [whisper.load_model] leaves [main] with that exception,
    no job started and no file written. *)
Theorem main_setup_failures (E : env) (completion : list nat) (w : world) (e : exn) :
  let fresh := mkWorld (filters w) (files w) (iters w) false in
  (add_paths E = Raise e -> Entry.main E completion w = (Raise e, fresh (trace w)))
  /\ (add_paths E = Ok tt -> makedirs E OUTPUT_DIR = Raise e ->
      Entry.main E completion w = (Raise e, fresh (trace w)))
  /\ (add_paths E = Ok tt -> makedirs E OUTPUT_DIR = Ok tt ->
      isdir E VIDEO_SRC_DIR = true ->
      List.filter supported (listdir E VIDEO_SRC_DIR) <> [] ->
      load_model E MODEL_NAME = Raise e ->
      Entry.main E completion w
      = (Raise e,
         fresh (trace w
                ++ [EvPrint (lit "Initializing AI Model: 'small'... (This may take a moment on first run)")]))).
Proof.
  intros fresh. unfold Entry.main, Entry.__init__.
  rewrite (bind_ok _ _ w (fresh (trace w)) tt) by reflexivity.
  unfold run. split; [|split].
  - intros ->. reflexivity.
  - intros -> ->. reflexivity.
  - intros -> -> Hd Hne Hl. unfold lift at 1 2.
    rewrite (bind_ok _ _ _ (fresh (trace w)) tt) by reflexivity.
    rewrite (bind_ok _ _ _ (fresh (trace w)) tt) by reflexivity.
    destruct (get_video_files_cases E (fresh (trace w))) as [_ Hyes].
    destruct (Hyes Hd) as (vf & Er & Ev & _).
    rewrite (bind_ok _ _ _ _ _ Er).
    destruct vf as [|p ps].
    + symmetry in Ev. apply map_eq_nil in Ev. contradiction.
    + apply bind_raise.
      unfold _load_model, bind, get, print, emit, lift, set_model, ret, raise.
      cbn [fst snd model fresh]. rewrite Hl. reflexivity.
Qed.

Lemma main_setup_failures_witness :
  let boom := mkExn OSError (lit "result") in
  let E := mkEnv (Ok tt) (fun _ => Raise boom) (isdir Sample.E) (listdir Sample.E)
             (load_model Sample.E) (subprocess_run Sample.E) (decode Sample.E)
             (transcribe Sample.E) (openable Sample.E) (open_error Sample.E) in
  Entry.main E [0]%nat Sample.initial = (Raise boom, Sample.initial).
Proof.
  intros boom E.
  destruct (main_setup_failures E [0]%nat Sample.initial boom) as (_ & H & _).
  apply H; reflexivity.
Defined.

(** ** What a job writes *)

Lemma files_refl (P : str -> bool) (w : world) : files_step P w w.
Proof. intros q _. reflexivity. Qed.

Lemma files_trans (P : str -> bool) (a b c : world) :
  files_step P a b -> files_step P b c -> files_step P a c.
Proof. intros H1 H2 q Hq. rewrite (H2 q Hq). apply H1, Hq. Qed.

Lemma files_emit (P : str -> bool) (e : event) : respects (files_step P) (emit e).
Proof. intros w q _. reflexivity. Qed.

Lemma files_filterwarnings (P : str -> bool) (a : Warnings.action) :
  respects (files_step P) (filterwarnings a).
Proof. intros w q _. reflexivity. Qed.

Lemma files_set_pending (P : str -> bool) (id : nat) (items : list segment) :
  respects (files_step P) (set_pending id items).
Proof. intros w q _. reflexivity. Qed.

Lemma read_write_other (path s q : str) (fs : list (str * str)) :
  PyStr.eqb q path = false ->
  read_file q (write_one path s fs) = read_file q fs.
Proof.
  intros H. unfold write_one. destruct (read_file path fs); cbn; rewrite H; reflexivity.
Qed.

Lemma written_other (P : str -> bool) (path q : str) :
  P path = true -> P q = false -> PyStr.eqb q path = false.
Proof.
  intros Hp Hq. destruct (PyStr.eqb q path) eqn:E; [|reflexivity].
  apply str_eqb_eq in E. congruence.
Qed.

Lemma files_f_write (P : str -> bool) (path s : str) :
  P path = true -> respects (files_step P) (f_write path s).
Proof.
  intros Hp w q Hq. unfold f_write.
  destruct (Utf8.encode_error s); [reflexivity|].
  unfold bind, get.
  destruct (read_file path (files w)); cbn;
    rewrite (written_other P path q Hp Hq); reflexivity.
Qed.

Lemma files_open_w (P : str -> bool) (E : env) (path : str) :
  P path = true -> respects (files_step P) (open_w E path).
Proof.
  intros Hp w q Hq. unfold open_w. destruct (openable E path); [|reflexivity].
  cbn. rewrite (written_other P path q Hp Hq). reflexivity.
Qed.

Section RespectsLoops.

Variable rel : world -> world -> Prop.
Hypothesis rel_refl : forall w, rel w w.
Hypothesis rel_trans : forall a b c, rel a b -> rel b c -> rel a c.
Hypothesis rel_set_pending : forall id items, respects rel (set_pending id items).

Variable body : Z -> segment -> M unit.
Hypothesis rel_body : forall i s, respects rel (body i s).

Lemma respects_for_list (l : list segment) :
  forall i, respects rel (for_list body i l).
Proof.
  induction l as [|x l IH]; intros i; cbn [for_list].
  - apply respects_ret, rel_refl.
  - apply respects_bind; [exact rel_trans | apply rel_body | intros _; apply IH].
Qed.

Lemma respects_for_iter (id : nat) (l : list segment) :
  forall i, respects rel (for_iter body id i l).
Proof.
  induction l as [|x l IH]; intros i; cbn [for_iter].
  - apply respects_ret, rel_refl.
  - apply respects_bind; [exact rel_trans | apply rel_set_pending | intros _].
    apply respects_bind; [exact rel_trans | apply rel_body | intros _; apply IH].
Qed.

Lemma respects_for_enumerate (i0 : Z) (t : iterable) :
  respects rel (for_enumerate body i0 t).
Proof.
  destruct t as [l|id]; cbn [for_enumerate].
  - apply respects_for_list.
  - apply respects_bind; [exact rel_trans | apply respects_get, rel_refl |].
    intros todo. apply respects_for_iter.
Qed.

End RespectsLoops.

Lemma files_write_vtt (P : str -> bool) (E : env) (g : SubtitleGenerator.t)
  (path : str) :
  P path = true -> respects (files_step P) (write_vtt E g path).
Proof.
  intros Hp. unfold write_vtt, for_in.
  apply respects_bind; [apply files_trans | apply files_open_w, Hp | intros _].
  apply respects_bind; [apply files_trans | apply files_f_write, Hp | intros _].
  apply respects_for_enumerate;
    [apply files_refl | apply files_trans | apply files_set_pending |].
  intros i s.
  apply respects_bind; [apply files_trans | apply respects_lift, files_refl | intros a].
  apply respects_bind; [apply files_trans | apply respects_lift, files_refl | intros b].
  apply files_f_write, Hp.
Qed.

Lemma files_write_srt (P : str -> bool) (E : env) (g : SubtitleGenerator.t)
  (path : str) :
  P path = true -> respects (files_step P) (write_srt E g path).
Proof.
  intros Hp. unfold write_srt.
  apply respects_bind; [apply files_trans | apply files_open_w, Hp | intros _].
  apply respects_for_enumerate;
    [apply files_refl | apply files_trans | apply files_set_pending |].
  intros i s.
  apply respects_bind; [apply files_trans | apply respects_lift, files_refl | intros a].
  apply respects_bind; [apply files_trans | apply respects_lift, files_refl | intros b].
  apply files_f_write, Hp.
Qed.

Lemma files_extract_audio (P : str -> bool) (E : env) (video_path : str) :
  respects (files_step P) (_extract_audio E video_path).
Proof.
  unfold _extract_audio, print.
  repeat (apply respects_bind; [apply files_trans | apply files_emit | intros _]).
  destruct (subprocess_run E _).
  - apply respects_bind; [apply files_trans | apply respects_lift, files_refl | intros ?].
    apply respects_ret, files_refl.
  - apply respects_bind; [apply files_trans | apply files_emit | intros _].
    apply respects_bind; [apply files_trans | apply respects_lift, files_refl | intros ?].
    apply respects_bind; [apply files_trans | apply files_emit | intros _].
    apply respects_ret, files_refl.
  - apply respects_raise, files_refl.
Qed.

Lemma files_model_transcribe (P : str -> bool) (E : env)
  (audio : list Float32.float32) :
  respects (files_step P) (model_transcribe E audio).
Proof.
  unfold model_transcribe.
  apply respects_bind; [apply files_trans | apply respects_get, files_refl | intros loaded].
  destruct loaded; cbn [negb]; [|apply respects_raise, files_refl].
  apply respects_bind; [apply files_trans | apply respects_get, files_refl | intros fs].
  apply respects_bind; [apply files_trans | apply files_emit | intros _].
  apply respects_bind; [apply files_trans | apply respects_lift, files_refl | intros v].
  destruct v.
  - apply respects_ret, files_refl.
  - apply respects_bind; [apply files_trans | apply respects_get, files_refl | intros its].
    apply respects_bind; [apply files_trans | | intros _; apply respects_ret, files_refl].
    intros w q _. reflexivity.
Qed.

(** X13: a job creates or changes no file but its own two,
    [result/<name>.vtt] and [result/<name>.srt], however it ends. *)
Theorem job_writes_only_its_files (E : env) (video_path : str) (w : world) (q : str) :
  q <> vtt_path_of video_path ->
  q <> srt_path_of video_path ->
  read_file q (files (snd (_process_single_video E video_path w)))
  = read_file q (files w).
Proof.
  intros Hv Hs.
  set (P := fun x => PyStr.eqb x (vtt_path_of video_path)
                     || PyStr.eqb x (srt_path_of video_path)).
  assert (Pv : P (vtt_path_of video_path) = true)
    by (unfold P; rewrite str_eqb_refl; reflexivity).
  assert (Ps : P (srt_path_of video_path) = true)
    by (unfold P; rewrite str_eqb_refl; apply orb_true_r).
  assert (Pq : P q = false).
  { unfold P. apply orb_false_iff. split.
    - destruct (PyStr.eqb q (vtt_path_of video_path)) eqn:E1; [|reflexivity].
      apply str_eqb_eq in E1. contradiction.
    - destruct (PyStr.eqb q (srt_path_of video_path)) eqn:E1; [|reflexivity].
      apply str_eqb_eq in E1. contradiction. }
  assert (H : respects (files_step P) (exec (_process_single_video E video_path))).
  { intros w0. rewrite process_single_video_alone. revert w0.
    apply respects_bind; [apply files_trans | apply files_extract_audio | intros [audio|]];
      [|apply respects_ret, files_refl].
    unfold print.
    apply respects_bind; [apply files_trans | apply files_emit | intros _].
    apply respects_bind; [apply files_trans | apply files_filterwarnings | intros _].
    apply respects_bind; [apply files_trans | apply files_model_transcribe | intros t].
    apply respects_bind; [apply files_trans | apply files_filterwarnings | intros _].
    cbv zeta.
    apply respects_bind; [apply files_trans | apply files_write_vtt, Pv | intros _].
    apply respects_bind; [apply files_trans | apply files_write_srt, Ps | intros _].
    apply files_emit. }
  apply (H w q Pq).
Qed.

Lemma job_writes_only_its_files_witness :
  read_file (lit "result/other.vtt")
    (files (snd (_process_single_video Sample.E (lit "video_src/clip.mp4")
                   (mkWorld [] [(lit "result/other.vtt", lit "kept")] [] true []))))
  = Some (lit "kept").
Proof.
  rewrite (job_writes_only_its_files Sample.E (lit "video_src/clip.mp4")
             (mkWorld [] [(lit "result/other.vtt", lit "kept")] [] true [])
             (lit "result/other.vtt"));
    [reflexivity | vm_compute; discriminate | vm_compute; discriminate].
Defined.

(** ** How a job goes *)

Lemma vtt_srt_distinct (video_path : str) :
  PyStr.eqb (vtt_path_of video_path) (srt_path_of video_path) = false.
Proof.
  unfold vtt_path_of, srt_path_of.
  set (name := _get_filename video_path).
  assert (H : exists pre, OsPath.join OUTPUT_DIR (name ++ lit ".vtt") = pre ++ lit ".vtt"
                          /\ OsPath.join OUTPUT_DIR (name ++ lit ".srt") = pre ++ lit ".srt").
  { unfold OsPath.join.
    change (PyStr.eqb OUTPUT_DIR [] || endswith [OsPath.slash] OUTPUT_DIR) with false.
    cbv iota. destruct name as [|c n].
    - exists (OUTPUT_DIR ++ [OsPath.slash]). split; rewrite <- app_assoc; reflexivity.
    - cbn [app startswith]. destruct (N.eqb OsPath.slash c); cbn [andb].
      + exists (c :: n). split; reflexivity.
      + exists (OUTPUT_DIR ++ [OsPath.slash] ++ c :: n).
        split; rewrite <- !app_assoc; reflexivity. }
  destruct H as (pre & -> & ->).
  destruct (PyStr.eqb (pre ++ lit ".vtt") (pre ++ lit ".srt")) eqn:E; [|reflexivity].
  apply str_eqb_eq, app_inv_head in E. discriminate.
Qed.

(** X14: a job that no other job overlaps and whose steps all succeed
    (audio extracted, a list of segments transcribed, every segment
    valid, that is with times the formatter accepts and a text the UTF-8
    file accepts, both files openable) returns, and leaves
    [result/<name>.vtt] and [result/<name>.srt] with the whole transcript
    in the two formats. *)
Theorem job_success (E : env) (video_path : str) (w : world)
  (audio : list Float32.float32) (segs : list segment) :
  fst (_extract_audio E video_path w) = Ok (Some audio) ->
  model w = true ->
  transcribe E audio TRANSCRIBE_ARGS = Ok (SegList segs) ->
  forallb valid_segment segs = true ->
  openable E (vtt_path_of video_path) = true ->
  openable E (srt_path_of video_path) = true ->
  exists w',
    exec (_process_single_video E video_path) w = (Ok tt, w')
    /\ read_file (vtt_path_of video_path) (files w') = Some (vtt_content segs)
    /\ read_file (srt_path_of video_path) (files w') = Some (srt_content segs).
Proof.
  intros Hx Hm Ht Hv Hov Hos. rewrite !process_single_video_alone.
  pose proof (job_extract_audio E video_path w) as (Hm1 & _).
  destruct (_extract_audio E video_path w) as [r w1] eqn:Ex.
  cbn [fst snd] in *. subst r.
  rewrite (bind_ok _ _ _ _ _ Ex).
  set (w2 := snd (print (lit "  Generating subtitles...") w1)).
  rewrite (bind_ok _ _ w1 w2 tt) by reflexivity.
  set (w3 := snd (filterwarnings Warnings.Ignore w2)).
  rewrite (bind_ok _ _ w2 w3 tt) by reflexivity.
  assert (Hm3 : model w3 = true) by (subst w3 w2; cbn; congruence).
  pose proof (model_transcribe_items E audio w3 Hm3) as Hmt. rewrite Ht in Hmt.
  destruct Hmt as (t & w4 & Er & Hitems & Hleft).
  assert (Et : t = ListObj segs).
  { destruct t as [l|id]; cbn in Hleft, Hitems; [congruence|].
    cbn in Hitems. rewrite <- Hleft in Hitems.
    revert Er. unfold model_transcribe, bind, get, emit, lift, ret.
    rewrite Hm3, Ht. cbn. discriminate. }
  subst t. rewrite (bind_ok _ _ _ _ _ Er).
  set (w5 := snd (filterwarnings Warnings.Default w4)).
  rewrite (bind_ok _ _ w4 w5 tt) by reflexivity.
  cbv zeta. fold (vtt_path_of video_path) (srt_path_of video_path).
  destruct (write_vtt_run E (ListObj segs) (vtt_path_of video_path) w5 Hov Hv)
    as (w6 & Ev & Fv & _ & _).
  rewrite (bind_ok _ _ _ _ _ Ev).
  destruct (write_srt_run E (ListObj segs) (srt_path_of video_path) w6 Hos Hv)
    as (w7 & Es & Fs & _ & _).
  rewrite (bind_ok _ _ _ _ _ Es).
  cbn [items_of] in Fv, Fs.
  eexists. split; [reflexivity|]. cbn [print emit snd files]. split; [|exact Fs].
  rewrite <- Fv.
  pose proof (files_write_srt (fun x => PyStr.eqb x (srt_path_of video_path)) E
                (SubtitleGenerator.__init__ (ListObj segs)) (srt_path_of video_path)
                (str_eqb_refl _) w6 (vtt_path_of video_path)
                (vtt_srt_distinct video_path)) as H.
  rewrite Es in H. exact H.
Qed.

Lemma job_success_witness :
  exists w',
    exec (_process_single_video Sample.E (lit "video_src/clip.mp4"))
      (mkWorld [] [] [] true []) = (Ok tt, w')
    /\ read_file (lit "result/clip.vtt") (files w') = Some (vtt_content scenario)
    /\ read_file (lit "result/clip.srt") (files w') = Some (srt_content scenario).
Proof.
  apply (job_success Sample.E (lit "video_src/clip.mp4") (mkWorld [] [] [] true [])
           (List.map normalize [0; -32768]) scenario);
    vm_compute; reflexivity.
Defined.

(** X15: a job whose extraction fails with diagnostics that decode
    prints them and returns: five events in the trace, nothing else
    touched. *)
Theorem extraction_failure_job (E : env) (video_path : str) (w : world)
  (stderr : list Byte.byte) (details : str) :
  subprocess_run E (ffmpeg_cmd video_path) = CalledProcessError stderr ->
  decode E stderr = Ok details ->
  _process_single_video E video_path w
  = (Ok tt,
     mkWorld (filters w) (files w) (iters w) (model w)
       (trace w
        ++ [EvPrint (lit "Processing: " ++ _get_filename video_path);
            EvPrint (lit "  - Extracting audio...");
            EvSubprocess (ffmpeg_cmd video_path);
            EvPrint (lit "  - Error: FFmpeg failed to extract audio. Details below:");
            EvPrint (lit "    " ++ details)])).
Proof.
  intros Hrun Hd.
  rewrite !process_single_video_alone. unfold _extract_audio, bind, print, emit, lift, ret, raise.
  cbn [fst snd trace filters files iters model]. rewrite Hrun, Hd.
  cbn [fst snd trace filters files iters model]. rewrite <- !app_assoc. reflexivity.
Qed.

Lemma extraction_failure_job_witness :
  fst (_process_single_video Sample.E (lit "video_src/bad.mov") Sample.initial) = Ok tt.
Proof.
  rewrite (extraction_failure_job Sample.E (lit "video_src/bad.mov") Sample.initial
             [] (lit "moov atom not found")); reflexivity.
Defined.

(** X16: of a job that no other job overlaps: when the model raises, the
    job raises the same exception, no file is created or changed between
    its start and its end, and the catch-all [ignore] filter set for the
    call is at the head of the warning filters when the job ends. *)
Theorem transcription_failure_job (E : env) (video_path : str) (w : world)
  (audio : list Float32.float32) (e : exn) :
  fst (_extract_audio E video_path w) = Ok (Some audio) ->
  model w = true ->
  transcribe E audio TRANSCRIBE_ARGS = Raise e ->
  let w' := snd (exec (_process_single_video E video_path) w) in
  fst (exec (_process_single_video E video_path) w) = Raise e
  /\ filters w'
     = Warnings.catch_all Warnings.Ignore
         :: Warnings.remove_first (Warnings.catch_all Warnings.Ignore) (filters w)
  /\ forall q, read_file q (files w') = read_file q (files w).
Proof.
  intros Hx Hm Ht w'.
  destruct (process_single_video_filters E video_path w audio Hx Hm) as [_ Hf].
  rewrite Ht in Hf. destruct Hf as [Hf Hr]. split; [exact Hr|]. split; [exact Hf|].
  intros q. subst w'. rewrite !process_single_video_alone.
  pose proof (files_extract_audio (fun _ => false) E video_path w q eq_refl) as F1.
  destruct (_extract_audio E video_path w) as [r w1] eqn:Ex.
  cbn [fst snd] in *. subst r.
  rewrite (bind_ok _ _ _ _ _ Ex).
  set (w2 := snd (print (lit "  Generating subtitles...") w1)).
  rewrite (bind_ok _ _ w1 w2 tt) by reflexivity.
  set (w3 := snd (filterwarnings Warnings.Ignore w2)).
  rewrite (bind_ok _ _ w2 w3 tt) by reflexivity.
  pose proof (files_model_transcribe (fun _ => false) E audio w3 q eq_refl) as F3.
  assert (Hm3 : model w3 = true).
  { pose proof (job_extract_audio E video_path w) as (Hm1 & _).
    rewrite Ex in Hm1. subst w3 w2. cbn in *. congruence. }
  pose proof (model_transcribe_items E audio w3 Hm3) as Hmt. rewrite Ht in Hmt.
  destruct (model_transcribe E audio w3) as [r4 w4] eqn:Em4.
  cbn [fst snd] in *. subst r4.
  rewrite (bind_raise _ _ w3 w4 e Em4). cbn [snd].
  rewrite F3. exact F1.
Qed.

Lemma transcription_failure_job_witness :
  exists e,
    fst (exec (_process_single_video Sample.E (lit "video_src/talk.mkv"))
           (mkWorld [] [] [] true [])) = Raise e.
Proof.
  eexists.
  apply (transcription_failure_job Sample.E (lit "video_src/talk.mkv")
           (mkWorld [] [] [] true []) []); reflexivity.
Defined.

(** X17: of a job that no other job overlaps: once the two catch-all
    entries head the warning filters, as they do after a first
    transcription, a job whose transcription returns ends with the
    filters exactly as it found them. *)
Theorem warnings_stable_after_first_job (E : env) (video_path : str) (w : world)
  (audio : list Float32.float32) (v : segments_value) (rest : list Warnings.filter) :
  fst (_extract_audio E video_path w) = Ok (Some audio) ->
  model w = true ->
  transcribe E audio TRANSCRIBE_ARGS = Ok v ->
  filters w
  = Warnings.catch_all Warnings.Default :: Warnings.catch_all Warnings.Ignore :: rest ->
  filters (snd (exec (_process_single_video E video_path) w)) = filters w.
Proof.
  intros Hx Hm Ht Hf.
  destruct (process_single_video_filters E video_path w audio Hx Hm) as [_ H].
  rewrite Ht in H. rewrite H, Hf. reflexivity.
Qed.

Lemma warnings_stable_after_first_job_witness :
  let w := mkWorld [Warnings.catch_all Warnings.Default;
                    Warnings.catch_all Warnings.Ignore] [] [] true [] in
  filters (snd (exec (_process_single_video Sample.E (lit "video_src/clip.mp4")) w))
  = filters w.
Proof.
  intros w.
  apply (warnings_stable_after_first_job Sample.E (lit "video_src/clip.mp4") w
           (List.map normalize [0; -32768]) (SegList scenario) []); reflexivity.
Defined.

(** X18: a job ends in the same way, returning or raising the same
    exception, in any two states of the process in which the model is
    loaded: files, filters, iterators and output left by other jobs do not
    change how it ends. *)
Theorem job_ends_alike (E : env) (video_path : str) (w1 w2 : world) :
  model w1 = true ->
  model w2 = true ->
  fst (_process_single_video E video_path w1)
  = fst (_process_single_video E video_path w2).
Proof.
  intros H1 H2. rewrite (job_outcome_run E video_path w1 H1).
  rewrite (job_outcome_run E video_path w2 H2). reflexivity.
Qed.

Lemma job_ends_alike_witness :
  fst (_process_single_video Sample.E (lit "video_src/talk.mkv")
         (mkWorld [] [] [] true []))
  = fst (_process_single_video Sample.E (lit "video_src/talk.mkv")
           (mkWorld [Warnings.catch_all Warnings.Ignore]
              [(lit "result/talk.vtt", lit "old")] [scenario] true
              [EvPrint (lit "earlier")])).
Proof.
  apply (job_ends_alike Sample.E (lit "video_src/talk.mkv")); reflexivity.
Defined.

(** ** More on the audio buffer *)

Lemma frombuffer_int16_odd (n : nat) :
  forall b, (List.length b <= n)%nat -> Nat.odd (List.length b) = true ->
  frombuffer_int16 b
  = Raise (mkExn ValueError (lit "buffer size must be a multiple of element size")).
Proof.
  induction n as [|n IH]; intros b Hn Ho.
  - destruct b; [discriminate | cbn in Hn; lia].
  - destruct b as [|lo [|hi rest]]; [discriminate | reflexivity |].
    cbn [frombuffer_int16]. rewrite IH; [reflexivity | cbn in Hn; lia | exact Ho].
Qed.

(** X19: when the decoder hands back an odd number of bytes, the job
    does not get a buffer: it raises [ValueError] before the model is
    called and before any file is opened. *)
Theorem odd_decode_raises (E : env) (video_path : str) (w : world)
  (stdout : list Byte.byte) :
  subprocess_run E (ffmpeg_cmd video_path) = Completed stdout ->
  Nat.odd (List.length stdout) = true ->
  _process_single_video E video_path w
  = (Raise (mkExn ValueError (lit "buffer size must be a multiple of element size")),
     mkWorld (filters w) (files w) (iters w) (model w)
       (trace w
        ++ [EvPrint (lit "Processing: " ++ _get_filename video_path);
            EvPrint (lit "  - Extracting audio...");
            EvSubprocess (ffmpeg_cmd video_path)])).
Proof.
  intros Hrun Ho.
  rewrite !process_single_video_alone. unfold _extract_audio, bind, print, emit, lift, ret, raise.
  cbn [fst snd trace filters files iters model]. rewrite Hrun.
  rewrite (frombuffer_int16_odd (List.length stdout) stdout (le_n _) Ho).
  cbn [fst snd]. rewrite <- !app_assoc. reflexivity.
Qed.

Lemma odd_decode_raises_witness :
  let E := mkEnv (Ok tt) (fun _ => Ok tt) (fun _ => true) (listdir Sample.E)
             (fun _ => Ok tt) (fun _ => Completed [Byte.x01; Byte.x02; Byte.x03])
             (decode Sample.E) (transcribe Sample.E) (fun _ => true)
             (open_error Sample.E) in
  exists e,
    fst (_process_single_video E (lit "video_src/clip.mp4") Sample.initial) = Raise e
    /\ exn_cls e = ValueError.
Proof.
  intros E. eexists.
  rewrite (odd_decode_raises E (lit "video_src/clip.mp4") Sample.initial
             [Byte.x01; Byte.x02; Byte.x03]); [|reflexivity|reflexivity].
  split; reflexivity.
Defined.

(** X20: the normalisation is exact and stays below one: for every
    signed 16-bit sample, the float32 quotient by 32768.0 is at least
    [-1.0], strictly less than [1.0], and gives the sample back when
    multiplied by 32768.0. *)
Theorem normalize_exact (v : Z) :
  -32768 <= v <= 32767 ->
  Float32.leb (Float32.of_int (-1)) (normalize v) = true
  /\ Float32.ltb (normalize v) (Float32.of_int 1) = true
  /\ Float32.mul (normalize v) (Float32.of_int 32768) = Float32.of_int v.
Proof.
  intros Hv.
  set (ok := fun x =>
               Float32.leb (Float32.of_int (-1)) (normalize x)
               && Float32.ltb (normalize x) (Float32.of_int 1)
               && match Float32.mul (normalize x) (Float32.of_int 32768),
                        Float32.of_int x with
                  | S754_zero a, S754_zero b => Bool.eqb a b
                  | S754_finite a m e, S754_finite b m' e' =>
                      Bool.eqb a b && Pos.eqb m m' && Z.eqb e e'
                  | _, _ => false
                  end).
  assert (H : ok v = true).
  { set (check := fun hi lo => ok (lo + 256 * hi - 32768)).
    assert (Hc : forall hi, 0 <= hi < 256 -> forall lo, 0 <= lo < 256 ->
                   check hi lo = true).
    { intros hi Hhi. apply (checked_range (check hi) 256). revert hi Hhi.
      apply (checked_range
               (fun hi => forallb (check hi) (List.map Z.of_nat (seq 0 256))) 256).
      vm_compute; reflexivity. }
    pose proof (Z.div_mod (v + 32768) 256 ltac:(lia)) as D.
    pose proof (Z.mod_pos_bound (v + 32768) 256 ltac:(lia)) as B.
    assert (0 <= (v + 32768) / 256 < 256)
      by (split; [apply Z.div_pos; lia | apply Z.div_lt_upper_bound; lia]).
    replace v with ((v + 32768) mod 256 + 256 * ((v + 32768) / 256) - 32768) by lia.
    apply Hc; lia. }
  unfold ok in H. apply andb_true_iff in H as [H H3].
  apply andb_true_iff in H as [H1 H2]. split; [exact H1|]. split; [exact H2|].
  destruct (Float32.mul (normalize v) (Float32.of_int 32768)) as [a| | |a m e];
    destruct (Float32.of_int v) as [b| | |b m' e']; try discriminate.
  - apply Bool.eqb_prop in H3. congruence.
  - apply andb_true_iff in H3 as [H3 He]. apply andb_true_iff in H3 as [Ha Hm].
    apply Bool.eqb_prop in Ha. apply Pos.eqb_eq in Hm. apply Z.eqb_eq in He.
    congruence.
Qed.

Lemma normalize_exact_witness :
  Float32.mul (normalize 12345) (Float32.of_int 32768) = Float32.of_int 12345.
Proof. apply (normalize_exact 12345). lia. Defined.

(** ** The pool *)

Lemma nth_error_update_nth_eq {A} (l : list A) (n : nat) (a x : A) :
  nth_error l n = Some x -> nth_error (update_nth n a l) n = Some a.
Proof.
  revert n; induction l as [|y l IH]; intros [|n] H; try discriminate.
  - reflexivity.
  - cbn in *. apply IH. exact H.
Qed.

Lemma nth_error_update_nth_neq {A} (l : list A) (n m : nat) (a : A) :
  n <> m -> nth_error (update_nth n a l) m = nth_error l m.
Proof.
  revert n m; induction l as [|y l IH]; intros [|n] [|m] H; try reflexivity.
  - congruence.
  - cbn. apply IH. congruence.
Qed.

Lemma nth_update_nth_neq {A} (l : list A) (n m : nat) (a d : A) :
  n <> m -> nth m (update_nth n a l) d = nth m l d.
Proof.
  revert n m; induction l as [|y l IH]; intros [|n] [|m] H; try reflexivity.
  - congruence.
  - cbn. apply IH. congruence.
Qed.

Lemma map_update_nth {A B} (f : A -> B) (n : nat) (a : A) (l : list A) :
  List.map f (update_nth n a l) = update_nth n (f a) (List.map f l).
Proof.
  revert n; induction l as [|y l IH]; intros [|n]; try reflexivity.
  cbn. rewrite IH. reflexivity.
Qed.

Lemma update_nth_same {A} (l : list A) (n : nat) (x : A) :
  nth_error l n = Some x -> update_nth n x l = l.
Proof.
  revert n; induction l as [|y l IH]; intros [|n] H; try discriminate.
  - cbn in *. congruence.
  - cbn in *. rewrite IH by exact H. reflexivity.
Qed.

Lemma update_nth_middle {A} (pre : list A) (x y : A) (tl : list A) :
  update_nth (List.length pre) y (pre ++ x :: tl) = pre ++ y :: tl.
Proof. induction pre as [|z pre IH]; cbn; [reflexivity | rewrite IH; reflexivity]. Qed.

(** *** The iterators of the other jobs *)

Lemma iters_refl (own : option nat) (w : world) : iters_step own w w.
Proof. split; [lia | reflexivity]. Qed.

Lemma iters_trans (own : option nat) (a b c : world) :
  iters_step own a b -> iters_step own b c -> iters_step own a c.
Proof.
  intros [L1 P1] [L2 P2]. split; [lia|].
  intros id Hid Ho. rewrite P2 by (try lia; exact Ho). apply P1; assumption.
Qed.

Lemma iters_kept (own : option nat) (w w' : world) :
  iters w' = iters w -> iters_step own w w'.
Proof. intros H. split; [rewrite H; lia|]. intros id _ _. unfold pending. rewrite H. reflexivity. Qed.

Lemma iters_emit (own : option nat) (e : event) : respects (iters_step own) (emit e).
Proof. intros w. apply iters_kept. reflexivity. Qed.

Lemma iters_filterwarnings (own : option nat) (a : Warnings.action) :
  respects (iters_step own) (filterwarnings a).
Proof. intros w. apply iters_kept. reflexivity. Qed.

Lemma iters_set_pending (id : nat) (items : list segment) :
  respects (iters_step (Some id)) (set_pending id items).
Proof.
  intros w. unfold set_pending, bind, get, set_iters. cbn [snd]. split; cbn [iters].
  - rewrite length_update_nth. lia.
  - intros id' _ Ho. unfold pending. cbn [iters].
    apply nth_update_nth_neq. congruence.
Qed.

Lemma iters_f_write (own : option nat) (path s : str) :
  respects (iters_step own) (f_write path s).
Proof.
  intros w. apply iters_kept. unfold f_write.
  destruct (Utf8.encode_error s); [reflexivity|].
  unfold bind, get. destruct (read_file path (files w)); reflexivity.
Qed.

Lemma iters_open_w (own : option nat) (E : env) (path : str) :
  respects (iters_step own) (open_w E path).
Proof.
  intros w. apply iters_kept. unfold open_w.
  destruct (openable E path); reflexivity.
Qed.

Lemma iters_for_iter (body : Z -> segment -> M unit) (id : nat) :
  (forall i s, respects (iters_step (Some id)) (body i s)) ->
  forall l i, respects (iters_step (Some id)) (for_iter body id i l).
Proof.
  intros Hb l; induction l as [|x l IH]; intros i; cbn [for_iter].
  - apply respects_ret, iters_refl.
  - apply respects_bind; [apply iters_trans | apply iters_set_pending | intros _].
    apply respects_bind; [apply iters_trans | apply Hb | intros _; apply IH].
Qed.

Lemma iters_for_enumerate (body : Z -> segment -> M unit) (i0 : Z) (t : iterable) :
  (forall own i s, respects (iters_step own) (body i s)) ->
  respects (iters_step (owner t)) (for_enumerate body i0 t).
Proof.
  intros Hb. destruct t as [l|id]; cbn [for_enumerate owner].
  - apply respects_for_list; [apply iters_refl | apply iters_trans | apply Hb].
  - apply respects_bind; [apply iters_trans | apply respects_get, iters_refl |].
    intros todo. apply iters_for_iter. apply Hb.
Qed.

Lemma iters_write_vtt (E : env) (t : iterable) (path : str) :
  respects (iters_step (owner t)) (write_vtt E (__init__ t) path).
Proof.
  unfold write_vtt, for_in, __init__, transcript.
  apply respects_bind; [apply iters_trans | apply iters_open_w | intros _].
  apply respects_bind; [apply iters_trans | apply iters_f_write | intros _].
  apply iters_for_enumerate. intros own i s.
  apply respects_bind; [apply iters_trans | apply respects_lift, iters_refl | intros a].
  apply respects_bind; [apply iters_trans | apply respects_lift, iters_refl | intros b].
  apply iters_f_write.
Qed.

Lemma iters_write_srt (E : env) (t : iterable) (path : str) :
  respects (iters_step (owner t)) (write_srt E (__init__ t) path).
Proof.
  unfold write_srt, __init__, transcript.
  apply respects_bind; [apply iters_trans | apply iters_open_w | intros _].
  apply iters_for_enumerate. intros own i s.
  apply respects_bind; [apply iters_trans | apply respects_lift, iters_refl | intros a].
  apply respects_bind; [apply iters_trans | apply respects_lift, iters_refl | intros b].
  apply iters_f_write.
Qed.

Lemma iters_extract_audio (own : option nat) (E : env) (video_path : str) :
  respects (iters_step own) (_extract_audio E video_path).
Proof.
  unfold _extract_audio, print.
  repeat (apply respects_bind; [apply iters_trans | apply iters_emit | intros _]).
  destruct (subprocess_run E _).
  - apply respects_bind; [apply iters_trans | apply respects_lift, iters_refl | intros ?].
    apply respects_ret, iters_refl.
  - apply respects_bind; [apply iters_trans | apply iters_emit | intros _].
    apply respects_bind; [apply iters_trans | apply respects_lift, iters_refl | intros ?].
    apply respects_bind; [apply iters_trans | apply iters_emit | intros _].
    apply respects_ret, iters_refl.
  - apply respects_raise, iters_refl.
Qed.

(** *** One step of a job *)

Lemma extract_audio_trace (E : env) (video_path : str) (w : world) :
  exists new,
    trace (snd (_extract_audio E video_path w)) = trace w ++ new
    /\ In (EvSubprocess (ffmpeg_cmd video_path)) new.
Proof.
  unfold _extract_audio, bind, print, emit, lift, ret, raise.
  cbn [fst snd trace]. destruct (subprocess_run E (ffmpeg_cmd video_path)).
  - destruct (frombuffer_int16 stdout); cbn [fst snd trace];
      rewrite <- !app_assoc; eexists; (split; [reflexivity|]); cbn; auto.
  - destruct (decode E stderr); cbn [fst snd trace];
      rewrite <- !app_assoc; eexists; (split; [reflexivity|]); cbn; auto.
  - cbn [fst snd trace].
    rewrite <- !app_assoc; eexists; (split; [reflexivity|]); cbn; auto.
Qed.

(** The call of the model hands out a list, or a one-shot iterator that
    is new in the store. *)
Lemma model_transcribe_alloc (E : env) (audio : list Float32.float32) (w : world) :
  model w = true ->
  match transcribe E audio TRANSCRIBE_ARGS with
  | Ok v =>
      exists t w',
        model_transcribe E audio w = (Ok t, w')
        /\ items_of t w' = segments_of v
        /\ items_left t = segments_again v
        /\ iters_step None w w'
        /\ forall id, owner t = Some id ->
             id = List.length (iters w) /\ (id < List.length (iters w'))%nat
  | Raise e =>
      exists w', model_transcribe E audio w = (Raise e, w') /\ iters w' = iters w
  end.
Proof.
  intros Hm. unfold model_transcribe, bind, get, emit. rewrite Hm. cbn [negb].
  cbn [fst snd filters files iters model trace].
  destruct (transcribe E audio TRANSCRIBE_ARGS) as [[items|items]|e]; cbn -[lit].
  - eexists; eexists. split; [reflexivity|]. split; [reflexivity|].
    split; [reflexivity|]. split; [apply iters_kept; reflexivity|].
    intros id H. discriminate.
  - eexists; eexists. split; [reflexivity|]. split; [|split; [reflexivity|split]].
    + cbn [items_of segments_of]. unfold pending. cbn [iters].
      rewrite app_nth2 by lia. rewrite Nat.sub_diag. reflexivity.
    + split; cbn [iters].
      * rewrite length_app. lia.
      * intros id Hid _. unfold pending. cbn [iters]. apply app_nth1. exact Hid.
    + intros id [= <-]. cbn [iters]. rewrite length_app. cbn. lia.
  - eexists. split; reflexivity.
Qed.

(** One step of the worker of a job that is at the stage [s] and on its
    way to the outcome of its file: the step takes the job to a next
    stage, still on that way, or ends it with that outcome; it keeps
    the model, touches no iterator of another job, and only adds to the
    trace (the first step adding the start of the subprocess). *)
Lemma stage_step (E : env) (video_path : str) (s : stage) (w : world) :
  model w = true ->
  (forall id, owned s = Some id -> (id < List.length (iters w))%nat) ->
  stage_outcome E video_path s w = job_outcome E video_path ->
  exists a w',
    work (Running (rest_at E video_path s)) w = (Ok (future_at E video_path a), w')
    /\ a <> Handled
    /\ model w' = true
    /\ iters_step (owned s) w w'
    /\ (exists new,
          trace w' = trace w ++ new
          /\ (s = Extracting -> In (EvSubprocess (ffmpeg_cmd video_path)) new))
    /\ forall s', a = At s' ->
         s' <> Extracting
         /\ stage_outcome E video_path s' w' = job_outcome E video_path
         /\ forall id, owned s' = Some id ->
              (id < List.length (iters w'))%nat
              /\ (owned s = Some id \/ (List.length (iters w) <= id)%nat).
Proof.
  intros Hm Hown Ho. destruct s as [|a|a|a|t|t|t| |].
  - (* the extraction *)
    pose proof (extract_audio_outcome E video_path w) as Hx.
    pose proof (job_extract_audio E video_path w) as (Hm1 & _).
    pose proof (iters_extract_audio None E video_path w) as Hi.
    pose proof (extract_audio_trace E video_path w) as (new & Ht & Hin).
    assert (Hw : forall r w1,
               _extract_audio E video_path w = (r, w1) ->
               work (Running (rest_at E video_path Extracting)) w
               = (Ok match r with
                     | Ok (Some a) => Running (rest_at E video_path (Announcing a))
                     | Ok None => Running (rest_at E video_path Returning)
                     | Raise e => Done (Raise e)
                     end, w1)).
    { intros r w1 Er. cbn [rest_at]. unfold _process_single_video. cbn [work].
      unfold attempt, bind. rewrite Er. destruct r as [[a|]|e]; reflexivity. }
    destruct (_extract_audio E video_path w) as [r w1] eqn:Er.
    cbn [fst snd] in Hx, Hm1, Hi, Ht. rewrite Hm in Hm1.
    specialize (Hw r w1 eq_refl).
    assert (Hr : match r with
                 | Ok (Some a) => audio_outcome E video_path a = job_outcome E video_path
                 | Ok None => job_outcome E video_path = Ok tt
                 | Raise e => job_outcome E video_path = Raise e
                 end).
    { unfold job_outcome. subst r.
      destruct (subprocess_run E (ffmpeg_cmd video_path)) as [stdout|stderr|e0].
      - destruct (frombuffer_int16 stdout); reflexivity.
      - destruct (decode E stderr); reflexivity.
      - reflexivity. }
    destruct r as [[a|]|e].
    + exists (At (Announcing a)), w1. split; [exact Hw|]. split; [discriminate|].
      split; [exact Hm1|]. split; [exact Hi|]. split; [exists new; auto|].
      intros s' [= <-]. split; [discriminate|]. split; [exact Hr|].
      intros id H. discriminate.
    + exists (At Returning), w1. split; [exact Hw|]. split; [discriminate|].
      split; [exact Hm1|]. split; [exact Hi|]. split; [exists new; auto|].
      intros s' [= <-]. split; [discriminate|]. split; [symmetry; exact Hr|].
      intros id H. discriminate.
    + exists Ended, w1. split; [cbn [future_at]; rewrite Hr; exact Hw|].
      split; [discriminate|].
      split; [exact Hm1|]. split; [exact Hi|]. split; [exists new; auto|].
      intros s' H. discriminate.
  - (* the line before the transcription *)
    exists (At (Muting a)), (snd (print (lit "  Generating subtitles...") w)).
    split; [reflexivity|]. split; [discriminate|]. split; [exact Hm|].
    split; [apply iters_emit|]. split.
    + eexists. split; [reflexivity | discriminate].
    + intros s' [= <-]. split; [discriminate|]. split; [exact Ho|].
      intros id H. discriminate.
  - (* warnings off *)
    exists (At (Transcribing a)), (snd (filterwarnings Warnings.Ignore w)).
    split; [reflexivity|]. split; [discriminate|]. split; [exact Hm|].
    split; [apply iters_filterwarnings|]. split.
    + exists []. split; [cbn; rewrite app_nil_r; reflexivity | discriminate].
    + intros s' [= <-]. split; [discriminate|]. split; [exact Ho|].
      intros id H. discriminate.
  - (* the transcription *)
    pose proof (model_transcribe_alloc E a w Hm) as Hmt.
    pose proof (job_model_transcribe E a w) as (Hm1 & new & Ht & _).
    cbn [stage_outcome] in Ho. unfold audio_outcome in Ho.
    assert (Hw : forall r w1,
               model_transcribe E a w = (r, w1) ->
               work (Running (rest_at E video_path (Transcribing a))) w
               = (Ok match r with
                     | Ok t => Running (rest_at E video_path (Unmuting t))
                     | Raise e => Done (Raise e)
                     end, w1)).
    { intros r w1 Er. cbn [rest_at work].
      unfold attempt, bind. rewrite Er. destruct r; reflexivity. }
    destruct (transcribe E a TRANSCRIBE_ARGS) as [v|e].
    + destruct Hmt as (t & w1 & Er & Hitems & Hleft & Hi & Hnew).
      rewrite Er in Hm1, Ht. cbn [snd] in Hm1, Ht. rewrite Hm in Hm1.
      exists (At (Unmuting t)), w1. split; [exact (Hw _ _ Er)|].
      split; [discriminate|]. split; [exact Hm1|]. split; [exact Hi|]. split.
      * exists new. split; [exact Ht | discriminate].
      * intros s' [= <-]. split; [discriminate|]. split.
        -- cbn [stage_outcome]. rewrite Hitems, Hleft. exact Ho.
        -- intros id H. cbn [owned] in H. destruct (Hnew id H) as [-> Hlt].
           split; [exact Hlt | right; lia].
    + destruct Hmt as (w1 & Er & Hi).
      rewrite Er in Hm1, Ht. cbn [snd] in Hm1, Ht. rewrite Hm in Hm1.
      exists Ended, w1. split; [cbn [future_at]; rewrite <- Ho; exact (Hw _ _ Er)|].
      split; [discriminate|]. split; [exact Hm1|].
      split; [apply iters_kept; exact Hi|]. split.
      * exists new. split; [exact Ht | discriminate].
      * intros s' H. discriminate.
  - (* warnings on *)
    exists (At (WritingVtt t)), (snd (filterwarnings Warnings.Default w)).
    split; [reflexivity|]. split; [discriminate|]. split; [exact Hm|].
    split; [apply iters_filterwarnings|]. split.
    + exists []. split; [cbn; rewrite app_nil_r; reflexivity | discriminate].
    + intros s' [= <-]. split; [discriminate|]. split.
      * cbn [stage_outcome] in *. rewrite <- Ho. destruct t; reflexivity.
      * intros id H. split; [apply (Hown id H) | left; exact H].
  - (* the first file *)
    destruct (write_vtt_outcome E t (vtt_path_of video_path) w) as [Hv Hvl].
    pose proof (quiet_write_vtt E (__init__ t) (vtt_path_of video_path) w)
      as (_ & Hm1 & Ht).
    pose proof (iters_write_vtt E t (vtt_path_of video_path) w) as Hi.
    cbn [stage_outcome] in Ho. unfold files_outcome in Ho. rewrite <- Hv in Ho.
    assert (Hw : forall r w1,
               write_vtt E (__init__ t) (vtt_path_of video_path) w = (r, w1) ->
               work (Running (rest_at E video_path (WritingVtt t))) w
               = (Ok match r with
                     | Ok _ => Running (rest_at E video_path (WritingSrt t))
                     | Raise e => Done (Raise e)
                     end, w1)).
    { intros r w1 Er. cbn [rest_at work].
      unfold attempt, bind. rewrite Er. destruct r; reflexivity. }
    destruct (write_vtt E (__init__ t) (vtt_path_of video_path) w) as [[[]|e] w1] eqn:Er;
      cbn [fst snd] in *; rewrite Hm in Hm1.
    + exists (At (WritingSrt t)), w1. split; [exact (Hw _ _ eq_refl)|].
      split; [discriminate|]. split; [exact Hm1|]. split; [exact Hi|]. split.
      * exists []. split; [rewrite app_nil_r; exact Ht | discriminate].
      * intros s' [= <-]. split; [discriminate|]. split.
        -- cbn [stage_outcome]. rewrite (Hvl eq_refl). exact Ho.
        -- intros id H. destruct Hi as [Hlen _]. cbn [owned] in *.
           split; [specialize (Hown id H); lia | left; exact H].
    + exists Ended, w1.
      split; [cbn [future_at]; rewrite <- Ho; exact (Hw _ _ eq_refl)|].
      split; [discriminate|]. split; [exact Hm1|]. split; [exact Hi|]. split.
      * exists []. split; [rewrite app_nil_r; exact Ht | discriminate].
      * intros s' H. discriminate.
  - (* the second file *)
    destruct (write_srt_outcome E t (srt_path_of video_path) w) as [Hv Hvl].
    pose proof (quiet_write_srt E (__init__ t) (srt_path_of video_path) w)
      as (_ & Hm1 & Ht).
    pose proof (iters_write_srt E t (srt_path_of video_path) w) as Hi.
    cbn [stage_outcome] in Ho. rewrite <- Hv in Ho.
    assert (Hw : forall r w1,
               write_srt E (__init__ t) (srt_path_of video_path) w = (r, w1) ->
               work (Running (rest_at E video_path (WritingSrt t))) w
               = (Ok match r with
                     | Ok _ => Running (rest_at E video_path Reporting)
                     | Raise e => Done (Raise e)
                     end, w1)).
    { intros r w1 Er. cbn [rest_at work].
      unfold attempt, bind. rewrite Er. destruct r; reflexivity. }
    destruct (write_srt E (__init__ t) (srt_path_of video_path) w) as [[[]|e] w1] eqn:Er;
      cbn [fst snd] in *; rewrite Hm in Hm1.
    + exists (At Reporting), w1. split; [exact (Hw _ _ eq_refl)|].
      split; [discriminate|]. split; [exact Hm1|]. split; [exact Hi|]. split.
      * exists []. split; [rewrite app_nil_r; exact Ht | discriminate].
      * intros s' [= <-]. split; [discriminate|]. split; [exact Ho|].
        intros id H. discriminate.
    + exists Ended, w1.
      split; [cbn [future_at]; rewrite <- Ho; exact (Hw _ _ eq_refl)|].
      split; [discriminate|]. split; [exact Hm1|]. split; [exact Hi|]. split.
      * exists []. split; [rewrite app_nil_r; exact Ht | discriminate].
      * intros s' H. discriminate.
  - (* the last line *)
    eexists (At Returning), _.
    split; [reflexivity|]. split; [discriminate|]. split; [exact Hm|].
    split; [apply iters_emit|]. split.
    + eexists. split; [reflexivity | discriminate].
    + intros s' [= <-]. split; [discriminate|]. split; [exact Ho|].
      intros id H. discriminate.
  - (* the return *)
    exists Ended, w. split; [cbn [future_at]; rewrite <- Ho; reflexivity|].
    split; [discriminate|]. split; [exact Hm|]. split; [apply iters_refl|]. split.
    + exists []. split; [rewrite app_nil_r; reflexivity | discriminate].
    + intros s' H. discriminate.
Qed.

(** *** One turn of the pool *)

Lemma handle_run (i : nat) (video_path : str) (r : result unit) (w : world) :
  handle i video_path r w
  = (Ok tt,
     mkWorld (filters w) (files w) (iters w) (model w)
       (trace w ++ EvJobEnd i (raised r)
          :: match r with
             | Ok _ => []
             | Raise e => [EvPrint (error_line video_path e)]
             end)).
Proof.
  destruct r as [[]|e]; unfold handle, bind, print, emit, error_line;
    cbn [fst snd raised trace filters files iters model];
    rewrite <- ?app_assoc; reflexivity.
Qed.

Lemma stage_outcome_stable (E : env) (video_path : str) (s : stage) (w w' : world) :
  (forall id, owned s = Some id -> pending id w' = pending id w) ->
  stage_outcome E video_path s w' = stage_outcome E video_path s w.
Proof.
  intros H. destruct s as [|a|a|a|t|t|t| |]; try reflexivity;
    destruct t as [l|id]; try reflexivity;
    cbn [stage_outcome items_of]; rewrite (H id eq_refl); reflexivity.
Qed.

(** What holds of a future stays when another thread takes a step that
    leaves its iterator alone. *)
Lemma future_ok_stable (E : env) (body new : list event) (w w' : world) (i : nat)
  (ap : progress * str) (own : option nat) :
  iters_step own w w' ->
  (forall s id, fst ap = At s -> owned s = Some id -> own <> Some id) ->
  future_ok E body w i ap -> future_ok E (body ++ new) w' i ap.
Proof.
  intros [Hlen Hkeep] Hother. destruct ap as [[s| |] p]; unfold future_ok; cbn [fst snd].
  - intros (Ho & Hown & Hsub). split; [|split].
    + rewrite <- Ho. apply stage_outcome_stable. intros id Hid.
      apply Hkeep; [apply Hown, Hid | apply (Hother s id eq_refl Hid)].
    + intros id Hid. specialize (Hown id Hid). lia.
    + destruct Hsub as [->|Hin]; [left; reflexivity | right; apply in_or_app; auto].
  - intros Hin. apply in_or_app; auto.
  - intros (before & after & -> & Hin & Hline).
    exists before, (after ++ new). rewrite <- app_assoc. split; [reflexivity|].
    split; [exact Hin|]. intros e He. apply in_or_app; left. apply Hline, He.
Qed.

Lemma nth_error_futures_at (E : env) (pool : list (progress * str)) (i : nat) :
  nth_error (futures_at E pool) i
  = match nth_error pool i with
    | Some ap => Some (future_at E (snd ap) (fst ap), snd ap)
    | None => None
    end.
Proof. unfold futures_at. rewrite nth_error_map. destruct (nth_error pool i); reflexivity. Qed.

Lemma futures_at_update (E : env) (pool : list (progress * str)) (i : nat)
  (a : progress) (p : str) :
  update_nth i (future_at E p a, p) (futures_at E pool)
  = futures_at E (update_nth i (a, p) pool).
Proof. unfold futures_at. rewrite map_update_nth. reflexivity. Qed.

Lemma map_snd_update (pool : list (progress * str)) (i : nat) (a a0 : progress)
  (p : str) :
  nth_error pool i = Some (a0, p) ->
  List.map snd (update_nth i (a, p) pool) = List.map snd pool.
Proof.
  intros H. rewrite map_update_nth. apply update_nth_same.
  rewrite nth_error_map, H. reflexivity.
Qed.

(** Whatever future the scheduler picks, the turn keeps the invariant of
    the pool. *)
Lemma turn_ok (E : env) (t0 : list event) (pool : list (progress * str))
  (w : world) (i : nat) :
  pool_ok E t0 pool w ->
  exists pool' w',
    turn i (futures_at E pool) w = (Ok (futures_at E pool'), w')
    /\ pool_ok E t0 pool' w'
    /\ List.map snd pool' = List.map snd pool.
Proof.
  intros (Hm & (body & Ht & Hall) & Hdis). unfold turn.
  rewrite nth_error_futures_at.
  destruct (nth_error pool i) as [[[s| |] p]|] eqn:Hn; cbn [fst snd future_at].
  - (* a step of the worker *)
    destruct (Hall i _ Hn) as (Ho & Hown & Hsub). cbn [fst snd] in Ho, Hown, Hsub.
    destruct (stage_step E p s w Hm Hown Ho)
      as (a & w' & Hw & Hnh & Hm' & Hi & (new & Ht' & Hnew) & Hnext).
    exists (update_nth i (a, p) pool), w'.
    split; [|split; [|apply (map_snd_update pool i a (At s) p Hn)]].
    { rewrite (bind_ok _ _ _ _ _ Hw). unfold ret. rewrite futures_at_update.
      reflexivity. }
    split; [exact Hm'|]. split.
    + exists (body ++ new). split; [rewrite Ht', Ht, app_assoc; reflexivity|].
      intros j ap Hj. destruct (Nat.eq_dec i j) as [<-|Hij].
      * rewrite (nth_error_update_nth_eq _ _ _ _ Hn) in Hj. injection Hj as <-.
        assert (Hstarted : In (EvSubprocess (ffmpeg_cmd p)) (body ++ new)).
        { apply in_or_app. destruct Hsub as [Hs|Hin]; [right; apply Hnew, Hs | left; exact Hin]. }
        unfold future_ok; cbn [fst snd]. destruct a as [s'| |].
        -- destruct (Hnext s' eq_refl) as (Hne & Ho' & Hown').
           split; [exact Ho'|]. split; [intros id Hid; apply (Hown' id Hid) | right; exact Hstarted].
        -- exact Hstarted.
        -- congruence.
      * rewrite (nth_error_update_nth_neq _ _ _ _ Hij) in Hj.
        apply (future_ok_stable E body new w w' j ap (owned s) Hi); [|apply Hall, Hj].
        intros sj id Hsj Hid Heq. destruct ap as [aj pj]. cbn [fst] in Hsj. subst aj.
        apply (Hdis j i sj s pj p id); [congruence | exact Hj | exact Hn | exact Hid | exact Heq].
    + intros i' j' si sj pi pj id Hij Hi' Hj' Hid Hjd.
      destruct (Nat.eq_dec i i') as [<-|Hii].
      * rewrite (nth_error_update_nth_eq _ _ _ _ Hn) in Hi'. injection Hi' as -> <-.
        rewrite (nth_error_update_nth_neq _ _ _ _ Hij) in Hj'.
        destruct (Hnext si eq_refl) as (_ & _ & Hown').
        destruct (Hown' id Hid) as [_ [Hold|Hfresh]].
        -- apply (Hdis i j' s sj p pj id Hij Hn Hj' Hold Hjd).
        -- destruct (Hall j' _ Hj') as (_ & Hownj & _). cbn [fst snd] in Hownj.
           specialize (Hownj id Hjd). lia.
      * rewrite (nth_error_update_nth_neq _ _ _ _ Hii) in Hi'.
        destruct (Nat.eq_dec i j') as [<-|Hjj].
        -- rewrite (nth_error_update_nth_eq _ _ _ _ Hn) in Hj'. injection Hj' as -> <-.
           destruct (Hnext sj eq_refl) as (_ & _ & Hown').
           destruct (Hown' id Hjd) as [_ [Hold|Hfresh]].
           ++ apply (Hdis i' i si s pi p id); [congruence | exact Hi' | exact Hn | exact Hid | exact Hold].
           ++ destruct (Hall i' _ Hi') as (_ & Howni & _). cbn [fst snd] in Howni.
              specialize (Howni id Hid). lia.
        -- rewrite (nth_error_update_nth_neq _ _ _ _ Hjj) in Hj'.
           apply (Hdis i' j' si sj pi pj id Hij Hi' Hj' Hid Hjd).
  - (* the future is handled *)
    pose proof (Hall i _ Hn) as Hsub. unfold future_ok in Hsub. cbn [fst snd] in Hsub.
    set (new := EvJobEnd i (raised (job_outcome E p))
                :: match job_outcome E p with
                   | Ok _ => []
                   | Raise e => [EvPrint (error_line p e)]
                   end).
    set (w' := mkWorld (filters w) (files w) (iters w) (model w) (trace w ++ new)).
    exists (update_nth i (Handled, p) pool), w'.
    split; [|split; [|apply (map_snd_update pool i Handled Ended p Hn)]].
    { rewrite (bind_ok _ _ _ _ _ (handle_run i p (job_outcome E p) w)).
      unfold ret. rewrite <- futures_at_update. reflexivity. }
    split; [exact Hm|]. split.
    + exists (body ++ new). split; [subst w'; cbn [trace]; rewrite Ht, app_assoc; reflexivity|].
      intros j ap Hj. destruct (Nat.eq_dec i j) as [<-|Hij].
      * rewrite (nth_error_update_nth_eq _ _ _ _ Hn) in Hj. injection Hj as <-.
        unfold future_ok; cbn [fst snd].
        exists body. eexists. split; [reflexivity|]. split; [exact Hsub|].
        intros e He. rewrite He. left. reflexivity.
      * rewrite (nth_error_update_nth_neq _ _ _ _ Hij) in Hj.
        apply (future_ok_stable E body new w w' j ap None);
          [apply iters_kept; reflexivity | discriminate | apply Hall, Hj].
    + intros i' j' si sj pi pj id Hij Hi' Hj' Hid Hjd.
      destruct (Nat.eq_dec i i') as [<-|Hii];
        [rewrite (nth_error_update_nth_eq _ _ _ _ Hn) in Hi'; discriminate|].
      destruct (Nat.eq_dec i j') as [<-|Hjj];
        [rewrite (nth_error_update_nth_eq _ _ _ _ Hn) in Hj'; discriminate|].
      rewrite (nth_error_update_nth_neq _ _ _ _ Hii) in Hi'.
      rewrite (nth_error_update_nth_neq _ _ _ _ Hjj) in Hj'.
      apply (Hdis i' j' si sj pi pj id Hij Hi' Hj' Hid Hjd).
  - (* nothing is left to do for the future *)
    exists pool, w. split; [|split; [|reflexivity]].
    + cbn [work]. unfold bind, ret.
      rewrite (update_nth_same (futures_at E pool) i (Yielded, p)); [reflexivity|].
      rewrite nth_error_futures_at, Hn. reflexivity.
    + split; [exact Hm|]. split; [exists body; auto | exact Hdis].
  - (* no such future *)
    exists pool, w. split; [reflexivity|]. split; [|reflexivity].
    split; [exact Hm|]. split; [exists body; auto | exact Hdis].
Qed.

Lemma turns_ok (E : env) (t0 : list event) (schedule : list nat) :
  forall pool w,
    pool_ok E t0 pool w ->
    exists pool' w',
      turns schedule (futures_at E pool) w = (Ok (futures_at E pool'), w')
      /\ pool_ok E t0 pool' w'
      /\ List.map snd pool' = List.map snd pool.
Proof.
  induction schedule as [|i rest IH]; intros pool w Hok.
  - exists pool, w. auto.
  - destruct (turn_ok E t0 pool w i Hok) as (pool1 & w1 & E1 & Hok1 & Hp1).
    destruct (IH pool1 w1 Hok1) as (pool2 & w2 & E2 & Hok2 & Hp2).
    exists pool2, w2. cbn [turns]. rewrite (bind_ok _ _ _ _ _ E1).
    split; [exact E2|]. split; [exact Hok2 | congruence].
Qed.

(** *** Waiting for the pool *)

Lemma turns_app (a b : list nat) :
  forall futures w,
    turns (a ++ b) futures w = (futures' <- turns a futures ;; turns b futures') w.
Proof.
  induction a as [|i a IH]; intros futures w; cbn [app turns].
  - reflexivity.
  - unfold bind.
    destruct (turn i futures w) as [[futures1|e] w1]; [rewrite IH|]; reflexivity.
Qed.

(** Running what is left of a job to its end is giving its worker all
    the turns it needs. *)
Lemma finish_as_turns (c : prog unit) :
  forall (pre : list (future * str)) (p : str) (tl : list (future * str)) (w : world),
    exists sched,
      turns sched (pre ++ (Running c, p) :: tl) w
      = (Ok (pre ++ (Done (fst (exec c w)), p) :: tl), snd (exec c w)).
Proof.
  induction c as [a|B call rest IH]; intros pre p tl w.
  - exists [List.length pre]. cbn [turns]. unfold turn.
    rewrite nth_error_middle. cbn [work exec]. unfold bind, ret.
    rewrite update_nth_middle. reflexivity.
  - destruct (call w) as [[x|e] w1] eqn:Ec.
    + destruct (IH x pre p tl w1) as [sched Hs].
      exists (List.length pre :: sched). cbn [turns]. unfold turn.
      rewrite nth_error_middle. cbn [work exec]. unfold attempt, bind, ret.
      rewrite Ec. rewrite update_nth_middle. exact Hs.
    + exists [List.length pre]. cbn [turns]. unfold turn.
      rewrite nth_error_middle. cbn [work exec]. unfold attempt, bind, ret.
      rewrite Ec. rewrite update_nth_middle. reflexivity.
Qed.

Lemma handle_ok (i : nat) (video_path : str) (r : result unit) (w : world) :
  handle i video_path r w = (Ok tt, snd (handle i video_path r w)).
Proof. rewrite handle_run. reflexivity. Qed.

Lemma wait_cons (k : nat) (f : future) (p : str) (tl : list (future * str))
  (w : world) :
  wait k ((f, p) :: tl) w
  = wait (S k) tl
      match f with
      | Running c => snd (handle k p (fst (exec c w)) (snd (exec c w)))
      | Done r => snd (handle k p r w)
      | Yielded => w
      end.
Proof.
  cbn [wait]. destruct f as [c|r|]; cbn [finish]; unfold attempt, bind, ret.
  - destruct (exec c w) as [[[]|e] w1]; reflexivity.
  - destruct r as [[]|e]; reflexivity.
  - reflexivity.
Qed.

(** Waiting for the futures from the one numbered [length pre] on is
    giving turns to them until all of them are handled. *)
Lemma wait_as_turns (suf : list (future * str)) :
  forall (pre : list (future * str)) (w : world),
    exists sched,
      turns sched (pre ++ suf) w
      = (Ok (pre ++ List.map (fun fp => (Yielded, snd fp)) suf),
         snd (wait (List.length pre) suf w))
      /\ fst (wait (List.length pre) suf w) = Ok tt.
Proof.
  induction suf as [|[f p] tl IH]; intros pre w.
  - exists []. split; reflexivity.
  - assert (Hlen : List.length (pre ++ [(Yielded, p)]) = S (List.length pre))
      by (rewrite length_app; cbn; lia).
    assert (Hdone : forall r w1,
               exists sched,
                 turns sched (pre ++ (Done r, p) :: tl) w1
                 = (Ok (pre ++ (Yielded, p) :: List.map (fun fp => (Yielded, snd fp)) tl),
                    snd (wait (S (List.length pre)) tl
                           (snd (handle (List.length pre) p r w1))))
                 /\ fst (wait (S (List.length pre)) tl
                           (snd (handle (List.length pre) p r w1))) = Ok tt).
    { intros r w1.
      destruct (IH (pre ++ [(Yielded, p)]) (snd (handle (List.length pre) p r w1)))
        as (sched & Hs & Hr).
      rewrite Hlen in Hs, Hr. rewrite <- !app_assoc in Hs. cbn [app] in Hs.
      exists (List.length pre :: sched). split; [|exact Hr].
      cbn [turns]. unfold turn. rewrite nth_error_middle. cbv beta iota.
      unfold bind at 1 2. cbv beta. rewrite handle_ok. unfold ret.
      rewrite update_nth_middle. exact Hs. }
    rewrite wait_cons. destruct f as [c|r|].
    + destruct (finish_as_turns c pre p tl w) as [sched1 H1].
      destruct (Hdone (fst (exec c w)) (snd (exec c w))) as (sched2 & H2 & Hr).
      exists (sched1 ++ sched2). rewrite turns_app, (bind_ok _ _ _ _ _ H1).
      cbn [List.map snd]. split; [exact H2 | exact Hr].
    + destruct (Hdone r w) as (sched & H2 & Hr).
      exists sched. cbn [List.map snd]. split; [exact H2 | exact Hr].
    + destruct (IH (pre ++ [(Yielded, p)]) w) as (sched & Hs & Hr).
      rewrite Hlen in Hs, Hr. rewrite <- !app_assoc in Hs. cbn [app] in Hs.
      exists sched. cbn [List.map snd]. split; [exact Hs | exact Hr].
Qed.

(** The pool of a batch, from the submission of its jobs to the return
    of the wait: every future has been handled, after the start of its
    subprocess and with the outcome of the job of its file, and with its
    error line if the job raised. *)
Lemma pool_run (E : env) (schedule : list nat) (video_files : list str) (w : world) :
  model w = true ->
  exists w' body,
    (futures <- turns schedule (submit E video_files) ;; wait 0 futures) w = (Ok tt, w')
    /\ trace w' = trace w ++ body
    /\ forall i video_path,
         nth_error video_files i = Some video_path ->
         future_ok E body w' i (Handled, video_path).
Proof.
  intros Hm.
  set (pool := List.map (fun p => (At Extracting, p)) video_files).
  assert (Hsub : submit E video_files = futures_at E pool).
  { unfold submit, futures_at, pool. rewrite map_map. reflexivity. }
  assert (Hok : pool_ok E (trace w) pool w).
  { split; [exact Hm|]. split.
    - exists []. split; [rewrite app_nil_r; reflexivity|].
      intros i ap Hi. unfold pool in Hi. rewrite nth_error_map in Hi.
      destruct (nth_error video_files i); [|discriminate]. injection Hi as <-.
      unfold future_ok; cbn [fst snd]. split; [reflexivity|].
      split; [discriminate | left; reflexivity].
    - intros i j si sj pi pj id _ Hi _ Hid. unfold pool in Hi.
      rewrite nth_error_map in Hi.
      destruct (nth_error video_files i); [|discriminate]. injection Hi as <- _.
      discriminate. }
  assert (Hfiles : List.map snd pool = video_files).
  { unfold pool. rewrite map_map. apply map_id. }
  destruct (turns_ok E (trace w) schedule pool w Hok) as (pool1 & w1 & E1 & Hok1 & Hp1).
  destruct (wait_as_turns (futures_at E pool1) [] w1) as (sched & E2 & Hr).
  cbn [app List.length] in E2, Hr.
  destruct (turns_ok E (trace w) sched pool1 w1 Hok1) as (pool2 & w2 & E3 & Hok2 & Hp2).
  rewrite E3 in E2. injection E2 as Hall Hw2.
  destruct Hok2 as (_ & (body & Ht & Hfut) & _).
  exists w2, body. split; [|split; [exact Ht|]].
  - rewrite Hsub, (bind_ok _ _ _ _ _ E1).
    destruct (wait 0 (futures_at E pool1) w1) as [r w3]. cbn [fst snd] in *.
    subst r w3. reflexivity.
  - intros i video_path Hi.
    assert (Hp : nth_error (List.map snd pool2) i = Some video_path)
      by (rewrite Hp2, Hp1, Hfiles; exact Hi).
    rewrite nth_error_map in Hp.
    destruct (nth_error pool2 i) as [[a p]|] eqn:Hn; [|discriminate].
    cbn in Hp. injection Hp as ->.
    assert (Ha : nth_error (futures_at E pool2) i
                 = Some (future_at E video_path a, video_path))
      by (rewrite nth_error_futures_at, Hn; reflexivity).
    rewrite Hall in Ha. rewrite nth_error_map in Ha.
    destruct (nth_error (futures_at E pool1) i) as [fp|]; [|discriminate].
    cbn in Ha. injection Ha as Ha _.
    destruct a; try discriminate. apply (Hfut i _ Hn).
Qed.

(** C4: in every batch of discovered files, however the scheduler
    interleaves the steps of the jobs and the handling of the futures,
    (1) the thread of a job whose extraction fails has, after that first
    step, nothing left but to return (or has ended, if the diagnostics
    could not be decoded), and no transcription was started in the step;
    (2) [run] returns normally and its closing line is the last event;
    before it every submitted future has been handled, after the
    subprocess of its job was started and with the outcome that the job
    of its file has when it runs alone, whatever the other jobs did,
    raising included; and a job that raised has its line, which names
    the file and gives the message, after the handling of its future. *)
Theorem batch_failure_isolation (E : env) (schedule : list nat) (w : world)
  (video_files : list str) :
  add_paths E = Ok tt ->
  makedirs E OUTPUT_DIR = Ok tt ->
  load_model E MODEL_NAME = Ok tt ->
  fst (_get_video_files E w) = Ok video_files ->
  video_files <> [] ->
  (forall video_path stderr w0,
      subprocess_run E (ffmpeg_cmd video_path) = CalledProcessError stderr ->
      exists f w1 new,
        work (Running (_process_single_video E video_path)) w0 = (Ok f, w1)
        /\ (f = Running (Return tt) \/ exists e, f = Done (Raise e))
        /\ trace w1 = trace w0 ++ new
        /\ forall audio fs, ~ In (EvTranscribe audio fs) new)
  /\ exists w' body,
       run E schedule w = (Ok tt, w')
       /\ trace w'
          = trace w ++ body
            ++ [EvPrint (nl ++ lit "Job finished. All videos processed successfully.")]
       /\ forall future video_path,
            nth_error video_files future = Some video_path ->
            forall wi,
              model wi = true ->
              exists before after,
                body
                = before
                  ++ EvJobEnd future
                       (raised (fst (exec (_process_single_video E video_path) wi)))
                  :: after
                /\ In (EvSubprocess (ffmpeg_cmd video_path)) before
                /\ forall e,
                     fst (exec (_process_single_video E video_path) wi) = Raise e ->
                     In (EvPrint
                           (lit "An unexpected error occurred while processing '"
                            ++ _get_filename video_path ++ lit "': " ++ exn_msg e))
                       after.
Proof.
  intros Hadd Hmk Hload Hfiles Hne. split.
  - intros video_path stderr w0 Hrun.
    unfold _process_single_video. cbn [work].
    unfold attempt, _extract_audio, bind, print, emit, lift, ret, raise.
    cbn [fst snd trace filters files iters model]. rewrite Hrun.
    destruct (decode E stderr) as [details|e]; cbn [fst snd trace].
    + eexists; eexists; eexists. split; [reflexivity|]. split; [left; reflexivity|].
      cbn [trace]. split; [rewrite <- !app_assoc; reflexivity|].
      intros audio fs Hin. cbn in Hin.
      repeat (destruct Hin as [Hin|Hin]; [discriminate|]). exact Hin.
    + eexists; eexists; eexists. split; [reflexivity|].
      split; [right; eexists; reflexivity|].
      cbn [trace]. split; [rewrite <- !app_assoc; reflexivity|].
      intros audio fs Hin. cbn in Hin.
      repeat (destruct Hin as [Hin|Hin]; [discriminate|]). exact Hin.
  - unfold run. rewrite Hadd, Hmk. unfold lift at 1 2.
    rewrite (bind_ok _ _ w w tt) by reflexivity.
    rewrite (bind_ok _ _ w w tt) by reflexivity.
    rewrite (bind_ok _ _ _ _ _ (get_video_files_run E w video_files Hfiles Hne)).
    destruct video_files as [|p0 ps] eqn:Evf; [congruence|]. rewrite <- Evf in *.
    destruct (load_model_run E w Hload) as (w1 & evs & Er1 & Hm1 & Ht1).
    rewrite (bind_ok _ _ _ _ _ Er1).
    set (found := nl ++ lit "Found " ++ _).
    set (w2 := snd (print found w1)).
    rewrite (bind_ok _ _ w1 w2 tt) by reflexivity.
    assert (Hm2 : model w2 = true) by exact Hm1.
    assert (Ht2 : trace w2 = trace w1 ++ [EvPrint found]) by reflexivity.
    destruct (pool_run E schedule video_files w2 Hm2) as (w3 & body & Er3 & Ht3 & Hall).
    unfold bind at 1 2.
    unfold bind in Er3. 
    destruct (turns schedule (submit E video_files) w2) as [[futures|e] w2'];
      [|discriminate].
    rewrite Er3. 
    set (closing := nl ++ lit "Job finished. All videos processed successfully.").
    exists (snd (print closing w3)), (evs ++ EvPrint found :: body).
    split; [reflexivity|]. split.
    + change (trace (snd (print closing w3))) with (trace w3 ++ [EvPrint closing]).
      rewrite Ht3, Ht2, Ht1. rewrite <- !app_assoc. reflexivity.
    + intros future video_path Hnth wi Hmi.
      rewrite (job_outcome_run E video_path wi Hmi).
      destruct (Hall future video_path Hnth) as (before & after & -> & Hin & Hline).
      exists (evs ++ EvPrint found :: before), after.
      split; [rewrite <- app_assoc; reflexivity|]. split.
      * apply in_or_app; right. right. exact Hin.
      * intros e He. apply (Hline e He).
Qed.

Lemma batch_failure_isolation_witness :
  let video_files :=
    [lit "video_src/clip.mp4"; lit "video_src/bad.mov"; lit "video_src/talk.mkv"] in
  let schedule := [0; 1; 2; 2; 0; 1; 2; 2; 0; 0; 2; 1; 0]%nat in
  exists w' body,
    run Sample.E schedule Sample.initial = (Ok tt, w')
    /\ trace w'
       = trace Sample.initial ++ body
         ++ [EvPrint (nl ++ lit "Job finished. All videos processed successfully.")]
    /\ forall future video_path,
         nth_error video_files future = Some video_path ->
         forall wi,
           model wi = true ->
           exists before after,
             body
             = before
               ++ EvJobEnd future
                    (raised (fst (exec (_process_single_video Sample.E video_path) wi)))
               :: after
             /\ In (EvSubprocess (ffmpeg_cmd video_path)) before
             /\ forall e,
                  fst (exec (_process_single_video Sample.E video_path) wi) = Raise e ->
                  In (EvPrint
                        (lit "An unexpected error occurred while processing '"
                         ++ _get_filename video_path ++ lit "': " ++ exn_msg e))
                    after.
Proof.
  intros video_files schedule.
  destruct (batch_failure_isolation Sample.E schedule Sample.initial video_files)
    as [_ H].
  - reflexivity.
  - reflexivity.
  - reflexivity.
  - vm_compute; reflexivity.
  - discriminate.
  - exact H.
Defined.

(** The sample batch under a schedule that interleaves the three jobs:
    the failure of the extraction of [bad.mov] and the exception of the
    job of [talk.mkv] leave [clip.mp4] its two files, the exception is
    reported with the name of its file, and the run ends with its closing
    line.  The schedule leaves work to wait for. *)
Lemma sample_batch :
  let schedule := [0; 1; 2; 2; 0; 1; 2; 2; 0; 0; 2; 1; 0]%nat in
  let w' := snd (run Sample.E schedule Sample.initial) in
  fst (run Sample.E schedule Sample.initial) = Ok tt
  /\ read_file (lit "result/clip.vtt") (files w') = Some scenario_vtt
  /\ read_file (lit "result/clip.srt") (files w') = Some scenario_srt
  /\ read_file (lit "result/bad.vtt") (files w') = None
  /\ read_file (lit "result/talk.vtt") (files w') = None
  /\ existsb (fun e =>
                match e with
                | EvPrint l =>
                    PyStr.eqb l (lit "An unexpected error occurred while processing 'talk': cannot reshape tensor of 0 elements")
                | _ => false
                end) (trace w') = true
  /\ last (trace w') (EvPrint [])
     = EvPrint (nl ++ lit "Job finished. All videos processed successfully.").
Proof. cbv zeta. repeat split; vm_compute; reflexivity. Qed.

(** With no turn scheduled at all, every job is still run and handled
    before the closing line. *)
Lemma sample_batch_unscheduled :
  let w' := snd (run Sample.E [] Sample.initial) in
  read_file (lit "result/clip.vtt") (files w') = Some scenario_vtt
  /\ List.map (fun e => match e with EvJobEnd i _ => Some i | _ => None end)
       (List.filter (fun e => match e with EvJobEnd _ _ => true | _ => false end)
          (trace w'))
     = [Some 0; Some 1; Some 2]%nat.
Proof. cbv zeta. split; vm_compute; reflexivity. Qed.

(** With a model that hands out a one-shot iterator, the same batch
    leaves [clip.srt] empty. *)
Lemma sample_batch_one_shot :
  let schedule := [0; 1; 2; 2; 0; 1; 2; 2; 0; 0; 2; 1; 0]%nat in
  let w' := snd (run Sample.E_iter schedule Sample.initial) in
  read_file (lit "result/clip.vtt") (files w') = Some scenario_vtt
  /\ read_file (lit "result/clip.srt") (files w') = Some [].
Proof. cbv zeta. split; vm_compute; reflexivity. Qed.
